(** * rt-utils, [rtutils/image_helper.py]: geometry, rasterisation and
    contour tracing between DICOM contours and voxel masks.

    Numbers that numpy holds as floating point are modelled as real numbers
    ([R]) and float64 arithmetic as exact.  The two transformation matrices
    are float32 arrays: they are modelled twice, with entries as they are
    assigned ([get_pixel_to_patient_transformation_matrix],
    [get_patient_to_pixel_transformation_matrix]) and with the rounding of
    every stored entry to float32 written out (the same names with
    [_float32]); each statement names the builder it is about.  Python
    exceptions are values of the type [result]. *)

From Stdlib Require Import Reals Lra Lia ZArith List String Bool Arith Sorted.
From stdpp Require Import base gmap.
Import ListNotations.

Local Open Scope R_scope.

(** ** Exceptions *)

(** The source raises plain [Exception] objects that differ in their message;
    the constructors keep the kinds apart.  [InvalidGeometry] is
    "Invalid Image Orientation (Patient) attribute" and [EmptyContour] is
    "Unable to find contour in non empty mask, ...".  [IndexError],
    [ValueError], [TypeError] and [UnboundLocalError] are the interpreter's
    and numpy's own. *)
Inductive exn : Type :=
  | InvalidGeometry
  | EmptyContour
  | IndexError
  | ValueError
  | TypeError
  | UnboundLocalError.

Inductive result (A : Type) : Type :=
  | Ok (a : A)
  | Raise (e : exn).
Arguments Ok {A} a.
Arguments Raise {A} e.

#[global] Instance result_ret : MRet result := fun A a => Ok a.

#[global] Instance result_bind : MBind result := fun A B k r =>
  match r with
  | Ok a => k a
  | Raise e => Raise e
  end.

(** ** Vectors and 4x4 matrices *)

Record vec3 : Type := V3 { vx : R; vy : R; vz : R }.

Definition dot (a b : vec3) : R :=
  vx a * vx b + vy a * vy b + vz a * vz b.

Definition cross (a b : vec3) : vec3 :=
  V3 (vy a * vz b - vz a * vy b)
     (vz a * vx b - vx a * vz b)
     (vx a * vy b - vy a * vx b).

Definition norm (a : vec3) : R := sqrt (dot a a).

Definition scale (a : vec3) (k : R) : vec3 := V3 (vx a * k) (vy a * k) (vz a * k).

Definition vdiv (a : vec3) (k : R) : vec3 := V3 (vx a / k) (vy a / k) (vz a / k).

Definition coord (a : vec3) (i : nat) : R :=
  match i with
  | O => vx a
  | S O => vy a
  | _ => vz a
  end.

(** A matrix is indexed [M row column]. *)
Definition matrix : Type := nat -> nat -> R.

Definition identity : matrix := fun i j => if Nat.eqb i j then 1 else 0.

(** [mat[:3, j] = v] *)
Definition set_col3 (M : matrix) (j : nat) (v : vec3) : matrix :=
  fun i k => if andb (Nat.eqb k j) (Nat.ltb i 3) then coord v i else M i k.

(** [mat[i, :3] = v] *)
Definition set_row3 (M : matrix) (i : nat) (v : vec3) : matrix :=
  fun r k => if andb (Nat.eqb r i) (Nat.ltb k 3) then coord v k else M r k.

(** [mat[:3, :3] = L] *)
Definition set_block3 (M L : matrix) : matrix :=
  fun i k => if andb (Nat.ltb i 3) (Nat.ltb k 3) then L i k else M i k.

(** [offset.dot(-linear.T)]: component [i] is [sum_k offset[k] * -linear[i][k]]. *)
Definition dot_neg_transpose (offset : vec3) (L : matrix) : vec3 :=
  V3 (vx offset * - L 0%nat 0%nat + vy offset * - L 0%nat 1%nat + vz offset * - L 0%nat 2%nat)
     (vx offset * - L 1%nat 0%nat + vy offset * - L 1%nat 1%nat + vz offset * - L 1%nat 2%nat)
     (vx offset * - L 2%nat 0%nat + vy offset * - L 2%nat 1%nat + vz offset * - L 2%nat 2%nat).

(** [minor M i j] drops row [i] and column [j]. *)
Definition minor (M : matrix) (i j : nat) : matrix :=
  fun r c => M (if Nat.ltb r i then r else S r) (if Nat.ltb c j then c else S c).

(** Determinant of the upper-left 3x3 block. *)
Definition det3 (M : matrix) : R :=
  M 0%nat 0%nat * (M 1%nat 1%nat * M 2%nat 2%nat - M 1%nat 2%nat * M 2%nat 1%nat)
  - M 0%nat 1%nat * (M 1%nat 0%nat * M 2%nat 2%nat - M 1%nat 2%nat * M 2%nat 0%nat)
  + M 0%nat 2%nat * (M 1%nat 0%nat * M 2%nat 1%nat - M 1%nat 1%nat * M 2%nat 0%nat).

(** Determinant of a 4x4 matrix, expanded along its last row. *)
Definition det4 (M : matrix) : R :=
  - M 3%nat 0%nat * det3 (minor M 3 0)
  + M 3%nat 1%nat * det3 (minor M 3 1)
  - M 3%nat 2%nat * det3 (minor M 3 2)
  + M 3%nat 3%nat * det3 (minor M 3 3).

(** ** DICOM datasets *)

Record Dataset : Type := {
  ImagePositionPatient : vec3;
  PixelSpacing : R * R;
  (* ImageOrientationPatient[:3] and ImageOrientationPatient[3:] *)
  ImageOrientationPatient : vec3 * vec3;
  Rows : nat;
  Columns : nat;
  SOPInstanceUID : string
}.

(** [series_data[0]] and [series_data[-1]] raise IndexError on an empty list. *)
Definition first_of {A : Type} (l : list A) : result A :=
  match l with
  | [] => Raise IndexError
  | x :: _ => Ok x
  end.

Definition last_of {A : Type} (l : list A) : result A :=
  match rev l with
  | [] => Raise IndexError
  | x :: _ => Ok x
  end.

(** ** Geometry resolver *)

(** [np.allclose(a, b, atol=atol)] on scalars: numpy tests
    [|a - b| <= atol + rtol * |b|] with the default [rtol = 1e-05]. *)
Definition rtol_default : R := 1 / 100000.

Definition np_allclose (a b atol : R) : bool :=
  if Rle_dec (Rabs (a - b)) (atol + rtol_default * Rabs b) then true else false.

Definition get_slice_directions (series_slice : Dataset) : result (vec3 * vec3 * vec3) :=
  let orientation := ImageOrientationPatient series_slice in
  let row_direction := fst orientation in
  let column_direction := snd orientation in
  let slice_direction := cross row_direction column_direction in
  if orb (negb (np_allclose (dot row_direction column_direction) 0 (1 / 1000)))
         (negb (np_allclose (norm slice_direction) 1 (1 / 1000)))
  then Raise InvalidGeometry
  else Ok (row_direction, column_direction, slice_direction).

Definition get_slice_position (series_slice : Dataset) : result R :=
  '(_, _, slice_direction) ← get_slice_directions series_slice;
  Ok (dot slice_direction (ImagePositionPatient series_slice)).

Definition get_spacing_between_slices (series_data : list Dataset) : result R :=
  if Nat.ltb 1 (length series_data) then
    s0 ← first_of series_data;
    first ← get_slice_position s0;
    s1 ← last_of series_data;
    last ← get_slice_position s1;
    Ok ((last - first) / INR (length series_data - 1))
  else
    (* Return nonzero value for one slice just to make the transformation
       matrix invertible *)
    Ok 1.

(** ** Transform builder *)

(** The two builders, with the entries as they are assigned; their storage
    in float32 is written out further down.  A spacing of zero makes numpy
    divide by zero (inf or nan entries, not reals): what is stated about
    the patient-to-pixel matrix assumes nonzero spacings. *)
Definition get_pixel_to_patient_transformation_matrix
    (series_data : list Dataset) : result matrix :=
  first_slice ← first_of series_data;
  let offset := ImagePositionPatient first_slice in
  let '(row_spacing, column_spacing) := PixelSpacing first_slice in
  slice_spacing ← get_spacing_between_slices series_data;
  '(row_direction, column_direction, slice_direction) ← get_slice_directions first_slice;
  let mat := identity in
  let mat := set_col3 mat 0 (scale row_direction row_spacing) in
  let mat := set_col3 mat 1 (scale column_direction column_spacing) in
  let mat := set_col3 mat 2 (scale slice_direction slice_spacing) in
  let mat := set_col3 mat 3 offset in
  Ok mat.

Definition get_patient_to_pixel_transformation_matrix
    (series_data : list Dataset) : result matrix :=
  first_slice ← first_of series_data;
  let offset := ImagePositionPatient first_slice in
  let '(row_spacing, column_spacing) := PixelSpacing first_slice in
  slice_spacing ← get_spacing_between_slices series_data;
  '(row_direction, column_direction, slice_direction) ← get_slice_directions first_slice;
  let linear := identity in
  let linear := set_row3 linear 0 (vdiv row_direction row_spacing) in
  let linear := set_row3 linear 1 (vdiv column_direction column_spacing) in
  let linear := set_row3 linear 2 (vdiv slice_direction slice_spacing) in
  let mat := identity in
  let mat := set_block3 mat linear in
  let mat := set_col3 mat 3 (dot_neg_transpose offset linear) in
  Ok mat.

(** One row of [vec.dot(transformation_matrix.T)[:, :3]]: the point is
    augmented with a [1] and component [i] is [sum_j vec[j] * M[i][j]]. *)
Definition transform_point (M : matrix) (p : vec3) : vec3 :=
  let comp i := vx p * M i 0%nat + vy p * M i 1%nat + vz p * M i 2%nat + 1 * M i 3%nat in
  V3 (comp 0%nat) (comp 1%nat) (comp 2%nat).

Definition apply_transformation_to_3d_points
    (points : list vec3) (transformation_matrix : matrix) : list vec3 :=
  map (transform_point transformation_matrix) points.

(** ** Arrays *)

Inductive dtype : Type := Bool | UInt8.

(** A two-dimensional array; cells outside the shape are never read.  The
    cells of a boolean array are 0 or 1. *)
Record array2 : Type := {
  a2_dtype : dtype;
  a2_shape : nat * nat;
  a2_at : nat -> nat -> Z
}.

(** A three-dimensional boolean array, the mask of a series. *)
Record array3 : Type := {
  a3_shape : nat * nat * nat;
  a3_at : nat -> nat -> nat -> bool
}.

Definition b2z (b : bool) : Z := if b then 1%Z else 0%Z.
Definition z2b (z : Z) : bool := negb (Z.eqb z 0).

(** [np.zeros(dims).astype(bool)] *)
Definition zeros3 (dims : nat * nat * nat) : array3 :=
  {| a3_shape := dims; a3_at := fun _ _ _ => false |}.

Definition zeros2 (dims : nat * nat) : array2 :=
  {| a2_dtype := Bool; a2_shape := dims; a2_at := fun _ _ => 0%Z |}.

(** [a.astype(dt)] builds a new array. *)
Definition astype (dt : dtype) (a : array2) : array2 :=
  {| a2_dtype := dt;
     a2_shape := a2_shape a;
     a2_at := fun x y =>
       match dt with
       | Bool => b2z (z2b (a2_at a x y))
       | UInt8 => (a2_at a x y mod 256)%Z
       end |}.

(** [mask[:, :, i]] read as a value. *)
Definition plane (m : array3) (i : nat) : array2 :=
  let '(d0, d1, _) := a3_shape m in
  {| a2_dtype := Bool; a2_shape := (d0, d1);
     a2_at := fun x y => b2z (a3_at m x y i) |}.

(** [mask[:, :, i] = p] for a fresh mask.  The rasteriser returns an array of
    the requested shape, so the shapes agree; numpy raises ValueError when
    they cannot be broadcast, IndexError when [i] is out of bounds. *)
Definition set_plane (m : array3) (i : nat) (p : array2) : result array3 :=
  let '(d0, d1, d2) := a3_shape m in
  if negb (Nat.ltb i d2) then Raise IndexError
  else if negb (andb (Nat.eqb (fst (a2_shape p)) d0) (Nat.eqb (snd (a2_shape p)) d1))
  then Raise ValueError
  else Ok {| a3_shape := a3_shape m;
             a3_at := fun x y k =>
               if Nat.eqb k i then z2b (a2_at p x y) else a3_at m x y k |}.

(** ** Mask rasteriser *)

Record Contour : Type := {
  (* the ReferencedSOPInstanceUID of each item of ContourImageSequence *)
  ContourImageSequence : list string;
  ContourData : list R
}.

(** [np.around]: to the nearest integer, halves to the even neighbour. *)
Definition np_around (x : R) : Z :=
  let f := Int_part x in
  let d := frac_part x in
  if Rlt_dec d (1 / 2) then f
  else if Rlt_dec (1 / 2) d then (f + 1)%Z
  else if Z.even f then f else (f + 1)%Z.

Fixpoint rows_of_3 (l : list R) : list vec3 :=
  match l with
  | x :: y :: z :: rest => V3 x y z :: rows_of_3 rest
  | _ => []
  end.

(** [np.reshape(contour_coords, [len(contour_coords) // 3, 3])] raises
    ValueError when the length is not a multiple of 3. *)
Definition reshape_3 (contour_coords : list R) : result (list vec3) :=
  if Nat.eqb (length contour_coords mod 3) 0
  then Ok (rows_of_3 contour_coords)
  else Raise ValueError.

Definition polygon : Type := list (Z * Z).

(** [x.astype(np.int32)] for an integer-valued float [x]: the integer when
    it fits in 32 bits.  Outside that range the conversion is undefined in C;
    numpy on x86-64 returns the smallest int32 there. *)
Definition int32_min : Z := (-2147483648)%Z.
Definition int32_max : Z := 2147483647%Z.

Definition astype_int32 (z : Z) : Z :=
  if (int32_min <=? z)%Z && (z <=? int32_max)%Z then z else int32_min.

(** [np.around([translated[:, :2]]).astype(np.int32)], squeezed. *)
Definition to_polygon (translated_contour_data : list vec3) : polygon :=
  map (fun p => (astype_int32 (np_around (vx p)), astype_int32 (np_around (vy p))))
      translated_contour_data.

Definition get_slice_contour_data
    (series_slice : Dataset) (contour_sequence : list Contour) : list (list R) :=
  fold_left
    (fun slice_contour_data contour =>
       fold_left
         (fun slice_contour_data ReferencedSOPInstanceUID =>
            if String.eqb ReferencedSOPInstanceUID (SOPInstanceUID series_slice)
            then slice_contour_data ++ [ContourData contour]
            else slice_contour_data)
         (ContourImageSequence contour) slice_contour_data)
    contour_sequence [].

Definition create_empty_series_mask (series_data : list Dataset) : result array3 :=
  ref_dicom_image ← first_of series_data;
  let mask_dims := (Columns ref_dicom_image, Rows ref_dicom_image, length series_data) in
  Ok (zeros3 mask_dims).

Definition create_empty_slice_mask (series_slice : Dataset) : array2 :=
  let mask_dims := (Columns series_slice, Rows series_slice) in
  zeros2 mask_dims.

Section Rasteriser.

(** [skimage.draw.polygon2mask(image_shape, polygon)]: the boolean array of
    shape [image_shape] that is true inside the polygon, or the exception
    that skimage raises for the polygon (ValueError for one without
    vertices). *)
Variable polygon2mask : nat * nat -> polygon -> result array2.

(** The loop over [slice_contour_data]; the state is the list [polygons]
    and the variable [polygon], unbound before the first iteration. *)
Fixpoint collect_polygons (slice_contour_data : list (list R))
    (transformation_matrix : matrix)
    (polygons : list polygon) (polygon_var : option polygon)
    : result (list polygon * option polygon) :=
  match slice_contour_data with
  | [] => Ok (polygons, polygon_var)
  | contour_coords :: rest =>
      reshaped_contour_data ← reshape_3 contour_coords;
      let translated_contour_data :=
        apply_transformation_to_3d_points reshaped_contour_data transformation_matrix in
      let polygon := to_polygon translated_contour_data in
      collect_polygons rest transformation_matrix (polygons ++ [polygon]) (Some polygon)
  end.

Definition get_slice_mask_from_slice_contour_data
    (series_slice : Dataset) (slice_contour_data : list (list R))
    (transformation_matrix : matrix) (image_shape : nat * nat) : result array2 :=
  '(polygons, polygon_var) ←
    collect_polygons slice_contour_data transformation_matrix [] None;
  let slice_mask := astype UInt8 (create_empty_slice_mask series_slice) in
  match polygon_var with
  | None => Raise UnboundLocalError
  | Some polygon =>
      slice_mask ← polygon2mask image_shape polygon;
      Ok slice_mask
  end.

(** The loop of [create_series_mask_from_contour_sequence] from index [i]. *)
Fixpoint fill_slices (i : nat) (slices : list Dataset)
    (contour_sequence : list Contour) (transformation_matrix : matrix)
    (image_shape : nat * nat) (mask : array3) : result array3 :=
  match slices with
  | [] => Ok mask
  | series_slice :: rest =>
      let slice_contour_data := get_slice_contour_data series_slice contour_sequence in
      if negb (Nat.eqb (length slice_contour_data) 0) then
        slice_mask ← get_slice_mask_from_slice_contour_data
                       series_slice slice_contour_data transformation_matrix image_shape;
        mask ← set_plane mask i slice_mask;
        fill_slices (S i) rest contour_sequence transformation_matrix image_shape mask
      else
        fill_slices (S i) rest contour_sequence transformation_matrix image_shape mask
  end.

Definition create_series_mask_from_contour_sequence
    (series_data : list Dataset) (contour_sequence : list Contour) : result array3 :=
  mask ← create_empty_series_mask series_data;
  transformation_matrix ← get_patient_to_pixel_transformation_matrix series_data;
  let image_shape := (fst (fst (a3_shape mask)), snd (fst (a3_shape mask))) in
  fill_slices 0 series_data contour_sequence transformation_matrix image_shape mask.

End Rasteriser.

(** ** The float32 storage of the matrices *)

(** Both matrices are allocated with [dtype=np.float32]: what is assigned to
    their entries is computed in float64 and rounded to binary32 when it is
    stored.  [float32 x] is that rounding: [x] lies in the binade
    [2^e <= |x| < 2^(e+1)], the stored values there are the multiples of the
    quantum [2^(e-23)] (24 bits of precision; the quantum is never below
    [2^-149], the subnormal spacing), and [x] goes to the nearest multiple,
    halfway cases to the even one, which is the rule of [np_around] on the
    significand.  A value beyond the largest float32 becomes [inf] in numpy;
    infinities are not reals, and the statements about stored values keep
    them within the range ([float32_normal]). *)
Definition mag2 (x : R) : Z := Int_part (ln (Rabs x) / ln 2).

Definition float32_quantum (x : R) : Z := Z.max (mag2 x - 23) (-149).

Definition float32 (x : R) : R :=
  let e := float32_quantum x in
  IZR (np_around (x * powerRZ 2 (- e))) * powerRZ 2 e.

(** [mat[:3, j] = v] on a float32 array stores each coordinate of [v]. *)
Definition float32_vec (v : vec3) : vec3 :=
  V3 (float32 (vx v)) (float32 (vy v)) (float32 (vz v)).

(** [get_pixel_to_patient_transformation_matrix] with the storage written
    out.  The entries 0 and 1 of [np.identity] are float32 values as they
    are. *)
Definition get_pixel_to_patient_transformation_matrix_float32
    (series_data : list Dataset) : result matrix :=
  first_slice ← first_of series_data;
  let offset := ImagePositionPatient first_slice in
  let '(row_spacing, column_spacing) := PixelSpacing first_slice in
  slice_spacing ← get_spacing_between_slices series_data;
  '(row_direction, column_direction, slice_direction) ← get_slice_directions first_slice;
  let mat := identity in
  let mat := set_col3 mat 0 (float32_vec (scale row_direction row_spacing)) in
  let mat := set_col3 mat 1 (float32_vec (scale column_direction column_spacing)) in
  let mat := set_col3 mat 2 (float32_vec (scale slice_direction slice_spacing)) in
  let mat := set_col3 mat 3 (float32_vec offset) in
  Ok mat.

(** [get_patient_to_pixel_transformation_matrix] with the storage written
    out: [linear] is a float32 array, and the last column is computed from
    the stored [linear] and then stored itself. *)
Definition get_patient_to_pixel_transformation_matrix_float32
    (series_data : list Dataset) : result matrix :=
  first_slice ← first_of series_data;
  let offset := ImagePositionPatient first_slice in
  let '(row_spacing, column_spacing) := PixelSpacing first_slice in
  slice_spacing ← get_spacing_between_slices series_data;
  '(row_direction, column_direction, slice_direction) ← get_slice_directions first_slice;
  let linear := identity in
  let linear := set_row3 linear 0 (float32_vec (vdiv row_direction row_spacing)) in
  let linear := set_row3 linear 1 (float32_vec (vdiv column_direction column_spacing)) in
  let linear := set_row3 linear 2 (float32_vec (vdiv slice_direction slice_spacing)) in
  let mat := identity in
  let mat := set_block3 mat linear in
  let mat := set_col3 mat 3 (float32_vec (dot_neg_transpose offset linear)) in
  Ok mat.

(** The smallest normal and the largest float32. *)
Definition float32_min_normal : R := powerRZ 2 (-126).
Definition float32_max : R := (2 - powerRZ 2 (-23)) * powerRZ 2 127.

(** [x] is zero or in the range where float32 has its full 24 bits. *)
Definition float32_normal (x : R) : Prop :=
  x = 0 \/ (float32_min_normal <= Rabs x <= float32_max).

Definition vec_normal (v : vec3) : Prop :=
  float32_normal (vx v) /\ float32_normal (vy v) /\ float32_normal (vz v).

(** The values that the two builders store for the reference slice [s] and
    the spacing between slices [slice_spacing] are all in that range. *)
Definition float32_storable (s : Dataset) (slice_spacing : R) : Prop :=
  let offset := ImagePositionPatient s in
  let row_spacing := fst (PixelSpacing s) in
  let column_spacing := snd (PixelSpacing s) in
  let row_direction := fst (ImageOrientationPatient s) in
  let column_direction := snd (ImageOrientationPatient s) in
  let slice_direction := cross row_direction column_direction in
  let linear :=
    set_row3 (set_row3 (set_row3 identity
      0 (float32_vec (vdiv row_direction row_spacing)))
      1 (float32_vec (vdiv column_direction column_spacing)))
      2 (float32_vec (vdiv slice_direction slice_spacing)) in
  vec_normal (scale row_direction row_spacing) /\
  vec_normal (scale column_direction column_spacing) /\
  vec_normal (scale slice_direction slice_spacing) /\
  vec_normal offset /\
  vec_normal (vdiv row_direction row_spacing) /\
  vec_normal (vdiv column_direction column_spacing) /\
  vec_normal (vdiv slice_direction slice_spacing) /\
  vec_normal (dot_neg_transpose offset linear).

(** The unit roundoff of float32, half the distance from 1 to the next
    float32. *)
Definition float32_unit_roundoff : R := powerRZ 2 (-24).

(** ** The store of arrays *)

(** Arrays are objects that functions share and update in place.  The store
    is the list of all arrays allocated so far; an address is a position in
    it. *)
Abbreviation addr := nat.

Inductive object : Type :=
  | Obj2 (a : array2)
  | Obj3 (a : array3).

Abbreviation heap := (list object).

(** An array value of the program: a whole two-dimensional array, or the
    view [mask[:, :, i]] of a three-dimensional one, which shares its cells. *)
Inductive ref : Type :=
  | Whole (a : addr)
  | PlaneView (a : addr) (i : nat).

(** A computation on the store.  [None] stands for a loop that has not
    finished within the fuel it was given; an exception leaves the store as
    it was when it was raised. *)
Definition comp (A : Type) : Type := heap -> option (result A * heap).

#[global] Instance comp_ret : MRet comp := fun A a h => Some (Ok a, h).

#[global] Instance comp_bind : MBind comp := fun A B k m h =>
  match m h with
  | Some (Ok a, h') => k a h'
  | Some (Raise e, h') => Some (Raise e, h')
  | None => None
  end.

Definition raise {A : Type} (e : exn) : comp A := fun h => Some (Raise e, h).

Definition lift {A : Type} (r : result A) : comp A := fun h => Some (r, h).

Definition diverge {A : Type} : comp A := fun _ => None.

(** A new array, at the first free address. *)
Definition alloc (a : array2) : comp addr :=
  fun h => Some (Ok (length h), h ++ [Obj2 a]).

(** The value seen through a reference. *)
Definition load (r : ref) : comp array2 :=
  fun h =>
    match r with
    | Whole a =>
        match h !! a with
        | Some (Obj2 x) => Some (Ok x, h)
        | _ => Some (Raise TypeError, h)
        end
    | PlaneView a i =>
        match h !! a with
        | Some (Obj3 m) => Some (Ok (plane m i), h)
        | _ => Some (Raise TypeError, h)
        end
    end.

(** [mask[:, :, i]] for an index [i >= 0]: a view, no cell is copied. *)
Definition view_plane (a : addr) (i : nat) : comp ref :=
  fun h =>
    match h !! a with
    | Some (Obj3 m) =>
        if Nat.ltb i (snd (a3_shape m)) then Some (Ok (PlaneView a i), h)
        else Some (Raise IndexError, h)
    | _ => Some (Raise TypeError, h)
    end.

(** ** Indexing *)

(** A Python number used as an index: an integer or a float. *)
Inductive pynum : Type :=
  | PyInt (n : Z)
  | PyFloat (x : R).

Definition py_sub (a : pynum) (k : Z) : pynum :=
  match a with
  | PyInt n => PyInt (n - k)
  | PyFloat x => PyFloat (x - IZR k)
  end.

(** An integer index on an axis of length [dim]: negative indices count
    from the end, anything else out of range is an IndexError. *)
Definition norm_index (i : Z) (dim : nat) : option nat :=
  if (0 <=? i)%Z && (i <? Z.of_nat dim)%Z then Some (Z.to_nat i)
  else if (- Z.of_nat dim <=? i)%Z && (i <? 0)%Z then Some (Z.to_nat (i + Z.of_nat dim))
  else None.

Definition norm_index2 (shape : nat * nat) (rc : Z * Z) : option (nat * nat) :=
  match norm_index (fst rc) (fst shape), norm_index (snd rc) (snd shape) with
  | Some x, Some y => Some (x, y)
  | _, _ => None
  end.

(** [mask[idx]] for a pair [idx]: numpy accepts integers only. *)
Definition getitem (a : array2) (idx : pynum * pynum) : result Z :=
  match idx with
  | (PyInt r, PyInt c) =>
      match norm_index2 (a2_shape a) (r, c) with
      | Some (x, y) => Ok (a2_at a x y)
      | None => Raise IndexError
      end
  | _ => Raise IndexError
  end.

(** All pairs of indices in range, normalised; [None] if one is not. *)
Fixpoint norm_indices (shape : nat * nat) (idxs : list (Z * Z)) : option (list (nat * nat)) :=
  match idxs with
  | [] => Some []
  | rc :: rest =>
      match norm_index2 shape rc, norm_indices shape rest with
      | Some xy, Some xys => Some (xy :: xys)
      | _, _ => None
      end
  end.

(** [mask[rr, cc] = value] on a uint8 array: the indices are checked first,
    then every cell they name is written.  The source passes the value 0; a
    value outside 0..255 is stored modulo 256 by numpy 1 and refused with
    OverflowError by numpy 2. *)
Definition setitem (a : array2) (rr cc : list Z) (value : Z) : result array2 :=
  match norm_indices (a2_shape a) (combine rr cc) with
  | Some xys =>
      Ok {| a2_dtype := a2_dtype a; a2_shape := a2_shape a;
            a2_at := fun x y =>
              if existsb (fun xy => Nat.eqb (fst xy) x && Nat.eqb (snd xy) y) xys
              then (value mod 256)%Z
              else a2_at a x y |}
  | None => Raise IndexError
  end.

(** In-place update of the array at address [a]. *)
Definition update (a : addr) (f : array2 -> result array2) : comp unit :=
  fun h =>
    match h !! a with
    | Some (Obj2 x) =>
        match f x with
        | Ok x' => Some (Ok tt, <[a := Obj2 x']> h)
        | Raise e => Some (Raise e, h)
        end
    | _ => Some (Raise TypeError, h)
    end.

Definition as_int (n : pynum) : result Z :=
  match n with
  | PyInt z => Ok z
  | PyFloat _ => Raise TypeError
  end.

(** ** Contour tracer *)

(** A traced contour: (row, column) points with float coordinates. *)
Definition contour : Type := list (R * R).

(** The caller's region of interest ([rtutils.utils.ROIData]): the address
    of its three-dimensional boolean mask and the two flags. *)
Record ROIData : Type := {
  mask : addr;
  use_pin_hole : bool;
  approximate_contours : bool
}.

(** [np.sum] of a two-dimensional array. *)
Definition np_sum (a : array2) : Z :=
  fold_right Z.add 0%Z
    (map (fun x => fold_right Z.add 0%Z (map (a2_at a x) (seq 0 (snd (a2_shape a)))))
         (seq 0 (fst (a2_shape a)))).

Definition validate_contours {A : Type} (contours : list A) : result unit :=
  if Nat.eqb (length contours) 0 then Raise EmptyContour else Ok tt.

(** [np.ravel(points).tolist()] *)
Definition ravel (points : list vec3) : list R :=
  flat_map (fun p => [vx p; vy p; vz p]) points.

(** One contour formatted for DICOM: the slice index is added as third
    coordinate, the points are mapped to patient space and flattened.  An
    empty contour has no second axis to concatenate along. *)
Definition format_contour (i : nat) (transformation_matrix : matrix)
    (c : list (R * R)) : result (list R) :=
  match c with
  | [] => Raise ValueError
  | _ =>
      let with_z := map (fun x => V3 (fst x) (snd x) (INR i)) c in
      let transformed_contour :=
        apply_transformation_to_3d_points with_z transformation_matrix in
      Ok (ravel transformed_contour)
  end.

Fixpoint format_contours (i : nat) (transformation_matrix : matrix)
    (contours : list (list (R * R))) (formatted_contours : list (list R))
    : result (list (list R)) :=
  match contours with
  | [] => Ok formatted_contours
  | c :: rest =>
      dicom_formatted_contour ← format_contour i transformation_matrix c;
      format_contours i transformation_matrix rest
        (formatted_contours ++ [dicom_formatted_contour])
  end.

(** [skimage.measure.find_contours] checks its argument before it traces:
    an array with fewer than 2 rows or fewer than 2 columns is refused with
    the ValueError "Input array must be at least 2x2."  [marching_squares]
    stands for the trace of an array that passes the check. *)
Definition below_2x2 (image : array2) : bool :=
  Nat.ltb (fst (a2_shape image)) 2 || Nat.ltb (snd (a2_shape image)) 2.

Definition skimage_find_contours (marching_squares : array2 -> list contour)
    (image : array2) : result (list contour) :=
  if below_2x2 image then Raise ValueError else Ok (marching_squares image).

Section Tracer.

(** [skimage.measure.find_contours(mask, level=None, fully_connected='low',
    positive_orientation='low')]: the list of traced contours, or the
    exception that skimage raises for the array. *)
Variable find_contours : array2 -> result (list contour).

(** [skimage.draw.line_aa(r0, c0, r1, c1)]: the rows, the columns and the
    intensities of the pixels of the line. *)
Variable line_aa : Z -> Z -> Z -> Z -> list Z * list Z * list R.

Definition find_mask_contours (mask : ref) (approximate_contours : bool)
    : comp (list contour) :=
  a ← load mask;
  lift (find_contours a).

(** The [while] loop of [draw_line_upwards_from_point] on the uint8 array
    at address [mask]: [while mask[end] != fill_value], draw the line from
    [start] to [end], then move both [line_width] columns down.  [fuel]
    bounds the number of turns. *)
Fixpoint draw_loop (fuel : nat) (mask : addr) (start end_ : pynum * pynum)
    (fill_value : Z) (line_width : Z) : comp unit :=
  match fuel with
  | O => diverge
  | S fuel' =>
      a ← load (Whole mask);
      v ← lift (getitem a end_);
      if negb (Z.eqb v fill_value) then
        r0 ← lift (as_int (fst start));
        c0 ← lift (as_int (snd start));
        r1 ← lift (as_int (fst end_));
        c1 ← lift (as_int (snd end_));
        let '(rr, cc, val) := line_aa r0 c0 r1 c1 in
        _ ← update mask (fun a => setitem a rr cc fill_value);
        let start := end_ in
        let end_ := (fst start, py_sub (snd start) line_width) in
        draw_loop fuel' mask start end_ fill_value line_width
      else mret tt
  end.

Definition draw_line_upwards_from_point (fuel : nat) (mask : ref)
    (start : pynum * pynum) (fill_value : Z) : comp ref :=
  let line_width := 2%Z in
  let end_ := (fst start, py_sub (snd start) 1) in
  a ← load mask;
  mask ← alloc (astype UInt8 a);
  _ ← draw_loop fuel mask start end_ fill_value line_width;
  a ← load (Whole mask);
  result_mask ← alloc (astype Bool a);
  mret (Whole result_mask).

(** The loop of [create_pin_hole_mask] over the traced contours, all of
    them; [tuple(child_contour[0])] is a pair of floats and raises IndexError
    on a contour without points. *)
Fixpoint pin_hole_loop (fuel : nat) (contours : list contour) (pin_hole_mask : ref)
    : comp ref :=
  match contours with
  | [] => mret pin_hole_mask
  | child_contour :: rest =>
      match child_contour with
      | [] => raise IndexError
      | p :: _ =>
          let line_start := (PyFloat (fst p), PyFloat (snd p)) in
          pin_hole_mask ← draw_line_upwards_from_point fuel pin_hole_mask line_start 0;
          pin_hole_loop fuel rest pin_hole_mask
      end
  end.

Definition create_pin_hole_mask (fuel : nat) (mask : ref) (approximate_contours : bool)
    : comp ref :=
  contours ← find_mask_contours mask approximate_contours;
  a ← load mask;
  pin_hole_mask ← alloc a;
  pin_hole_loop fuel contours (Whole pin_hole_mask).

(** The body of the loop of [get_contours_coords] for slice [i]: the
    list of formatted contours of the slice, empty for a blank plane.  The
    points are reordered from (row, column) to (column, row) before
    [validate_contours]. *)
Definition slice_contours (fuel : nat) (roi_data : ROIData)
    (transformation_matrix : matrix) (i : nat) : comp (list (list R)) :=
  mask_slice ← view_plane (mask roi_data) i;
  a ← load mask_slice;
  if Z.eqb (np_sum a) 0 then mret []
  else
    mask_slice ←
      (if use_pin_hole roi_data
       then create_pin_hole_mask fuel mask_slice (approximate_contours roi_data)
       else mret mask_slice);
    contours ← find_mask_contours mask_slice (approximate_contours roi_data);
    let contours := map (map (fun x => (snd x, fst x))) contours in
    _ ← lift (validate_contours contours);
    lift (format_contours i transformation_matrix contours []).

Fixpoint contours_loop (fuel : nat) (roi_data : ROIData)
    (transformation_matrix : matrix) (i : nat) (slices : list Dataset)
    (series_contours : list (list (list R))) : comp (list (list (list R))) :=
  match slices with
  | [] => mret series_contours
  | series_slice :: rest =>
      formatted_contours ← slice_contours fuel roi_data transformation_matrix i;
      contours_loop fuel roi_data transformation_matrix (S i) rest
        (series_contours ++ [formatted_contours])
  end.

Definition get_contours_coords (fuel : nat) (roi_data : ROIData)
    (series_data : list Dataset) : comp (list (list (list R))) :=
  transformation_matrix ← lift (get_pixel_to_patient_transformation_matrix series_data);
  contours_loop fuel roi_data transformation_matrix 0 series_data [].

End Tracer.

(** ** Vocabulary of the specification *)

(** What the orientation test of [get_slice_directions] amounts to. *)
Definition orientation_rejected (row_direction column_direction : vec3) : Prop :=
  Rabs (dot row_direction column_direction) > 1 / 1000 \/
  Rabs (norm (cross row_direction column_direction) - 1) > 1 / 1000 + 1 / 100000.

(** The orientation of the slice fails that test. *)
Definition slice_rejected (s : Dataset) : Prop :=
  orientation_rejected (fst (ImageOrientationPatient s)) (snd (ImageOrientationPatient s)).

(** The slice normal and the projection of the slice position onto it. *)
Definition slice_normal (s : Dataset) : vec3 :=
  cross (fst (ImageOrientationPatient s)) (snd (ImageOrientationPatient s)).

Definition projection (s : Dataset) : R :=
  dot (slice_normal s) (ImagePositionPatient s).

(** Row and column directions of unit length and orthogonal to each other. *)
Definition orthonormal (s : Dataset) : Prop :=
  let r := fst (ImageOrientationPatient s) in
  let c := snd (ImageOrientationPatient s) in
  dot r r = 1 /\ dot c c = 1 /\ dot r c = 0.

(** The extent of what the round trip handles: the point in millimetres
    along each axis, and the position of the reference slice. *)
Definition physical_extent (s : Dataset) (slice_spacing : R) (p : vec3) : R :=
  let offset := ImagePositionPatient s in
  Rabs (fst (PixelSpacing s)) * Rabs (vx p)
  + Rabs (snd (PixelSpacing s)) * Rabs (vy p)
  + Rabs slice_spacing * Rabs (vz p)
  + (Rabs (vx offset) + Rabs (vy offset) + Rabs (vz offset)).

(** The relative deviation that two float32 roundings leave on a product,
    rounded up: [2u + u^2 <= 1.2e-7] for [u = 2^-24]. *)
Definition float32_round_trip_error : R := 12 / 100000000.

(** [x'] is [x] up to the relative error of one float32 rounding. *)
Definition float32_close (x' x : R) : Prop :=
  Rabs (x' - x) <= float32_unit_roundoff * Rabs x.

Definition float32_vec_close_to (a' a : vec3) : Prop :=
  float32_close (vx a') (vx a) /\ float32_close (vy a') (vy a) /\
  float32_close (vz a') (vz a).

Definition eps2 : R :=
  2 * float32_unit_roundoff + float32_unit_roundoff * float32_unit_roundoff.

Definition abs_dot (a b : vec3) : R :=
  Rabs (vx a) * Rabs (vx b) + Rabs (vy a) * Rabs (vy b) + Rabs (vz a) * Rabs (vz b).

Definition norm1 (a : vec3) : R := Rabs (vx a) + Rabs (vy a) + Rabs (vz a).

(** [q] agrees with [p] up to [tol] in each coordinate. *)
Definition within_tolerance (tol : R) (q p : vec3) : Prop :=
  Rabs (vx q - vx p) <= tol /\ Rabs (vy q - vy p) <= tol /\ Rabs (vz q - vz p) <= tol.

(** Cell-wise union of two boolean arrays of the same shape. *)
Definition mask_union (a b : array2) : array2 :=
  {| a2_dtype := Bool; a2_shape := a2_shape a;
     a2_at := fun x y => b2z (orb (z2b (a2_at a x y)) (z2b (a2_at b x y))) |}.

(** No item of any contour refers to the slice. *)
Definition no_matching_contour (series_slice : Dataset) (contour_sequence : list Contour) : Prop :=
  forall contour, In contour contour_sequence ->
  forall uid, In uid (ContourImageSequence contour) ->
  uid <> SOPInstanceUID series_slice.

(** [frames h0 m Q]: run from any store that extends [h0], the computation
    [m] leaves the cells of [h0] as they are, and a value it returns
    satisfies [Q]. *)
Definition frames {A : Type} (h0 : heap) (m : comp A) (Q : A -> Prop) : Prop :=
  forall h r h',
    h0 `prefix_of` h -> m h = Some (r, h') ->
    h0 `prefix_of` h' /\ forall a, r = Ok a -> Q a.

(** The computation [m], run from [h], finishes: with a value or with an
    exception. *)
Definition terminates {A : Type} (m : comp A) (h : heap) : Prop :=
  exists r h', m h = Some (r, h').

(** Some cell of row [r] at a column below [c] already holds [fill_value]
    in the uint8 copy of [a]. *)
Definition background_reachable (a : array2) (r c fill_value : Z) : Prop :=
  exists c' x y,
    (0 <= c' < c)%Z /\
    norm_index2 (a2_shape a) (r, c') = Some (x, y) /\
    a2_at (astype UInt8 a) x y = fill_value.

(** Plane [k] of the mask is false in every cell. *)
Definition plane_blank (m : array3) (k : nat) : Prop :=
  forall x y,
    (x < fst (fst (a3_shape m)))%nat -> (y < snd (fst (a3_shape m)))%nat ->
    a3_at m x y k = false.

(** Plane [k] of the mask has a true cell. *)
Definition plane_has_true (m : array3) (k : nat) : Prop :=
  exists x y,
    (x < fst (fst (a3_shape m)))%nat /\ (y < snd (fst (a3_shape m)))%nat /\
    a3_at m x y k = true.

(** ** Example inputs *)

(** A slice whose row direction is stretched to length 1.001005. *)
Definition stretched_slice : Dataset :=
  {| ImagePositionPatient := V3 0 0 0;
     PixelSpacing := (1, 1);
     ImageOrientationPatient := (V3 (1001005 / 1000000) 0 0, V3 0 1 0);
     Rows := 4; Columns := 4;
     SOPInstanceUID := "1.2.3" |}.


(** An axial slice at height [z]: unit pixel spacing, directions along the
    x and y axes. *)
Definition axial_slice (uid : string) (z : R) : Dataset :=
  {| ImagePositionPatient := V3 0 0 z;
     PixelSpacing := (1, 1);
     ImageOrientationPatient := (V3 1 0 0, V3 0 1 0);
     Rows := 4; Columns := 4;
     SOPInstanceUID := uid |}.

(** A rasteriser that is exact on rectangles with sides along the axes: a
    cell is set when it lies in the bounding box of the vertices. *)
Definition bounding_box_fill (image_shape : nat * nat) (poly : polygon) : array2 :=
  {| a2_dtype := Bool; a2_shape := image_shape;
     a2_at := fun x y =>
       let r := Z.of_nat x in
       let c := Z.of_nat y in
       b2z (existsb (fun v => Z.leb (fst v) r) poly &&
            existsb (fun v => Z.leb r (fst v)) poly &&
            existsb (fun v => Z.leb (snd v) c) poly &&
            existsb (fun v => Z.leb c (snd v)) poly) |}.

(** The same fill as a rasteriser; like skimage's, it refuses a polygon
    without vertices. *)
Definition bounding_box_mask (image_shape : nat * nat) (poly : polygon) : result array2 :=
  match poly with
  | [] => Raise ValueError
  | _ :: _ => Ok (bounding_box_fill image_shape poly)
  end.

(** Two squares in pixel space, as flat coordinate lists. *)
Definition square_near : list R := [0; 0; 0;  0; 2; 0;  2; 2; 0;  2; 0; 0].
Definition square_far  : list R := [4; 4; 0;  4; 6; 0;  6; 6; 0;  6; 4; 0].

(** Two axial slices, and a contour sequence whose only contour refers to the
    second of them. *)
Definition two_slices : list Dataset := [axial_slice "a" 0; axial_slice "b" 3].

Definition contour_on_b : list Contour :=
  [ {| ContourImageSequence := ["b"%string]; ContourData := square_near |} ].

(** The pixels that [line_aa] returns for a horizontal line drawn toward
    smaller columns: row [r0], columns [c0] down to [c1], full intensity. *)
Definition line_aa_leftward (r0 c0 r1 c1 : Z) : list Z * list Z * list R :=
  let n := S (Z.to_nat (c0 - c1)) in
  (repeat r0 n, map (fun k => (c0 - Z.of_nat k)%Z) (seq 0 n), repeat 1 n).

(** A trace that finds one contour, whatever the mask. *)
Definition one_contour (a : array2) : result (list contour) :=
  Ok [[(1 / 2, 1); (1, 1 / 2)]].

(** A 4x4x2 mask whose first plane is false and whose second plane has the
    cell (1, 1) set. *)
Definition dot_mask : array3 :=
  {| a3_shape := (4, 4, 2)%nat;
     a3_at := fun x y k => Nat.eqb x 1 && Nat.eqb y 1 && Nat.eqb k 1 |}.

(** A 3x6 boolean array with a background cell at column 1 of row 1. *)
Definition strip : array2 :=
  {| a2_dtype := Bool; a2_shape := (3, 6)%nat;
     a2_at := fun x y => if Nat.eqb x 1 && Nat.eqb y 1 then 0%Z else 1%Z |}.

(** A 5x5 boolean array: a filled 3x3 square with a hole in its centre. *)
Definition ring_mask : array2 :=
  {| a2_dtype := Bool; a2_shape := (5, 5)%nat;
     a2_at := fun x y =>
       b2z (Nat.leb 1 x && Nat.leb x 3 && Nat.leb 1 y && Nat.leb y 3
            && negb (Nat.eqb x 2 && Nat.eqb y 2)) |}.

(** A trace that finds an outer and an inner contour, whatever the mask. *)
Definition two_contours (a : array2) : result (list contour) :=
  Ok [ [(1 / 2, 1); (1, 1 / 2)]; [(3 / 2, 2); (2, 3 / 2)] ].

(** A region of interest on the mask at address 0, without and with the
    pin-hole pass. *)
Definition roi_plain : ROIData :=
  {| mask := 0; use_pin_hole := false; approximate_contours := false |}.

Definition roi_pin_hole : ROIData :=
  {| mask := 0; use_pin_hole := true; approximate_contours := false |}.

(** ** Loading a series *)

(** The outcome of [load_sorted_image_series]: the sorted series, the
    exception "No DICOM Images found in input path", or the exception of a
    sort key. *)
Inductive load_outcome : Type :=
  | SortedSeries (series_data : list Dataset)
  | NoImagesFound
  | KeyRaise (e : exn).

(** The keys of [series_data.sort(key=get_slice_position)]: they are
    computed for all slices, in order, before any comparison. *)
Fixpoint sort_keys (series_data : list Dataset) : result (list (R * Dataset)) :=
  match series_data with
  | [] => Ok []
  | s :: rest =>
      k ← get_slice_position s;
      keyed ← sort_keys rest;
      Ok ((k, s) :: keyed)
  end.

(** [list.sort] is stable and ascending and compares keys with [<]; what a
    stable sort returns does not depend on how it sorts.  Here each element
    is put before the first element whose key is not smaller. *)
Fixpoint insert_keyed (x : R * Dataset) (l : list (R * Dataset)) : list (R * Dataset) :=
  match l with
  | [] => [x]
  | y :: ys =>
      if Rlt_dec (fst y) (fst x) then y :: insert_keyed x ys else x :: y :: ys
  end.

Definition sort_keyed (l : list (R * Dataset)) : list (R * Dataset) :=
  fold_right insert_keyed [] l.

(** [load_sorted_image_series], from the list that
    [load_dcm_images_from_path] read from the directory. *)
Definition load_sorted_image_series (loaded : list Dataset) : load_outcome :=
  let series_data := loaded in
  if Nat.eqb (length series_data) 0 then NoImagesFound
  else
    match sort_keys series_data with
    | Raise e => KeyRaise e
    | Ok keyed => SortedSeries (map snd (sort_keyed keyed))
    end.

(** The slices of [l] whose projection is [k], in the order of [l]. *)
Definition with_projection (k : R) (l : list Dataset) : list Dataset :=
  List.filter (fun s => if Req_dec_T (projection s) k then true else false) l.

(** Three slices that share the axial orientation, out of order. *)
Definition shuffled_slices : list Dataset :=
  [axial_slice "b" 3; axial_slice "a" 0; axial_slice "c" 6].

(** [a + k * v] on vectors. *)
Definition vadd_scaled (a : vec3) (k : R) (v : vec3) : vec3 :=
  V3 (vx a + k * vx v) (vy a + k * vy v) (vz a + k * vz v).

(** An axial slice with pixel spacing (2, 4). *)
Definition wide_slice (uid : string) (z : R) : Dataset :=
  {| ImagePositionPatient := V3 10 20 z;
     PixelSpacing := (2, 4);
     ImageOrientationPatient := (V3 1 0 0, V3 0 1 0);
     Rows := 4; Columns := 4;
     SOPInstanceUID := uid |}.

(** The contour data that refer to the slice, contour by contour and item by
    item: the specification of [get_slice_contour_data]. *)
Definition matching_contour_data (series_slice : Dataset) (contour_sequence : list Contour)
    : list (list R) :=
  flat_map
    (fun contour =>
       flat_map
         (fun uid =>
            if String.eqb uid (SOPInstanceUID series_slice)
            then [ContourData contour] else [])
         (ContourImageSequence contour))
    contour_sequence.

(** A contour that refers to slice "b" twice and one that refers to "a". *)
Definition contours_a_bb : list Contour :=
  [ {| ContourImageSequence := ["b"%string; "b"%string]; ContourData := square_near |};
    {| ContourImageSequence := ["a"%string]; ContourData := square_far |} ].

(** A contour on slice "b" whose coordinate list is cut short. *)
Definition truncated_contour : list Contour :=
  [ {| ContourImageSequence := ["b"%string]; ContourData := [1; 2] |} ].

(** The flat coordinate list that [get_contours_coords] writes for a traced
    contour of slice [i]: each (row, column) point becomes the pixel index
    (column, row, i), mapped by the matrix. *)
Definition dicom_contour (M : matrix) (i : nat) (c : contour) : list R :=
  ravel (map (fun x => transform_point M (V3 (snd x) (fst x) (INR i))) c).

(** A trace that finds one square contour, whatever the mask. *)
Definition square_contour (a : array2) : result (list contour) :=
  Ok [[(1 / 2, 1); (1, 3 / 2); (3 / 2, 1); (1, 1 / 2)]].

(** [now] has the shape and type of [orig], and each of its cells holds the
    stored fill value or what [orig] holds there. *)
Definition cleared_or_kept (fill_value : Z) (orig now : array2) : Prop :=
  a2_shape now = a2_shape orig /\
  a2_dtype now = a2_dtype orig /\
  forall x y,
    a2_at now x y = (fill_value mod 256)%Z \/ a2_at now x y = a2_at orig x y.

(** What [get_contours_coords] returns for slice [k] without the pin-hole
    pass, by the plane of the mask and its trace: nothing for a blank plane,
    one flat coordinate list per traced contour otherwise. *)
Definition slice_output (find_contours : array2 -> result (list contour))
    (M : matrix) (m : array3) (k : nat) : list (list R) :=
  if Z.eqb (np_sum (plane m k)) 0 then []
  else
    match find_contours (plane m k) with
    | Ok cs => map (dicom_contour M k) cs
    | Raise _ => []
    end.

(** A plane is traceable when it is blank or has a true cell and a trace
    that finds at least one contour, each with at least one point. *)
Definition traceable (find_contours : array2 -> result (list contour))
    (m : array3) (k : nat) : Prop :=
  plane_blank m k \/
  (plane_has_true m k /\
   exists cs, find_contours (plane m k) = Ok cs /\ cs <> [] /\
              Forall (fun c => c <> []) cs).

(** The rasteriser raises [e] on the polygon of the last contour that refers
    to one of the slices. *)
Definition rasteriser_raises (polygon2mask : nat * nat -> polygon -> result array2)
    (slices : list Dataset) (contour_sequence : list Contour) (M : matrix)
    (image_shape : nat * nat) (e : exn) : Prop :=
  exists s ds d,
    In s slices /\
    get_slice_contour_data s contour_sequence = ds ++ [d] /\
    polygon2mask image_shape
      (to_polygon (apply_transformation_to_3d_points (rows_of_3 d) M)) = Raise e.

(** A contour on slice "b" without any coordinate. *)
Definition pointless_contour : list Contour :=
  [ {| ContourImageSequence := ["b"%string]; ContourData := [] |} ].

(** The slice [s] with its row direction stretched by [t] and its column
    direction shrunk by [t]. *)
Definition stretch_directions (t : R) (s : Dataset) : Dataset :=
  {| ImagePositionPatient := ImagePositionPatient s;
     PixelSpacing := PixelSpacing s;
     ImageOrientationPatient :=
       (scale (fst (ImageOrientationPatient s)) t,
        scale (snd (ImageOrientationPatient s)) (/ t));
     Rows := Rows s; Columns := Columns s;
     SOPInstanceUID := SOPInstanceUID s |}.
(** * Properties *)

(** ** Geometry resolver *)

Lemma np_allclose_true a b atol :
  np_allclose a b atol = true <-> Rabs (a - b) <= atol + rtol_default * Rabs b.
Proof.
  unfold np_allclose. destruct (Rle_dec _ _); split; intros; try easy.
Qed.

Lemma np_allclose_false a b atol :
  np_allclose a b atol = false <-> Rabs (a - b) > atol + rtol_default * Rabs b.
Proof.
  unfold np_allclose. destruct (Rle_dec _ _); split; intros; try easy; lra.
Qed.

Lemma get_slice_directions_spec s :
  let r := fst (ImageOrientationPatient s) in
  let c := snd (ImageOrientationPatient s) in
  (get_slice_directions s = Raise InvalidGeometry /\ orientation_rejected r c) \/
  (get_slice_directions s = Ok (r, c, cross r c) /\ ~ orientation_rejected r c).
Proof.
  intros r c. unfold get_slice_directions, orientation_rejected. fold r c.
  destruct (np_allclose (dot r c) 0 (1 / 1000)) eqn:Hd;
    destruct (np_allclose (norm (cross r c)) 1 (1 / 1000)) eqn:Hn; simpl.
  - right. split; [reflexivity|].
    apply np_allclose_true in Hd, Hn. unfold rtol_default in *.
    rewrite Rminus_0_r, Rabs_R0 in Hd. rewrite Rabs_R1 in Hn. lra.
  - left. split; [reflexivity|]. right.
    apply np_allclose_false in Hn. unfold rtol_default in *.
    rewrite Rabs_R1 in Hn. lra.
  - left. split; [reflexivity|]. left.
    apply np_allclose_false in Hd. unfold rtol_default in *.
    rewrite Rminus_0_r, Rabs_R0 in Hd. lra.
  - left. split; [reflexivity|]. left.
    apply np_allclose_false in Hd. unfold rtol_default in *.
    rewrite Rminus_0_r, Rabs_R0 in Hd. lra.
Qed.

(** C4 (as amended).  [get_slice_directions] raises the InvalidGeometry
    exception exactly when the dot product of the row and column directions
    deviates from 0 by more than 1e-3 or the norm of their cross product
    deviates from 1 by more than 1e-3 + 1e-5 (the absolute tolerance plus
    [np.allclose]'s default relative tolerance applied to 1.0); in every
    other case it returns the row direction, the column direction and their
    cross product. *)
Theorem get_slice_directions_raises_iff (s : Dataset) :
  let r := fst (ImageOrientationPatient s) in
  let c := snd (ImageOrientationPatient s) in
  (get_slice_directions s = Raise InvalidGeometry <-> orientation_rejected r c) /\
  (get_slice_directions s = Ok (r, c, cross r c) <-> ~ orientation_rejected r c).
Proof.
  intros r c.
  destruct (get_slice_directions_spec s) as [[E H] | [E H]]; fold r c in E, H;
    rewrite E; split; split; intros; try easy.
Qed.

Lemma norm_cross_axes (a : R) :
  0 <= a -> norm (cross (V3 a 0 0) (V3 0 1 0)) = a.
Proof.
  intros Ha. unfold norm, cross, dot. simpl.
  replace (_ + _ + _) with (a * a) by ring.
  now apply sqrt_square.
Qed.

(** C4, as stated, fails: the norm of the cross product of the directions of
    [stretched_slice] deviates from 1 by 1.005e-3, more than 1e-3, and yet no
    exception is raised. *)
Lemma get_slice_directions_tolerance_counterexample :
  let r := fst (ImageOrientationPatient stretched_slice) in
  let c := snd (ImageOrientationPatient stretched_slice) in
  ~ (get_slice_directions stretched_slice = Raise InvalidGeometry <->
     (Rabs (dot r c - 0) > 1 / 1000 \/ Rabs (norm (cross r c) - 1) > 1 / 1000)).
Proof.
  intros r c [_ H].
  assert (Hn : norm (cross r c) = 1001005 / 1000000).
  { subst r c. simpl. apply norm_cross_axes. lra. }
  assert (Hr : get_slice_directions stretched_slice = Ok (r, c, cross r c)).
  { destruct (get_slice_directions_spec stretched_slice) as [[_ Hrej] | [E _]];
      [exfalso | exact E].
    fold r c in Hrej. unfold orientation_rejected in Hrej. rewrite Hn in Hrej.
    subst r c. unfold dot in Hrej. simpl in Hrej.
    destruct Hrej as [Hrej | Hrej].
    - replace (_ + _ + _) with 0 in Hrej by ring. rewrite Rabs_R0 in Hrej. lra.
    - rewrite Rabs_right in Hrej by lra. lra. }
  rewrite Hr in H. discriminate H.
  right. rewrite Hn. rewrite Rabs_right by lra. lra.
Qed.

Lemma get_slice_directions_accepted s :
  ~ slice_rejected s ->
  get_slice_directions s =
    Ok (fst (ImageOrientationPatient s), snd (ImageOrientationPatient s), slice_normal s).
Proof.
  intros H. destruct (get_slice_directions_spec s) as [[_ Hr] | [E _]]; [|exact E].
  now elim H.
Qed.

Lemma get_slice_position_accepted s :
  ~ slice_rejected s -> get_slice_position s = Ok (projection s).
Proof.
  intros H. unfold get_slice_position.
  now rewrite (get_slice_directions_accepted s H).
Qed.

Lemma cross_dot_cross (r c : vec3) :
  dot (cross r c) (cross r c) = dot r r * dot c c - dot r c * dot r c.
Proof. unfold dot, cross. simpl. ring. Qed.

Lemma orthonormal_not_rejected s : orthonormal s -> ~ slice_rejected s.
Proof.
  unfold orthonormal, slice_rejected, orientation_rejected.
  intros (Hr & Hc & Hrc) [H | H].
  - rewrite Hrc, Rabs_R0 in H. lra.
  - unfold norm in H. rewrite cross_dot_cross, Hr, Hc, Hrc in H.
    replace (1 * 1 - 0 * 0) with 1 in H by ring.
    rewrite sqrt_1, Rminus_diag, Rabs_R0 in H. lra.
Qed.

(** A slice that passes the orientation test has a nonzero normal. *)
Lemma accepted_normal_nonzero s :
  ~ slice_rejected s -> 0 < dot (slice_normal s) (slice_normal s).
Proof.
  intros H. unfold slice_rejected, orientation_rejected in H.
  fold (slice_normal s) in H.
  assert (Hn : Rabs (norm (slice_normal s) - 1) <= 1 / 1000 + 1 / 100000) by lra.
  assert (Hpos : 0 < norm (slice_normal s)).
  { revert Hn. unfold Rabs. destruct (Rcase_abs _); lra. }
  unfold norm in Hpos.
  destruct (Rle_or_lt (dot (slice_normal s) (slice_normal s)) 0) as [Hle | Hlt]; [|exact Hlt].
  rewrite (sqrt_neg_0 _ Hle) in Hpos. lra.
Qed.

Ltac run_result := unfold mbind, result_bind, mret, result_ret; simpl.

(** The determinant of the matrix that
    [get_pixel_to_patient_transformation_matrix] fills in. *)
Lemma forward_matrix_det (r c o : vec3) (rs cs ss : R) :
  det4 (set_col3 (set_col3 (set_col3 (set_col3 identity 0 (scale r rs))
                                     1 (scale c cs))
                           2 (scale (cross r c) ss))
                 3 o)
  = rs * cs * ss * dot (cross r c) (cross r c).
Proof.
  unfold det4, det3, minor, set_col3, identity, scale, cross, dot, coord. simpl. ring.
Qed.

Lemma get_spacing_single s : get_spacing_between_slices [s] = Ok 1.
Proof. reflexivity. Qed.

Lemma get_spacing_multi (series_data : list Dataset) (s0 sl : Dataset) :
  first_of series_data = Ok s0 -> last_of series_data = Ok sl ->
  ~ slice_rejected s0 -> ~ slice_rejected sl ->
  (2 <= length series_data)%nat ->
  get_spacing_between_slices series_data =
    Ok ((projection sl - projection s0) / INR (length series_data - 1)).
Proof.
  intros Hf Hl H0 H1 Hlen. unfold get_spacing_between_slices.
  destruct (Nat.ltb_spec 1 (length series_data)) as [_ | Hlt]; [|lia].
  rewrite Hf, Hl. run_result.
  rewrite (get_slice_position_accepted _ H0), (get_slice_position_accepted _ H1).
  reflexivity.
Qed.

(** C5.  For a series of at least two slices whose first and last slice pass
    the orientation test, [get_spacing_between_slices] returns the difference
    of the projections of the last and of the first slice position onto the
    slice normal, divided by (count - 1).  For a series of exactly one slice it
    returns the nonzero value 1, and the pixel-to-patient matrix built on it
    has a nonzero determinant. *)
Theorem get_spacing_between_slices_value (series_data : list Dataset) (s0 sl : Dataset)
    (Hfirst : first_of series_data = Ok s0)
    (Hlast : last_of series_data = Ok sl)
    (Hacc0 : ~ slice_rejected s0)
    (Haccl : ~ slice_rejected sl)
    (Hrow : 0 < fst (PixelSpacing s0))
    (Hcol : 0 < snd (PixelSpacing s0)) :
  ((2 <= length series_data)%nat ->
     get_spacing_between_slices series_data =
       Ok ((projection sl - projection s0) / INR (length series_data - 1))) /\
  (length series_data = 1%nat ->
     get_spacing_between_slices series_data = Ok 1 /\ 1 <> 0 /\
     exists M, get_pixel_to_patient_transformation_matrix series_data = Ok M /\
               det4 M <> 0).
Proof.
  split.
  - now apply get_spacing_multi.
  - intros Hlen. destruct series_data as [|s [|? ?]]; try discriminate Hlen.
    injection Hfirst as ->.
    split; [reflexivity|]. split; [lra|].
    unfold get_pixel_to_patient_transformation_matrix.
    destruct (PixelSpacing s0) as [rs cs] eqn:Hps. simpl in Hrow, Hcol.
    run_result. rewrite (get_slice_directions_accepted _ Hacc0), Hps.
    eexists. split; [reflexivity|].
    unfold slice_normal. rewrite forward_matrix_det.
    pose proof (accepted_normal_nonzero _ Hacc0) as Hn. unfold slice_normal in Hn.
    apply Rgt_not_eq.
    repeat apply Rmult_lt_0_compat; lra.
Qed.

Lemma axial_slice_orthonormal uid z : orthonormal (axial_slice uid z).
Proof. unfold orthonormal, dot. simpl. repeat split; ring. Qed.

Lemma two_slices_spacing :
  get_spacing_between_slices two_slices =
    Ok ((projection (axial_slice "b" 3) - projection (axial_slice "a" 0)) / INR 1).
Proof.
  apply get_spacing_multi; try reflexivity; try (simpl; lia);
    apply orthonormal_not_rejected, axial_slice_orthonormal.
Qed.

Lemma get_spacing_between_slices_value_witness :
  get_spacing_between_slices [axial_slice "a" 0; axial_slice "b" 3] =
    Ok ((projection (axial_slice "b" 3) - projection (axial_slice "a" 0)) / INR 1).
Proof.
  refine (proj1 (get_spacing_between_slices_value
                   [axial_slice "a" 0; axial_slice "b" 3]
                   (axial_slice "a" 0) (axial_slice "b" 3)
                   eq_refl eq_refl _ _ _ _) _).
  - apply orthonormal_not_rejected, axial_slice_orthonormal.
  - apply orthonormal_not_rejected, axial_slice_orthonormal.
  - simpl. lra.
  - simpl. lra.
  - simpl. lia.
Defined.

(** ** Rounding *)

Lemma Rabs_bounds (x a : R) : Rabs x <= a -> - a <= x <= a.
Proof. unfold Rabs. destruct (Rcase_abs x); lra. Qed.

Lemma np_around_IZR (z : Z) : np_around (IZR z) = z.
Proof.
  unfold np_around.
  destruct (Int_part_frac_part_spec (IZR z) z 0) as [Hi Hf]; [lra | lra |].
  rewrite <- Hi, <- Hf.
  destruct (Rlt_dec 0 (1 / 2)); [reflexivity | lra].
Qed.

Lemma np_around_cases (x : R) :
  let f := Int_part x in
  let d := frac_part x in
  x = IZR f + d /\ 0 <= d < 1 /\
  ((d < 1 / 2 /\ np_around x = f) \/
   (1 / 2 < d /\ np_around x = (f + 1)%Z) \/
   (d = 1 / 2 /\ np_around x = if Z.even f then f else (f + 1)%Z)).
Proof.
  intros f d. subst f d. split; [apply Rplus_Int_part_frac_part|].
  destruct (base_fp x) as [Hge Hlt]. split; [lra|].
  unfold np_around.
  destruct (Rlt_dec (frac_part x) (1 / 2)) as [H1 | H1]; [left; now split|].
  destruct (Rlt_dec (1 / 2) (frac_part x)) as [H2 | H2]; [right; left; now split|].
  right. right. split; [lra | reflexivity].
Qed.

Lemma np_around_near (x : R) : Rabs (IZR (np_around x) - x) <= 1 / 2.
Proof.
  destruct (np_around_cases x) as (Hx & Hd & Hcases).
  destruct Hcases as [[H ->] | [[H ->] | [H E]]].
  - apply Rabs_le. lra.
  - rewrite plus_IZR. apply Rabs_le. lra.
  - rewrite E. destruct (Z.even (Int_part x)).
    + apply Rabs_le. lra.
    + rewrite plus_IZR. apply Rabs_le. lra.
Qed.

(** The integer strictly within half a unit of [x] is its rounding. *)
Lemma np_around_unique (x : R) (m : Z) :
  Rabs (x - IZR m) < 1 / 2 -> np_around x = m.
Proof.
  intros H. pose proof (np_around_near x) as Hn.
  apply Rabs_def2 in H. apply Rabs_bounds in Hn.
  apply Z.le_antisymm.
  - apply Z.lt_succ_r, lt_IZR. rewrite succ_IZR. lra.
  - apply Z.lt_pred_le, lt_IZR. unfold Z.pred. rewrite plus_IZR. lra.
Qed.

Lemma astype_int32_fits (z : Z) :
  (int32_min <= z <= int32_max)%Z -> astype_int32 z = z.
Proof.
  intros [Hlo Hhi]. unfold astype_int32.
  apply Z.leb_le in Hlo, Hhi. now rewrite Hlo, Hhi.
Qed.

(** A coordinate within the range of int32 rounds to an int32. *)
Lemma np_around_fits (x : R) :
  Rabs x <= IZR int32_max -> (int32_min <= np_around x <= int32_max)%Z.
Proof.
  intros Hx. pose proof (np_around_near x) as Hn.
  apply Rabs_bounds in Hx, Hn. unfold int32_min, int32_max in *.
  split.
  - apply Z.lt_pred_le, lt_IZR. unfold Z.pred. rewrite plus_IZR. lra.
  - apply Z.lt_succ_r, lt_IZR. rewrite succ_IZR. lra.
Qed.

(** ** The float32 rounding *)

Lemma ln_2_pos : 0 < ln 2.
Proof. rewrite <- ln_1. apply ln_increasing; lra. Qed.

Lemma ln_powerRZ_2 (e : Z) : ln (powerRZ 2 e) = IZR e * ln 2.
Proof.
  rewrite powerRZ_Rpower by lra. unfold Rpower. apply ln_exp.
Qed.

Lemma powerRZ_2_pos (e : Z) : 0 < powerRZ 2 e.
Proof. apply powerRZ_lt. lra. Qed.

Lemma mag2_unique (x : R) (e : Z) :
  powerRZ 2 e <= Rabs x < powerRZ 2 (e + 1) -> mag2 x = e.
Proof.
  intros [Hlo Hhi]. unfold mag2. symmetry. apply Int_part_spec.
  pose proof ln_2_pos as H2. pose proof (powerRZ_2_pos e) as He.
  assert (Hx : 0 < Rabs x) by lra.
  assert (H1 : IZR e * ln 2 <= ln (Rabs x)).
  { rewrite <- ln_powerRZ_2. destruct Hlo as [Hlo | Hlo].
    - left. now apply ln_increasing.
    - right. now rewrite Hlo. }
  assert (H3 : ln (Rabs x) < (IZR e + 1) * ln 2).
  { rewrite <- plus_IZR, <- ln_powerRZ_2. now apply ln_increasing. }
  split.
  - apply Rmult_lt_reg_r with (ln 2); [exact H2|].
    unfold Rdiv. rewrite Rmult_minus_distr_r, Rmult_assoc, Rinv_l by lra. lra.
  - apply Rmult_le_reg_r with (ln 2); [exact H2|].
    unfold Rdiv. rewrite Rmult_assoc, Rinv_l by lra. lra.
Qed.

Lemma mag2_spec (x : R) :
  x <> 0 -> powerRZ 2 (mag2 x) <= Rabs x < powerRZ 2 (mag2 x + 1).
Proof.
  intros Hx. pose proof ln_2_pos as H2.
  assert (Hpos : 0 < Rabs x) by now apply Rabs_pos_lt.
  destruct (base_Int_part (ln (Rabs x) / ln 2)) as [Hlo Hhi].
  fold (mag2 x) in Hlo, Hhi.
  assert (H1 : IZR (mag2 x) * ln 2 <= ln (Rabs x)).
  { apply Rmult_le_compat_r with (r := ln 2) in Hlo; [|lra].
    unfold Rdiv in Hlo. rewrite Rmult_assoc, Rinv_l, Rmult_1_r in Hlo by lra. exact Hlo. }
  assert (H3 : ln (Rabs x) < (IZR (mag2 x) + 1) * ln 2).
  { assert (H : ln (Rabs x) / ln 2 < IZR (mag2 x) + 1) by lra.
    apply Rmult_lt_compat_r with (r := ln 2) in H; [|lra].
    unfold Rdiv in H. rewrite Rmult_assoc, Rinv_l, Rmult_1_r in H by lra. exact H. }
  rewrite <- (exp_ln (Rabs x)) at 1 2 by exact Hpos.
  rewrite !powerRZ_Rpower by lra. unfold Rpower. rewrite plus_IZR.
  split.
  - destruct H1 as [H1 | H1]; [left; now apply exp_increasing | right; now rewrite H1].
  - now apply exp_increasing.
Qed.

Lemma powerRZ_2_ge_1 (n : Z) : (0 <= n)%Z -> 1 <= powerRZ 2 n.
Proof.
  intros Hn. rewrite <- (Z2Nat.id n Hn), <- pow_powerRZ.
  apply pow_R1_Rle. lra.
Qed.

Lemma powerRZ_2_le (a b : Z) : (a <= b)%Z -> powerRZ 2 a <= powerRZ 2 b.
Proof.
  intros Hab. replace b with (a + (b - a))%Z by lia.
  rewrite powerRZ_add by lra.
  pose proof (powerRZ_2_pos a). pose proof (powerRZ_2_ge_1 (b - a) ltac:(lia)).
  rewrite <- (Rmult_1_r (powerRZ 2 a)) at 1.
  apply Rmult_le_compat_l; lra.
Qed.

Lemma powerRZ_2_cancel (e : Z) : powerRZ 2 (- e) * powerRZ 2 e = 1.
Proof. rewrite <- powerRZ_add by lra. now rewrite Z.add_opp_diag_l. Qed.

Lemma float32_0 : float32 0 = 0.
Proof.
  unfold float32. rewrite Rmult_0_l.
  replace (np_around 0) with 0%Z; [ring|].
  symmetry. apply np_around_unique. rewrite Rminus_diag, Rabs_R0. lra.
Qed.

(** The rounding error is at most half a quantum. *)
Lemma float32_half_quantum (x : R) :
  Rabs (float32 x - x) <= powerRZ 2 (float32_quantum x) / 2.
Proof.
  unfold float32. set (q := float32_quantum x).
  pose proof (powerRZ_2_pos q) as Hq.
  pose proof (np_around_near (x * powerRZ 2 (- q))) as Hn.
  replace (IZR (np_around (x * powerRZ 2 (- q))) * powerRZ 2 q - x)
    with ((IZR (np_around (x * powerRZ 2 (- q))) - x * powerRZ 2 (- q)) * powerRZ 2 q).
  - rewrite Rabs_mult, (Rabs_right (powerRZ 2 q)) by lra.
    apply Rmult_le_compat_r with (r := powerRZ 2 q) in Hn; lra.
  - rewrite Rmult_minus_distr_r, Rmult_assoc, powerRZ_2_cancel. ring.
Qed.

Lemma float32_min_normal_pos : 0 < float32_min_normal.
Proof. apply powerRZ_2_pos. Qed.

Lemma normal_quantum (x : R) :
  float32_min_normal <= Rabs x -> float32_quantum x = (mag2 x - 23)%Z.
Proof.
  intros Hx. pose proof float32_min_normal_pos as Hm.
  assert (Hne : x <> 0) by (intros ->; rewrite Rabs_R0 in Hx; lra).
  destruct (mag2_spec x Hne) as [_ Hhi].
  unfold float32_quantum. apply Z.max_l.
  destruct (Z_le_gt_dec (-126) (mag2 x)) as [H | H]; [lia|].
  exfalso. pose proof (powerRZ_2_le (mag2 x + 1) (-126) ltac:(lia)) as Hle.
  unfold float32_min_normal in Hx. lra.
Qed.

(** A value in the normal range is stored with a relative error of at most
    2^-24. *)
Lemma float32_error (x : R) :
  float32_normal x -> Rabs (float32 x - x) <= float32_unit_roundoff * Rabs x.
Proof.
  intros [-> | [Hlo _]].
  - rewrite float32_0, Rminus_diag, Rabs_R0. lra.
  - pose proof float32_min_normal_pos as Hm.
    assert (Hne : x <> 0) by (intros ->; rewrite Rabs_R0 in Hlo; lra).
    destruct (mag2_spec x Hne) as [Hmag _].
    eapply Rle_trans; [apply float32_half_quantum|].
    rewrite (normal_quantum x Hlo).
    replace (mag2 x - 23)%Z with (mag2 x + (-23))%Z by lia.
    rewrite powerRZ_add by lra. unfold float32_unit_roundoff.
    replace (powerRZ 2 (-23)) with (2 * powerRZ 2 (-24)).
    + pose proof (powerRZ_2_pos (-24)) as H24.
      apply Rmult_le_compat_r with (r := powerRZ 2 (-24)) in Hmag; lra.
    + replace (-23)%Z with (1 + (-24))%Z by lia. rewrite powerRZ_add by lra.
      simpl. lra.
Qed.

(** How a value is stored, from its binade and its rounded significand. *)
Lemma float32_eval (x : R) (e m : Z) :
  (-126 <= e)%Z ->
  powerRZ 2 e <= Rabs x < powerRZ 2 (e + 1) ->
  Rabs (x * powerRZ 2 (- (e - 23)) - IZR m) < 1 / 2 ->
  float32 x = IZR m * powerRZ 2 (e - 23).
Proof.
  intros He Hx Hm. unfold float32, float32_quantum.
  rewrite (mag2_unique x e Hx). rewrite Z.max_l by lia.
  now rewrite (np_around_unique _ m Hm).
Qed.

Lemma powerRZ_2_pos_eq (p : positive) : powerRZ 2 (Z.pos p) = IZR (Z.pow_pos 2 p).
Proof. now rewrite Zpower_pos_powerRZ. Qed.

Lemma powerRZ_2_neg_eq (p : positive) : powerRZ 2 (Z.neg p) = / IZR (Z.pow_pos 2 p).
Proof. rewrite <- powerRZ_2_pos_eq. change (Z.neg p) with (- Z.pos p)%Z. apply powerRZ_neg'. Qed.

Ltac eval_powerRZ :=
  repeat match goal with
  | |- context [powerRZ 2 ?e] =>
      let v := eval vm_compute in e in
      change (powerRZ 2 e) with (powerRZ 2 v);
      lazymatch v with
      | Z.pos ?p =>
          let w := eval vm_compute in (Z.pow_pos 2 p) in
          rewrite (powerRZ_2_pos_eq p); change (Z.pow_pos 2 p) with w
      | Z.neg ?p =>
          let w := eval vm_compute in (Z.pow_pos 2 p) in
          rewrite (powerRZ_2_neg_eq p); change (Z.pow_pos 2 p) with w
      | Z0 => rewrite powerRZ_O
      end
  end.

Lemma float32_1 : float32 1 = 1.
Proof.
  rewrite (float32_eval 1 0 8388608); [| lia | |].
  - eval_powerRZ. lra.
  - rewrite Rabs_R1. eval_powerRZ. lra.
  - eval_powerRZ. apply Rabs_def1; lra.
Qed.

Lemma float32_3 : float32 3 = 3.
Proof.
  rewrite (float32_eval 3 1 12582912); [| lia | |].
  - eval_powerRZ. lra.
  - rewrite Rabs_right by lra. eval_powerRZ. lra.
  - eval_powerRZ. apply Rabs_def1; lra.
Qed.

Lemma float32_third : float32 (1 / 3) = 11184811 / 33554432.
Proof.
  rewrite (float32_eval (1 / 3) (-2) 11184811); [| lia | |].
  - eval_powerRZ. lra.
  - rewrite Rabs_right by lra. eval_powerRZ. lra.
  - eval_powerRZ. apply Rabs_def1; lra.
Qed.

(** ** Products of stored values *)

Lemma unit_roundoff_value : float32_unit_roundoff = / 16777216.
Proof. unfold float32_unit_roundoff. simpl. lra. Qed.

Lemma close_abs (x' x : R) : float32_close x' x -> Rabs x' <= (1 + float32_unit_roundoff) * Rabs x.
Proof.
  unfold float32_close. intros H.
  replace x' with ((x' - x) + x) at 1 by ring.
  eapply Rle_trans; [apply Rabs_triang|]. lra.
Qed.

Lemma product_close (a' a l' l : R) :
  float32_close a' a -> float32_close l' l ->
  Rabs (a' * l' - a * l) <= eps2 * (Rabs a * Rabs l).
Proof.
  unfold float32_close, eps2. rewrite unit_roundoff_value. intros Ha Hl.
  replace (a' * l' - a * l)
    with ((a' - a) * l + a * (l' - l) + (a' - a) * (l' - l)) by ring.
  eapply Rle_trans; [apply Rabs_triang|].
  eapply Rle_trans; [apply Rplus_le_compat_r, Rabs_triang|].
  rewrite !Rabs_mult.
  pose proof (Rabs_pos a) as Pa. pose proof (Rabs_pos l) as Pl.
  pose proof (Rabs_pos (a' - a)) as Pa'. pose proof (Rabs_pos (l' - l)) as Pl'.
  assert (H1 : Rabs (a' - a) * Rabs l <= / 16777216 * Rabs a * Rabs l)
    by (apply Rmult_le_compat_r; lra).
  assert (H2 : Rabs a * Rabs (l' - l) <= Rabs a * (/ 16777216 * Rabs l))
    by (apply Rmult_le_compat_l; lra).
  assert (H3 : Rabs (a' - a) * Rabs (l' - l)
               <= (/ 16777216 * Rabs a) * (/ 16777216 * Rabs l))
    by (apply Rmult_le_compat; lra).
  lra.
Qed.

Lemma float32_vec_stored (v : vec3) : vec_normal v -> float32_vec_close_to (float32_vec v) v.
Proof.
  intros (Hx & Hy & Hz). unfold float32_vec_close_to, float32_close. simpl.
  repeat split; now apply float32_error.
Qed.

Lemma abs_dot_nonneg (a b : vec3) : 0 <= abs_dot a b.
Proof.
  unfold abs_dot.
  pose proof (Rabs_pos (vx a)). pose proof (Rabs_pos (vx b)).
  pose proof (Rabs_pos (vy a)). pose proof (Rabs_pos (vy b)).
  pose proof (Rabs_pos (vz a)). pose proof (Rabs_pos (vz b)).
  repeat apply Rplus_le_le_0_compat; apply Rmult_le_pos; assumption.
Qed.

Lemma dot_close (a' a l' l : vec3) :
  float32_vec_close_to a' a -> float32_vec_close_to l' l ->
  Rabs (dot a' l' - dot a l) <= eps2 * abs_dot a l.
Proof.
  intros (Ha1 & Ha2 & Ha3) (Hl1 & Hl2 & Hl3). unfold dot, abs_dot.
  pose proof (product_close _ _ _ _ Ha1 Hl1) as H1.
  pose proof (product_close _ _ _ _ Ha2 Hl2) as H2.
  pose proof (product_close _ _ _ _ Ha3 Hl3) as H3.
  replace (vx a' * vx l' + vy a' * vy l' + vz a' * vz l'
           - (vx a * vx l + vy a * vy l + vz a * vz l))
    with ((vx a' * vx l' - vx a * vx l) + (vy a' * vy l' - vy a * vy l)
          + (vz a' * vz l' - vz a * vz l)) by ring.
  eapply Rle_trans; [apply Rabs_triang|].
  eapply Rle_trans; [apply Rplus_le_compat_r, Rabs_triang|].
  lra.
Qed.

Lemma abs_product_le (a b : R) : Rabs a * Rabs b <= (a * a + b * b) / 2.
Proof.
  rewrite <- Rabs_mult. apply Rabs_le.
  pose proof (Rle_0_sqr (a - b)) as H1. pose proof (Rle_0_sqr (a + b)) as H2.
  unfold Rsqr in *. lra.
Qed.

Lemma abs_dot_unit (a b : vec3) : dot a a = 1 -> dot b b = 1 -> abs_dot a b <= 1.
Proof.
  unfold dot, abs_dot. intros Ha Hb.
  pose proof (abs_product_le (vx a) (vx b)). pose proof (abs_product_le (vy a) (vy b)).
  pose proof (abs_product_le (vz a) (vz b)). lra.
Qed.

Lemma abs_le_1_of_square (a rest : R) : a * a + rest = 1 -> 0 <= rest -> Rabs a <= 1.
Proof.
  intros H Hr. apply Rabs_le.
  pose proof (Rle_0_sqr (a - 1)) as H1. pose proof (Rle_0_sqr (a + 1)) as H2.
  unfold Rsqr in *.
  split.
  - destruct (Rle_or_lt (-1) a) as [|Hlt]; [assumption|]. exfalso.
    assert (0 < (- a - 1) * (- a + 1)) by (apply Rmult_lt_0_compat; lra). lra.
  - destruct (Rle_or_lt a 1) as [|Hlt]; [assumption|]. exfalso.
    assert (0 < (a - 1) * (a + 1)) by (apply Rmult_lt_0_compat; lra). lra.
Qed.

Lemma unit_components (a : vec3) :
  dot a a = 1 -> Rabs (vx a) <= 1 /\ Rabs (vy a) <= 1 /\ Rabs (vz a) <= 1.
Proof.
  unfold dot. intros H.
  pose proof (Rle_0_sqr (vx a)) as Hx. pose proof (Rle_0_sqr (vy a)) as Hy.
  pose proof (Rle_0_sqr (vz a)) as Hz. unfold Rsqr in *.
  repeat split.
  - apply (abs_le_1_of_square _ (vy a * vy a + vz a * vz a)); lra.
  - apply (abs_le_1_of_square _ (vx a * vx a + vz a * vz a)); lra.
  - apply (abs_le_1_of_square _ (vx a * vx a + vy a * vy a)); lra.
Qed.

(** [|scale a k| . |vdiv x s|] componentwise *)
Lemma abs_dot_scale_vdiv (a x : vec3) (k s : R) :
  s <> 0 -> abs_dot (scale a k) (vdiv x s) = Rabs k / Rabs s * abs_dot a x.
Proof.
  intros Hs. unfold abs_dot, scale, vdiv, Rdiv. simpl.
  rewrite !Rabs_mult, Rabs_inv.
  assert (Rabs s <> 0) by now apply Rabs_no_R0.
  field. assumption.
Qed.

Lemma dot_scale_vdiv (a x : vec3) (k s : R) :
  s <> 0 -> dot (scale a k) (vdiv x s) = k / s * dot a x.
Proof. intros Hs. unfold dot, scale, vdiv. simpl. field. exact Hs. Qed.

Lemma round_trip_row (x r c n o p : vec3) (s rs cs ss : R) :
  dot x x = 1 -> dot r r = 1 -> dot c c = 1 -> dot n n = 1 -> s <> 0 ->
  vec_normal (scale r rs) -> vec_normal (scale c cs) -> vec_normal (scale n ss) ->
  vec_normal o -> vec_normal (vdiv x s) ->
  let L := float32_vec (vdiv x s) in
  let d := vx o * - vx L + vy o * - vy L + vz o * - vz L in
  float32_normal d ->
  let A := float32_vec (scale r rs) in
  let B := float32_vec (scale c cs) in
  let C := float32_vec (scale n ss) in
  let T := float32_vec o in
  let q := V3 (vx p * vx A + vy p * vx B + vz p * vx C + 1 * vx T)
              (vx p * vy A + vy p * vy B + vz p * vy C + 1 * vy T)
              (vx p * vz A + vy p * vz B + vz p * vz C + 1 * vz T) in
  Rabs (vx q * vx L + vy q * vy L + vz q * vz L + 1 * float32 d
        - (vx p * (rs / s * dot r x) + vy p * (cs / s * dot c x)
           + vz p * (ss / s * dot n x)))
  <= float32_round_trip_error
     * (Rabs rs * Rabs (vx p) + Rabs cs * Rabs (vy p) + Rabs ss * Rabs (vz p)
        + norm1 o) / Rabs s.
Proof.
  intros Hx Hr Hc Hn Hs NA NB NC NT NL L d Nd A B C T q.
  assert (Hs' : 0 < Rabs s) by now apply Rabs_pos_lt.
  assert (HW : 0 < / Rabs s) by now apply Rinv_0_lt_compat.
  pose proof (float32_vec_stored _ NL) as CL. fold L in CL.
  (* the three products of a column with the row *)
  assert (col : forall a k, dot a a = 1 -> vec_normal (scale a k) ->
            Rabs (dot (float32_vec (scale a k)) L - k / s * dot a x)
            <= eps2 * (Rabs k * / Rabs s)).
  { intros a k Ha Na. rewrite <- (dot_scale_vdiv a x k s Hs).
    eapply Rle_trans; [apply (dot_close _ _ _ _ (float32_vec_stored _ Na) CL)|].
    rewrite (abs_dot_scale_vdiv a x k s Hs).
    pose proof (abs_dot_unit a x Ha Hx) as H1. pose proof (abs_dot_nonneg a x) as H0.
    assert (He : 0 <= eps2) by (unfold eps2; rewrite unit_roundoff_value; lra).
    assert (Hk : 0 <= Rabs k / Rabs s)
      by (apply Rmult_le_pos; [apply Rabs_pos | lra]).
    apply Rmult_le_compat_l; [exact He|].
    rewrite <- (Rmult_1_r (Rabs k * / Rabs s)).
    apply Rmult_le_compat_l; [exact Hk | exact H1]. }
  pose proof (col r rs Hr NA) as EA. fold A in EA.
  pose proof (col c cs Hc NB) as EB. fold B in EB.
  pose proof (col n ss Hn NC) as EC. fold C in EC.
  (* the entries of the row are at most (1 + u) / |s| *)
  destruct (unit_components x Hx) as (X1 & X2 & X3).
  destruct CL as (L1 & L2 & L3).
  apply close_abs in L1, L2, L3. simpl in L1, L2, L3.
  unfold Rdiv in L1, L2, L3. rewrite Rabs_mult, Rabs_inv in L1, L2, L3.
  assert (B1 : Rabs (vx L) <= (1 + float32_unit_roundoff) * / Rabs s).
  { eapply Rle_trans; [exact L1|]. apply Rmult_le_compat_l;
      [rewrite unit_roundoff_value; lra|].
    rewrite <- (Rmult_1_l (/ Rabs s)) at 2. apply Rmult_le_compat_r; lra. }
  assert (B2 : Rabs (vy L) <= (1 + float32_unit_roundoff) * / Rabs s).
  { eapply Rle_trans; [exact L2|]. apply Rmult_le_compat_l;
      [rewrite unit_roundoff_value; lra|].
    rewrite <- (Rmult_1_l (/ Rabs s)) at 2. apply Rmult_le_compat_r; lra. }
  assert (B3 : Rabs (vz L) <= (1 + float32_unit_roundoff) * / Rabs s).
  { eapply Rle_trans; [exact L3|]. apply Rmult_le_compat_l;
      [rewrite unit_roundoff_value; lra|].
    rewrite <- (Rmult_1_l (/ Rabs s)) at 2. apply Rmult_le_compat_r; lra. }
  (* a sum of offsets times row entries *)
  assert (sum3 : forall t1 t2 t3 b1 b2 b3,
            Rabs t1 <= b1 -> Rabs t2 <= b2 -> Rabs t3 <= b3 ->
            Rabs (t1 * vx L + t2 * vy L + t3 * vz L)
            <= (b1 + b2 + b3) * ((1 + float32_unit_roundoff) * / Rabs s)).
  { intros t1 t2 t3 b1 b2 b3 H1 H2 H3.
    eapply Rle_trans; [apply Rabs_triang|].
    eapply Rle_trans; [apply Rplus_le_compat_r, Rabs_triang|].
    rewrite !Rabs_mult.
    pose proof (Rabs_pos t1). pose proof (Rabs_pos t2). pose proof (Rabs_pos t3).
    pose proof (Rabs_pos (vx L)). pose proof (Rabs_pos (vy L)). pose proof (Rabs_pos (vz L)).
    assert (Rabs t1 * Rabs (vx L) <= b1 * ((1 + float32_unit_roundoff) * / Rabs s))
      by (apply Rmult_le_compat; assumption).
    assert (Rabs t2 * Rabs (vy L) <= b2 * ((1 + float32_unit_roundoff) * / Rabs s))
      by (apply Rmult_le_compat; assumption).
    assert (Rabs t3 * Rabs (vz L) <= b3 * ((1 + float32_unit_roundoff) * / Rabs s))
      by (apply Rmult_le_compat; assumption).
    lra. }
  (* the stored offset against the offset *)
  destruct (float32_vec_stored _ NT) as (T1 & T2 & T3). fold T in T1, T2, T3.
  unfold float32_close in T1, T2, T3.
  pose proof (sum3 _ _ _ _ _ _ T1 T2 T3) as ET.
  (* the stored last column *)
  pose proof (float32_error d Nd) as Ed.
  assert (Hd : Rabs d <= norm1 o * ((1 + float32_unit_roundoff) * / Rabs s)).
  { replace d with (- (vx o * vx L + vy o * vy L + vz o * vz L)) by (unfold d; ring).
    rewrite Rabs_Ropp. apply sum3; apply Rle_refl. }
  (* together *)
  replace (vx q * vx L + vy q * vy L + vz q * vz L + 1 * float32 d
           - (vx p * (rs / s * dot r x) + vy p * (cs / s * dot c x)
              + vz p * (ss / s * dot n x)))
    with (vx p * (dot A L - rs / s * dot r x)
          + vy p * (dot B L - cs / s * dot c x)
          + vz p * (dot C L - ss / s * dot n x)
          + ((vx T - vx o) * vx L + (vy T - vy o) * vy L + (vz T - vz o) * vz L)
          + (float32 d - d))
    by (unfold q, d, dot; simpl; ring).
  eapply Rle_trans; [apply Rabs_triang|].
  eapply Rle_trans; [apply Rplus_le_compat_r, Rabs_triang|].
  eapply Rle_trans; [apply Rplus_le_compat_r, Rplus_le_compat_r, Rabs_triang|].
  eapply Rle_trans;
    [apply Rplus_le_compat_r, Rplus_le_compat_r, Rplus_le_compat_r, Rabs_triang|].
  rewrite !Rabs_mult.
  pose proof (Rabs_pos (vx p)) as P1. pose proof (Rabs_pos (vy p)) as P2.
  pose proof (Rabs_pos (vz p)) as P3.
  pose proof (Rabs_pos rs) as Q1. pose proof (Rabs_pos cs) as Q2.
  pose proof (Rabs_pos ss) as Q3.
  assert (O : 0 <= norm1 o).
  { unfold norm1. pose proof (Rabs_pos (vx o)). pose proof (Rabs_pos (vy o)).
    pose proof (Rabs_pos (vz o)). lra. }
  assert (F1 : Rabs (vx p) * Rabs (dot A L - rs / s * dot r x)
               <= Rabs (vx p) * (eps2 * (Rabs rs * / Rabs s)))
    by (apply Rmult_le_compat_l; assumption).
  assert (F2 : Rabs (vy p) * Rabs (dot B L - cs / s * dot c x)
               <= Rabs (vy p) * (eps2 * (Rabs cs * / Rabs s)))
    by (apply Rmult_le_compat_l; assumption).
  assert (F3 : Rabs (vz p) * Rabs (dot C L - ss / s * dot n x)
               <= Rabs (vz p) * (eps2 * (Rabs ss * / Rabs s)))
    by (apply Rmult_le_compat_l; assumption).
  assert (F5 : Rabs (float32 d - d)
               <= float32_unit_roundoff
                  * (norm1 o * ((1 + float32_unit_roundoff) * / Rabs s))).
  { eapply Rle_trans; [exact Ed|]. apply Rmult_le_compat_l;
      [rewrite unit_roundoff_value; lra | exact Hd]. }
  fold (norm1 o) in ET.
  assert (G1 : 0 <= Rabs (vx p) * Rabs rs * / Rabs s)
    by (repeat apply Rmult_le_pos; lra).
  assert (G2 : 0 <= Rabs (vy p) * Rabs cs * / Rabs s)
    by (repeat apply Rmult_le_pos; lra).
  assert (G3 : 0 <= Rabs (vz p) * Rabs ss * / Rabs s)
    by (repeat apply Rmult_le_pos; lra).
  unfold norm1 in *.
  assert (G4 : 0 <= Rabs (vx o) * / Rabs s)
    by (apply Rmult_le_pos; [apply Rabs_pos | lra]).
  assert (G5 : 0 <= Rabs (vy o) * / Rabs s)
    by (apply Rmult_le_pos; [apply Rabs_pos | lra]).
  assert (G6 : 0 <= Rabs (vz o) * / Rabs s)
    by (apply Rmult_le_pos; [apply Rabs_pos | lra]).
  unfold float32_round_trip_error, eps2, Rdiv in *.
  rewrite unit_roundoff_value in *.
  clear - F1 F2 F3 F5 ET G1 G2 G3 G4 G5 G6.
  lra.
Qed.

(** ** Transform builder *)

(** In exact arithmetic the patient-to-pixel matrix undoes the
    pixel-to-patient matrix. *)
Lemma round_trip_exact (r c o p : vec3) (rs cs ss : R) :
  dot r r = 1 -> dot c c = 1 -> dot r c = 0 ->
  rs <> 0 -> cs <> 0 -> ss <> 0 ->
  let F := set_col3 (set_col3 (set_col3 (set_col3 identity 0 (scale r rs))
                                        1 (scale c cs))
                              2 (scale (cross r c) ss))
                    3 o in
  let linear := set_row3 (set_row3 (set_row3 identity 0 (vdiv r rs))
                                   1 (vdiv c cs))
                         2 (vdiv (cross r c) ss) in
  let I := set_col3 (set_block3 identity linear) 3 (dot_neg_transpose o linear) in
  transform_point I (transform_point F p) = p.
Proof.
  intros Hr Hc Hrc Hrs Hcs Hss F I0 I.
  pose proof (cross_dot_cross r c) as Hn. rewrite Hr, Hc, Hrc in Hn.
  destruct r as [r1 r2 r3], c as [c1 c2 c3], o as [o1 o2 o3], p as [p1 p2 p3].
  unfold dot, cross in *. simpl in *.
  unfold transform_point, I, I0, F, set_col3, set_row3, set_block3, identity,
    dot_neg_transpose, scale, vdiv, cross, coord. simpl.
  f_equal.
  - transitivity (p1 * (r1 * r1 + r2 * r2 + r3 * r3)
                  + cs / rs * p2 * (r1 * c1 + r2 * c2 + r3 * c3)).
    + field. exact Hrs.
    + rewrite Hr, Hrc. ring.
  - transitivity (p2 * (c1 * c1 + c2 * c2 + c3 * c3)
                  + rs / cs * p1 * (r1 * c1 + r2 * c2 + r3 * c3)).
    + field. exact Hcs.
    + rewrite Hc, Hrc. ring.
  - transitivity (p3 * ((r2 * c3 - r3 * c2) * (r2 * c3 - r3 * c2)
                        + (r3 * c1 - r1 * c3) * (r3 * c1 - r1 * c3)
                        + (r1 * c2 - r2 * c1) * (r1 * c2 - r2 * c1))).
    + field. exact Hss.
    + rewrite Hn. ring.
Qed.

(** What the two builders with float32 storage return for a series whose
    reference slice passes the orientation test. *)
Lemma float32_builders (series_data : list Dataset) (s0 : Dataset) (slice_spacing : R) :
  first_of series_data = Ok s0 ->
  ~ slice_rejected s0 ->
  get_spacing_between_slices series_data = Ok slice_spacing ->
  let r := fst (ImageOrientationPatient s0) in
  let c := snd (ImageOrientationPatient s0) in
  let o := ImagePositionPatient s0 in
  let rs := fst (PixelSpacing s0) in
  let cs := snd (PixelSpacing s0) in
  let linear := set_row3 (set_row3 (set_row3 identity 0 (float32_vec (vdiv r rs)))
                                   1 (float32_vec (vdiv c cs)))
                         2 (float32_vec (vdiv (cross r c) slice_spacing)) in
  get_pixel_to_patient_transformation_matrix_float32 series_data =
    Ok (set_col3 (set_col3 (set_col3 (set_col3 identity
          0 (float32_vec (scale r rs)))
          1 (float32_vec (scale c cs)))
          2 (float32_vec (scale (cross r c) slice_spacing)))
          3 (float32_vec o)) /\
  get_patient_to_pixel_transformation_matrix_float32 series_data =
    Ok (set_col3 (set_block3 identity linear) 3
          (float32_vec (dot_neg_transpose o linear))).
Proof.
  intros Hfirst Hacc Hspacing r c o rs cs linear.
  unfold get_pixel_to_patient_transformation_matrix_float32,
    get_patient_to_pixel_transformation_matrix_float32.
  rewrite Hfirst, Hspacing. run_result.
  rewrite (get_slice_directions_accepted _ Hacc).
  subst r c o rs cs linear. destruct (PixelSpacing s0) as [rs cs].
  split; reflexivity.
Qed.

Lemma cross_orthogonal (r c : vec3) :
  dot (cross r c) r = 0 /\ dot (cross r c) c = 0.
Proof. unfold dot, cross. simpl. split; ring. Qed.

Lemma dot_comm (a b : vec3) : dot a b = dot b a.
Proof. unfold dot. ring. Qed.

(** One point through the two stored matrices. *)
Lemma float32_round_trip_point (s0 : Dataset) (slice_spacing : R) (p : vec3) :
  orthonormal s0 ->
  0 < fst (PixelSpacing s0) -> 0 < snd (PixelSpacing s0) -> slice_spacing <> 0 ->
  float32_storable s0 slice_spacing ->
  let r := fst (ImageOrientationPatient s0) in
  let c := snd (ImageOrientationPatient s0) in
  let o := ImagePositionPatient s0 in
  let rs := fst (PixelSpacing s0) in
  let cs := snd (PixelSpacing s0) in
  let linear := set_row3 (set_row3 (set_row3 identity 0 (float32_vec (vdiv r rs)))
                                   1 (float32_vec (vdiv c cs)))
                         2 (float32_vec (vdiv (cross r c) slice_spacing)) in
  let F := set_col3 (set_col3 (set_col3 (set_col3 identity
             0 (float32_vec (scale r rs)))
             1 (float32_vec (scale c cs)))
             2 (float32_vec (scale (cross r c) slice_spacing)))
             3 (float32_vec o) in
  let I := set_col3 (set_block3 identity linear) 3
             (float32_vec (dot_neg_transpose o linear)) in
  let q := transform_point I (transform_point F p) in
  let bound := float32_round_trip_error * physical_extent s0 slice_spacing p in
  Rabs (vx q - vx p) <= bound / rs /\
  Rabs (vy q - vy p) <= bound / cs /\
  Rabs (vz q - vz p) <= bound / Rabs slice_spacing.
Proof.
  intros (Hr & Hc & Hrc) Hrs Hcs Hss
    (NA & NB & NC & NT & NL0 & NL1 & NL2 & ND0 & ND1 & ND2)
    r c o rs cs linear F I q bound.
  fold r c o rs cs in Hr, Hc, Hrc, Hrs, Hcs, NA, NB, NC, NT, NL0, NL1, NL2.
  pose proof (cross_dot_cross r c) as Hn. rewrite Hr, Hc, Hrc in Hn.
  replace (1 * 1 - 0 * 0) with 1 in Hn by ring.
  destruct (cross_orthogonal r c) as [Hnr Hnc].
  assert (Hcr : dot c r = 0) by (rewrite dot_comm; exact Hrc).
  assert (Hrn : dot r (cross r c) = 0) by (rewrite dot_comm; exact Hnr).
  assert (Hcn : dot c (cross r c) = 0) by (rewrite dot_comm; exact Hnc).
  assert (Hext : bound =
            float32_round_trip_error
            * (Rabs rs * Rabs (vx p) + Rabs cs * Rabs (vy p)
               + Rabs slice_spacing * Rabs (vz p) + norm1 o))
    by reflexivity.
  rewrite Hext.
  assert (Ers : Rabs rs = rs) by (apply Rabs_right; lra).
  assert (Ecs : Rabs cs = cs) by (apply Rabs_right; lra).
  split; [|split].
  - pose proof (round_trip_row r r c (cross r c) o p rs rs cs slice_spacing
                  Hr Hr Hc Hn ltac:(lra) NA NB NC NT NL0 ND0) as H.
    cbv zeta in H. rewrite Hr, Hcr, Hnr in H. rewrite Ers in H |- *.
    eapply Rle_trans; [|exact H]. right. f_equal.
    unfold q, I, F, linear, transform_point, set_col3, set_row3, set_block3,
      identity, dot_neg_transpose, float32_vec, coord. simpl. field. lra.
  - pose proof (round_trip_row c r c (cross r c) o p cs rs cs slice_spacing
                  Hc Hr Hc Hn ltac:(lra) NA NB NC NT NL1 ND1) as H.
    cbv zeta in H. rewrite Hrc, Hc, Hnc in H. rewrite Ecs in H |- *.
    eapply Rle_trans; [|exact H]. right. f_equal.
    unfold q, I, F, linear, transform_point, set_col3, set_row3, set_block3,
      identity, dot_neg_transpose, float32_vec, coord. simpl. field. lra.
  - pose proof (round_trip_row (cross r c) r c (cross r c) o p slice_spacing
                  rs cs slice_spacing
                  Hn Hr Hc Hn Hss NA NB NC NT NL2 ND2) as H.
    cbv zeta in H. rewrite Hrn, Hcn, Hn in H.
    eapply Rle_trans; [|exact H]. right. f_equal.
    unfold q, I, F, linear, transform_point, set_col3, set_row3, set_block3,
      identity, dot_neg_transpose, float32_vec, coord. simpl. field. lra.
Qed.

(** C2 (as amended).  For a series whose reference slice has orthonormal
    directions and positive pixel spacings, whose spacing between slices is
    not zero and whose matrix entries are zero or in the normal range of
    float32, mapping a point [p] with the pixel-to-patient matrix and then
    with the patient-to-pixel matrix, both as they are stored in float32
    (and both through [apply_transformation_to_3d_points]), gives [p] back
    up to [1.2e-7 * extent / spacing] in each coordinate, where [spacing] is
    the spacing of that coordinate's axis and [extent] is
    [row_spacing * |p_x| + column_spacing * |p_y| + |slice_spacing| * |p_z|]
    plus the absolute coordinates of the reference position.  In particular
    the point comes back within 1e-4 in each coordinate when
    [1.2e-7 * extent] is at most 1e-4 times the smallest spacing. *)
Theorem transformation_round_trip_float32
    (series_data : list Dataset) (s0 : Dataset) (slice_spacing : R) (p : vec3)
    (Hfirst : first_of series_data = Ok s0)
    (Horth : orthonormal s0)
    (Hrow : 0 < fst (PixelSpacing s0))
    (Hcol : 0 < snd (PixelSpacing s0))
    (Hspacing : get_spacing_between_slices series_data = Ok slice_spacing)
    (Hnonzero : slice_spacing <> 0)
    (Hstored : float32_storable s0 slice_spacing) :
  exists F I q,
    get_pixel_to_patient_transformation_matrix_float32 series_data = Ok F /\
    get_patient_to_pixel_transformation_matrix_float32 series_data = Ok I /\
    apply_transformation_to_3d_points (apply_transformation_to_3d_points [p] F) I = [q] /\
    let bound := float32_round_trip_error * physical_extent s0 slice_spacing p in
    Rabs (vx q - vx p) <= bound / fst (PixelSpacing s0) /\
    Rabs (vy q - vy p) <= bound / snd (PixelSpacing s0) /\
    Rabs (vz q - vz p) <= bound / Rabs slice_spacing /\
    (bound <= 1 / 10000 * fst (PixelSpacing s0) ->
     bound <= 1 / 10000 * snd (PixelSpacing s0) ->
     bound <= 1 / 10000 * Rabs slice_spacing ->
     within_tolerance (1 / 10000) q p).
Proof.
  destruct (float32_builders series_data s0 slice_spacing Hfirst
              (orthonormal_not_rejected _ Horth) Hspacing) as [HF HI].
  do 3 eexists. split; [exact HF|]. split; [exact HI|]. split; [reflexivity|].
  destruct (float32_round_trip_point s0 slice_spacing p Horth Hrow Hcol Hnonzero Hstored)
    as (Hx & Hy & Hz).
  cbv zeta. split; [exact Hx|]. split; [exact Hy|]. split; [exact Hz|].
  intros Brow Bcol Bslice.
  assert (Hss : 0 < Rabs slice_spacing) by now apply Rabs_pos_lt.
  assert (Hdiv : forall b s, 0 < s -> b <= 1 / 10000 * s -> b / s <= 1 / 10000).
  { intros b s Hs Hb. apply Rmult_le_reg_r with s; [exact Hs|].
    unfold Rdiv at 1. rewrite Rmult_assoc, Rinv_l by lra. lra. }
  unfold within_tolerance.
  split; [|split]; (eapply Rle_trans; [eassumption|]); now apply Hdiv.
Qed.

Lemma float32_normal_0 : float32_normal 0.
Proof. now left. Qed.

(** Values between 1/4 and 4 are in the normal range. *)
Lemma float32_normal_near_1 (x : R) : 1 / 4 <= x <= 4 -> float32_normal x.
Proof.
  intros Hx. right. rewrite Rabs_right by lra.
  unfold float32_min_normal, float32_max. eval_powerRZ. lra.
Qed.

Ltac normal_entry :=
  first [ left; lra | apply float32_normal_near_1; lra ].

Lemma two_slices_storable :
  float32_storable (axial_slice "a" 0)
    ((projection (axial_slice "b" 3) - projection (axial_slice "a" 0)) / INR 1).
Proof.
  unfold float32_storable, vec_normal, projection, slice_normal, dot, cross, scale,
    vdiv, dot_neg_transpose, float32_vec, set_row3, identity, coord.
  simpl. repeat split; normal_entry.
Qed.

Lemma transformation_round_trip_float32_witness :
  exists F I q,
    get_pixel_to_patient_transformation_matrix_float32 two_slices = Ok F /\
    get_patient_to_pixel_transformation_matrix_float32 two_slices = Ok I /\
    apply_transformation_to_3d_points
      (apply_transformation_to_3d_points [V3 2 1 1] F) I = [q] /\
    within_tolerance (1 / 10000) q (V3 2 1 1).
Proof.
  destruct (transformation_round_trip_float32
              two_slices (axial_slice "a" 0)
              ((projection (axial_slice "b" 3) - projection (axial_slice "a" 0)) / INR 1)
              (V3 2 1 1) eq_refl (axial_slice_orthonormal "a" 0))
    as (F & I & q & HF & HI & Hq & _ & _ & _ & Htol).
  - simpl. lra.
  - simpl. lra.
  - exact two_slices_spacing.
  - unfold projection, slice_normal, dot, cross. simpl. lra.
  - exact two_slices_storable.
  - exists F, I, q. split; [exact HF|]. split; [exact HI|]. split; [exact Hq|].
    apply Htol; unfold float32_round_trip_error, physical_extent, projection,
      slice_normal, dot, cross; simpl;
      rewrite ?Rabs_R0, ?Rabs_R1, ?(Rabs_right 2), ?(Rabs_right (_ / 1)) by lra; lra.
Defined.

Lemma float32_at (x y v : R) : x = y -> float32 y = v -> float32 x = v.
Proof. now intros ->. Qed.

Ltac eval_float32 :=
  repeat match goal with
  | |- context [float32 ?e] =>
      first [ rewrite (float32_at e 0 0 ltac:(lra) float32_0)
            | rewrite (float32_at e 1 1 ltac:(lra) float32_1)
            | rewrite (float32_at e 3 3 ltac:(lra) float32_3)
            | rewrite (float32_at e (1 / 3) _ ltac:(lra) float32_third) ]
  end.

(** The two stored matrices of [two_slices]: the spacing between slices is
    3, and 1/3 is stored as 11184811 / 2^25. *)
Lemma two_slices_float32_matrices :
  exists F I,
    get_pixel_to_patient_transformation_matrix_float32 two_slices = Ok F /\
    get_patient_to_pixel_transformation_matrix_float32 two_slices = Ok I /\
    (forall p, transform_point F p = V3 (vx p) (vy p) (3 * vz p)) /\
    (forall p, transform_point I p = V3 (vx p) (vy p) (11184811 / 33554432 * vz p)).
Proof.
  destruct (float32_builders two_slices (axial_slice "a" 0) _ eq_refl
              (orthonormal_not_rejected _ (axial_slice_orthonormal "a" 0))
              two_slices_spacing) as [HF HI].
  do 2 eexists. split; [exact HF|]. split; [exact HI|].
  split; intros p;
    unfold transform_point, set_col3, set_row3, set_block3, identity,
      dot_neg_transpose, float32_vec, scale, vdiv, cross, coord, projection,
      slice_normal, dot;
    simpl; eval_float32; f_equal; lra.
Qed.

(** C2, as stated, fails: [two_slices] has orthonormal directions and
    positive spacings, and the point (2, 1, 4000) comes back with the third
    coordinate 4000.000119, more than 1e-4 away. *)
Lemma transformation_round_trip_counterexample :
  orthonormal (axial_slice "a" 0) /\
  0 < fst (PixelSpacing (axial_slice "a" 0)) /\
  0 < snd (PixelSpacing (axial_slice "a" 0)) /\
  get_spacing_between_slices two_slices = Ok 3 /\
  exists F I q,
    get_pixel_to_patient_transformation_matrix_float32 two_slices = Ok F /\
    get_patient_to_pixel_transformation_matrix_float32 two_slices = Ok I /\
    apply_transformation_to_3d_points
      (apply_transformation_to_3d_points [V3 2 1 4000] F) I = [q] /\
    q = V3 2 1 (4000 + 4000 / 33554432) /\
    ~ within_tolerance (1 / 10000) q (V3 2 1 4000).
Proof.
  split; [apply axial_slice_orthonormal|].
  split; [simpl; lra|]. split; [simpl; lra|].
  split.
  { rewrite two_slices_spacing. f_equal.
    unfold projection, slice_normal, dot, cross. simpl. lra. }
  destruct two_slices_float32_matrices as (F & I & HF & HI & HFp & HIp).
  exists F, I, (V3 2 1 (4000 + 4000 / 33554432)).
  split; [exact HF|]. split; [exact HI|].
  split; [|split; [reflexivity|]].
  - simpl. rewrite HFp, HIp. simpl. do 2 f_equal. lra.
  - unfold within_tolerance. simpl. intros (_ & _ & Hz).
    apply Rabs_bounds in Hz. lra.
Qed.

(** With two slices at the same position the spacing between slices is zero
    and the pixel-to-patient matrix sends every slice index to the same
    plane: no patient-to-pixel map can return the index. *)
Lemma coincident_slices_collapse (F : matrix) :
  get_pixel_to_patient_transformation_matrix
    [axial_slice "a" 0; axial_slice "b" 0] = Ok F ->
  transform_point F (V3 0 0 5) = transform_point F (V3 0 0 0).
Proof.
  unfold get_pixel_to_patient_transformation_matrix. simpl first_of. run_result.
  rewrite (get_spacing_multi _ (axial_slice "a" 0) (axial_slice "b" 0));
    try reflexivity; try (simpl; lia);
    try (apply orthonormal_not_rejected, axial_slice_orthonormal).
  rewrite (get_slice_directions_accepted _
             (orthonormal_not_rejected _ (axial_slice_orthonormal "a" 0))).
  intros [= <-].
  unfold transform_point, set_col3, identity, scale, slice_normal, cross, coord,
    projection, dot. simpl.
  f_equal; field.
Qed.

(** ** Mask rasteriser *)

Section RasteriserFacts.

Variable polygon2mask : nat * nat -> polygon -> result array2.

Lemma collect_polygons_last (cs : list (list R)) (c : list R) (M : matrix)
    (polygons : list polygon) (polygon_var : option polygon) :
  Forall (fun d => (length d mod 3)%nat = 0%nat) (cs ++ [c]) ->
  exists polygons',
    collect_polygons (cs ++ [c]) M polygons polygon_var =
      Ok (polygons',
          Some (to_polygon (apply_transformation_to_3d_points (rows_of_3 c) M))).
Proof.
  revert polygons polygon_var.
  induction cs as [|d cs IH]; intros polygons polygon_var Hall; simpl.
  - apply Forall_inv in Hall. unfold reshape_3. rewrite Hall. simpl.
    eexists. reflexivity.
  - pose proof (Forall_inv Hall) as Hd. apply Forall_inv_tail in Hall.
    unfold reshape_3 at 1. rewrite Hd. simpl. apply IH, Hall.
Qed.

(** The mask of a slice is what the rasteriser gives for the polygon of its
    last contour alone, a fill or an exception; the polygons of the contours
    before it are collected and then left unused. *)
Lemma get_slice_mask_is_last_fill (s : Dataset) (cs : list (list R)) (c : list R)
    (M : matrix) (image_shape : nat * nat) :
  Forall (fun d => (length d mod 3)%nat = 0%nat) (cs ++ [c]) ->
  get_slice_mask_from_slice_contour_data polygon2mask s (cs ++ [c]) M image_shape =
    polygon2mask image_shape
      (to_polygon (apply_transformation_to_3d_points (rows_of_3 c) M)).
Proof.
  intros Hall. unfold get_slice_mask_from_slice_contour_data.
  destruct (collect_polygons_last cs c M [] None Hall) as [ps ->].
  run_result. now destruct (polygon2mask _ _).
Qed.

End RasteriserFacts.

Lemma transform_point_identity (p : vec3) : transform_point identity p = p.
Proof.
  destruct p as [x y z]. unfold transform_point, identity. simpl. f_equal; ring.
Qed.

Lemma apply_identity (points : list vec3) :
  apply_transformation_to_3d_points points identity = points.
Proof.
  unfold apply_transformation_to_3d_points.
  induction points as [|p ps IH]; simpl; [reflexivity|].
  now rewrite transform_point_identity, IH.
Qed.

Lemma to_polygon_square_far :
  to_polygon (apply_transformation_to_3d_points (rows_of_3 square_far) identity)
  = [(4, 4); (4, 6); (6, 6); (6, 4)]%Z.
Proof.
  rewrite apply_identity. unfold to_polygon, square_far. simpl.
  rewrite !np_around_IZR. reflexivity.
Qed.

Lemma to_polygon_square_near :
  to_polygon (apply_transformation_to_3d_points (rows_of_3 square_near) identity)
  = [(0, 0); (0, 2); (2, 2); (2, 0)]%Z.
Proof.
  rewrite apply_identity. unfold to_polygon, square_near. simpl.
  rewrite !np_around_IZR. reflexivity.
Qed.

(** C1 (the code at a failing input).  For a slice with the two contours
    [square_near] and [square_far], whatever the rasteriser,
    [get_slice_mask_from_slice_contour_data] returns what the rasteriser
    gives for the second square alone: the first contour is not part of the
    mask. *)
Theorem two_contours_mask_is_last_fill
    (polygon2mask : nat * nat -> polygon -> result array2) (s : Dataset) :
  get_slice_mask_from_slice_contour_data polygon2mask s
    [square_near; square_far] identity (8, 8)%nat
  = polygon2mask (8, 8)%nat [(4, 4); (4, 6); (6, 6); (6, 4)]%Z.
Proof.
  rewrite (get_slice_mask_is_last_fill polygon2mask s [square_near] square_far).
  - now rewrite to_polygon_square_far.
  - repeat constructor.
Qed.

(** With a rasteriser that is exact on such squares, the cell (1, 1) lies in
    the union of the two fills and not in the mask that is returned. *)
Lemma two_contours_mask_is_not_union (s : Dataset) :
  exists m,
    get_slice_mask_from_slice_contour_data bounding_box_mask s
      [square_near; square_far] identity (8, 8)%nat = Ok m /\
    a2_at m 1 1 = 0%Z /\
    a2_at (mask_union
             (bounding_box_fill (8, 8)%nat
                (to_polygon (apply_transformation_to_3d_points
                               (rows_of_3 square_near) identity)))
             (bounding_box_fill (8, 8)%nat
                (to_polygon (apply_transformation_to_3d_points
                               (rows_of_3 square_far) identity))))
          1 1 = 1%Z.
Proof.
  eexists. split.
  - rewrite (get_slice_mask_is_last_fill bounding_box_mask s [square_near] square_far)
      by repeat constructor.
    rewrite to_polygon_square_far. reflexivity.
  - rewrite to_polygon_square_near.
    split; reflexivity.
Qed.

(** ** Series orchestrator, contours to mask *)

Lemma contour_items_no_match (s : Dataset) (c : Contour) (uids : list string)
    (acc : list (list R)) :
  (forall uid, In uid uids -> uid <> SOPInstanceUID s) ->
  fold_left
    (fun slice_contour_data uid =>
       if String.eqb uid (SOPInstanceUID s)
       then slice_contour_data ++ [ContourData c]
       else slice_contour_data) uids acc = acc.
Proof.
  revert acc. induction uids as [|u us IH]; intros acc Hne; simpl; [reflexivity|].
  destruct (String.eqb_spec u (SOPInstanceUID s)) as [Heq | _].
  - exfalso. apply (Hne u); [now left | exact Heq].
  - apply IH. intros uid Hin. apply Hne. now right.
Qed.

Lemma contour_sequence_no_match (s : Dataset) (contour_sequence : list Contour)
    (acc : list (list R)) :
  no_matching_contour s contour_sequence ->
  fold_left
    (fun slice_contour_data contour =>
       fold_left
         (fun slice_contour_data uid =>
            if String.eqb uid (SOPInstanceUID s)
            then slice_contour_data ++ [ContourData contour]
            else slice_contour_data)
         (ContourImageSequence contour) slice_contour_data)
    contour_sequence acc = acc.
Proof.
  revert acc. induction contour_sequence as [|c cs IH]; intros acc Hno;
    cbn [fold_left]; [reflexivity|].
  rewrite contour_items_no_match.
  - apply IH. intros c' Hc'. apply Hno. now right.
  - apply Hno. now left.
Qed.

Lemma get_slice_contour_data_no_match (s : Dataset) (contour_sequence : list Contour) :
  no_matching_contour s contour_sequence ->
  get_slice_contour_data s contour_sequence = [].
Proof. apply contour_sequence_no_match. Qed.

Lemma set_plane_frame (m m' : array3) (i : nat) (p : array2) :
  set_plane m i p = Ok m' ->
  a3_shape m' = a3_shape m /\
  forall x y k, k <> i -> a3_at m' x y k = a3_at m x y k.
Proof.
  unfold set_plane. destruct (a3_shape m) as [[d0 d1] d2] eqn:Hshape.
  destruct (negb (Nat.ltb i d2)); [discriminate|].
  destruct (negb _); [discriminate|].
  intros [= <-]. simpl. split; [reflexivity|].
  intros x y k Hk. destruct (Nat.eqb_spec k i); [contradiction | reflexivity].
Qed.

Section OrchestratorFacts.

Variable polygon2mask : nat * nat -> polygon -> result array2.

(** The loop writes only the planes of slices that have contour data. *)
Lemma fill_slices_frame (contour_sequence : list Contour) (M : matrix)
    (image_shape : nat * nat) (slices : list Dataset) :
  forall (i : nat) (mask mask' : array3),
  fill_slices polygon2mask i slices contour_sequence M image_shape mask = Ok mask' ->
  a3_shape mask' = a3_shape mask /\
  forall k x y,
    ((k < i)%nat \/
     exists s, nth_error slices (k - i) = Some s /\ (i <= k)%nat /\
               get_slice_contour_data s contour_sequence = []) ->
    a3_at mask' x y k = a3_at mask x y k.
Proof.
  induction slices as [|s rest IH]; intros i mask mask' Hrun; simpl in Hrun.
  - injection Hrun as <-. split; reflexivity.
  - destruct (get_slice_contour_data s contour_sequence) as [|d ds] eqn:Hdata;
      simpl in Hrun.
    + apply IH in Hrun as [Hshape Hcells]. split; [exact Hshape|].
      intros k x y Hk. apply Hcells.
      destruct Hk as [Hlt | (s' & Hnth & Hle & Hs')]; [left; lia|].
      destruct (Nat.eq_dec k i) as [-> | Hne]; [left; lia|].
      right. exists s'. repeat split; [|lia|exact Hs'].
      replace (k - i)%nat with (S (k - S i)) in Hnth by lia. exact Hnth.
    + destruct (get_slice_mask_from_slice_contour_data _ _ _ _ _) as [pl|e];
        [|discriminate].
      revert Hrun. run_result.
      destruct (set_plane mask i pl) as [m1|e] eqn:Hset; [|discriminate].
      intros Hrun.
      apply set_plane_frame in Hset as [Hshape1 Hcells1].
      apply IH in Hrun as [Hshape Hcells]. split; [congruence|].
      intros k x y Hk.
      assert (Hne : k <> i).
      { destruct Hk as [Hlt | (s' & Hnth & Hle & Hs')]; [lia|].
        intros ->. rewrite Nat.sub_diag in Hnth. simpl in Hnth.
        injection Hnth as <-. congruence. }
      rewrite Hcells, Hcells1; [reflexivity | exact Hne |].
      destruct Hk as [Hlt | (s' & Hnth & Hle & Hs')]; [left; lia|].
      right. exists s'. repeat split; [|lia|exact Hs'].
      replace (k - i)%nat with (S (k - S i)) in Hnth by lia. exact Hnth.
Qed.

End OrchestratorFacts.

(** C8.  [create_series_mask_from_contour_sequence] starts from the zero-filled
    boolean mask of shape (Columns, Rows, slice count) of
    [create_empty_series_mask]; the mask it returns has that shape, and the
    plane of every slice to which no contour refers is false in every cell. *)
Theorem create_series_mask_untouched_planes
    (polygon2mask : nat * nat -> polygon -> result array2)
    (series_data : list Dataset) (contour_sequence : list Contour) (mask : array3)
    (Hrun : create_series_mask_from_contour_sequence polygon2mask
              series_data contour_sequence = Ok mask) :
  exists ref_dicom_image,
    first_of series_data = Ok ref_dicom_image /\
    create_empty_series_mask series_data =
      Ok (zeros3 (Columns ref_dicom_image, Rows ref_dicom_image, length series_data)) /\
    a3_shape mask = (Columns ref_dicom_image, Rows ref_dicom_image, length series_data) /\
    forall i series_slice,
      nth_error series_data i = Some series_slice ->
      no_matching_contour series_slice contour_sequence ->
      forall x y, a3_at mask x y i = false.
Proof.
  unfold create_series_mask_from_contour_sequence, create_empty_series_mask in *.
  destruct (first_of series_data) as [s0|e]; [|discriminate].
  revert Hrun. run_result.
  destruct (get_patient_to_pixel_transformation_matrix series_data) as [M|e];
    [|discriminate].
  intros Hrun. apply fill_slices_frame in Hrun as [Hshape Hcells].
  exists s0. repeat split; [exact Hshape|].
  intros i s Hnth Hno x y. rewrite Hcells; [reflexivity|].
  right. exists s. rewrite Nat.sub_0_r. repeat split; [exact Hnth | lia |].
  now apply get_slice_contour_data_no_match.
Qed.

Lemma two_slices_patient_to_pixel :
  exists M, get_patient_to_pixel_transformation_matrix two_slices = Ok M.
Proof.
  unfold get_patient_to_pixel_transformation_matrix.
  rewrite two_slices_spacing. simpl first_of. run_result.
  rewrite (get_slice_directions_accepted _
             (orthonormal_not_rejected _ (axial_slice_orthonormal "a" 0))).
  eexists. reflexivity.
Qed.

Lemma create_series_mask_untouched_planes_witness :
  exists mask,
    create_series_mask_from_contour_sequence bounding_box_mask
      two_slices contour_on_b = Ok mask /\
    a3_shape mask = (4, 4, 2)%nat /\
    forall x y, a3_at mask x y 0 = false.
Proof.
  assert (Hrun : exists mask,
             create_series_mask_from_contour_sequence bounding_box_mask
               two_slices contour_on_b = Ok mask).
  { unfold create_series_mask_from_contour_sequence.
    destruct two_slices_patient_to_pixel as [M ->].
    unfold create_empty_series_mask. simpl first_of. run_result.
    eexists. reflexivity. }
  destruct Hrun as [mask Hrun]. exists mask. split; [exact Hrun|].
  destruct (create_series_mask_untouched_planes _ _ _ _ Hrun)
    as (s0 & Hfirst & _ & Hshape & Hplanes).
  injection Hfirst as <-. split; [exact Hshape|].
  apply (Hplanes 0%nat (axial_slice "a" 0) eq_refl).
  intros c [<- | []] uid [<- | []]. discriminate.
Defined.

(** ** The store: what a computation leaves untouched *)

Ltac run_comp :=
  unfold mbind, comp_bind, mret, comp_ret, raise, lift, diverge in *.

Lemma frames_weaken {A} (h0 : heap) (m : comp A) (Q Q' : A -> Prop) :
  frames h0 m Q -> (forall a, Q a -> Q' a) -> frames h0 m Q'.
Proof.
  intros Hm HQ h r h' Hpre Hrun. destruct (Hm h r h' Hpre Hrun) as [Hp Hq].
  split; [exact Hp | intros a Ha; apply HQ, Hq, Ha].
Qed.

Lemma frames_ret {A} (h0 : heap) (a : A) (Q : A -> Prop) :
  Q a -> frames h0 (mret a) Q.
Proof.
  intros HQ h r h' Hpre Hrun. run_comp. injection Hrun as <- <-.
  split; [exact Hpre | now intros a' [= <-]].
Qed.

Lemma frames_raise {A} (h0 : heap) (e : exn) (Q : A -> Prop) :
  frames h0 (raise e) Q.
Proof.
  intros h r h' Hpre Hrun. run_comp. injection Hrun as <- <-.
  split; [exact Hpre | discriminate].
Qed.

Lemma frames_lift {A} (h0 : heap) (x : result A) :
  frames h0 (lift x) (fun _ => True).
Proof.
  intros h r h' Hpre Hrun. run_comp. injection Hrun as <- <-.
  split; [exact Hpre | trivial].
Qed.

Lemma frames_diverge {A} (h0 : heap) (Q : A -> Prop) : frames h0 diverge Q.
Proof. intros h r h' _ Hrun. discriminate Hrun. Qed.

Lemma frames_bind {A B} (h0 : heap) (m : comp A) (k : A -> comp B)
    (Q : A -> Prop) (Q' : B -> Prop) :
  frames h0 m Q -> (forall a, Q a -> frames h0 (k a) Q') ->
  frames h0 (m ≫= k) Q'.
Proof.
  intros Hm Hk h r h' Hpre Hrun. run_comp.
  destruct (m h) as [[[a|e] h1]|] eqn:Hmh; try discriminate.
  - destruct (Hm h _ _ Hpre Hmh) as [Hp1 Hq]. eapply (Hk a); eauto.
  - injection Hrun as <- <-. destruct (Hm h _ _ Hpre Hmh) as [Hp1 _].
    split; [exact Hp1 | discriminate].
Qed.

Lemma frames_load (h0 : heap) (r : ref) : frames h0 (load r) (fun _ => True).
Proof.
  intros h res h' Hpre Hrun. unfold load in Hrun.
  destruct r as [a | a i]; simpl in Hrun; destruct (h !! a) as [[x|x]|];
    injection Hrun as <- <-; (split; [exact Hpre | trivial]).
Qed.

Lemma frames_view_plane (h0 : heap) (a : addr) (i : nat) :
  frames h0 (view_plane a i) (fun _ => True).
Proof.
  intros h res h' Hpre Hrun. unfold view_plane in Hrun.
  destruct (h !! a) as [[x|x]|]; [| destruct (Nat.ltb _ _) |];
    injection Hrun as <- <-; (split; [exact Hpre | trivial]).
Qed.

Lemma frames_alloc (h0 : heap) (x : array2) :
  frames h0 (alloc x) (fun a => length h0 <= a)%nat.
Proof.
  intros h res h' Hpre Hrun. unfold alloc in Hrun. injection Hrun as <- <-.
  split.
  - now apply prefix_app_r.
  - intros a [= <-]. now apply prefix_length.
Qed.

Lemma frames_update (h0 : heap) (a : addr) (f : array2 -> result array2) :
  (length h0 <= a)%nat -> frames h0 (update a f) (fun _ => True).
Proof.
  intros Hle h res h' [k ->] Hrun. unfold update in Hrun.
  destruct ((h0 ++ k) !! a) as [[x|x]|]; [destruct (f x) | |];
    injection Hrun as <- <-;
    (split; [|trivial]); try (now exists k).
  rewrite insert_app_r_alt by exact Hle. now eexists.
Qed.

(** ** Contour tracer *)

Section TracerFacts.

Variable find_contours : array2 -> result (list contour).
Variable line_aa : Z -> Z -> Z -> Z -> list Z * list Z * list R.

Lemma frames_find_mask_contours (h0 : heap) (r : ref) (approx : bool) :
  frames h0 (find_mask_contours find_contours r approx) (fun _ => True).
Proof.
  unfold find_mask_contours.
  eapply frames_bind; [apply frames_load|]. intros a _. apply frames_lift.
  Qed.

(** The loop writes to the array it was given and to nothing else. *)
Lemma frames_draw_loop (h0 : heap) (m : addr) (fill_value line_width : Z) :
  (length h0 <= m)%nat ->
  forall fuel start end_,
    frames h0 (draw_loop line_aa fuel m start end_ fill_value line_width)
           (fun _ => True).
Proof.
  intros Hm. induction fuel as [|fuel IH]; intros start end_; simpl.
  - apply frames_diverge.
  - eapply frames_bind; [apply frames_load|]. intros a _.
    eapply frames_bind; [apply frames_lift|]. intros v _.
    destruct (negb (Z.eqb v fill_value)); [|now apply frames_ret].
    eapply frames_bind; [apply frames_lift|]. intros r0 _.
    eapply frames_bind; [apply frames_lift|]. intros c0 _.
    eapply frames_bind; [apply frames_lift|]. intros r1 _.
    eapply frames_bind; [apply frames_lift|]. intros c1 _.
    destruct (line_aa r0 c0 r1 c1) as [[rr cc] val].
    eapply frames_bind; [now apply frames_update|]. intros _ _.
    apply IH.
Qed.

Lemma frames_draw_line (h0 : heap) (fuel : nat) (r : ref)
    (start : pynum * pynum) (fill_value : Z) :
  frames h0 (draw_line_upwards_from_point line_aa fuel r start fill_value)
         (fun _ => True).
Proof.
  unfold draw_line_upwards_from_point.
  eapply frames_bind; [apply frames_load|]. intros a _.
  eapply frames_bind; [apply frames_alloc|]. intros m Hm.
  eapply frames_bind; [now apply frames_draw_loop|]. intros _ _.
  eapply frames_bind; [apply frames_load|]. intros a' _.
  eapply frames_bind; [apply frames_alloc|]. intros m' _.
  now apply frames_ret.
Qed.

Lemma frames_pin_hole_loop (h0 : heap) (fuel : nat) (contours : list contour) :
  forall r, frames h0 (pin_hole_loop line_aa fuel contours r) (fun _ => True).
Proof.
  induction contours as [|c rest IH]; intros r; simpl.
  - now apply frames_ret.
  - destruct c as [|p c]; [apply frames_raise|].
    eapply frames_bind; [apply frames_draw_line|]. intros r' _. apply IH.
Qed.

Lemma frames_create_pin_hole_mask (h0 : heap) (fuel : nat) (r : ref) (approx : bool) :
  frames h0 (create_pin_hole_mask find_contours line_aa fuel r approx) (fun _ => True).
Proof.
  unfold create_pin_hole_mask.
  eapply frames_bind; [apply frames_find_mask_contours|]. intros cs _.
  eapply frames_bind; [apply frames_load|]. intros a _.
  eapply frames_bind; [apply frames_alloc|]. intros m _.
  apply frames_pin_hole_loop.
Qed.

Lemma frames_slice_contours (h0 : heap) (fuel : nat) (roi_data : ROIData)
    (M : matrix) (i : nat) :
  frames h0 (slice_contours find_contours line_aa fuel roi_data M i) (fun _ => True).
Proof.
  unfold slice_contours.
  eapply frames_bind; [apply frames_view_plane|]. intros r _.
  eapply frames_bind; [apply frames_load|]. intros a _.
  destruct (Z.eqb (np_sum a) 0); [now apply frames_ret|].
  eapply frames_bind with (Q := fun _ => True).
  - destruct (use_pin_hole roi_data);
      [apply frames_create_pin_hole_mask | now apply frames_ret].
  - intros r' _.
    eapply frames_bind; [apply frames_find_mask_contours|]. intros cs _.
    eapply frames_bind; [apply frames_lift|]. intros _ _.
    apply frames_lift.
Qed.

Lemma frames_contours_loop (h0 : heap) (fuel : nat) (roi_data : ROIData)
    (M : matrix) (slices : list Dataset) :
  forall i acc,
    frames h0 (contours_loop find_contours line_aa fuel roi_data M i slices acc)
           (fun _ => True).
Proof.
  induction slices as [|s rest IH]; intros i acc; simpl.
  - now apply frames_ret.
  - eapply frames_bind; [apply frames_slice_contours|]. intros cs _. apply IH.
Qed.

Lemma frames_get_contours_coords (h0 : heap) (fuel : nat) (roi_data : ROIData)
    (series_data : list Dataset) :
  frames h0 (get_contours_coords find_contours line_aa fuel roi_data series_data)
         (fun _ => True).
Proof.
  unfold get_contours_coords.
  eapply frames_bind; [apply frames_lift|]. intros M _.
  apply frames_contours_loop.
Qed.

End TracerFacts.

(** ** Termination of the line-draw loop *)

Lemma norm_index_range (i : Z) (dim : nat) (x : nat) :
  norm_index i dim = Some x -> (- Z.of_nat dim <= i < Z.of_nat dim)%Z.
Proof.
  unfold norm_index.
  destruct ((0 <=? i)%Z && (i <? Z.of_nat dim)%Z) eqn:H1.
  - intros _. apply andb_true_iff in H1 as [H1 H2]. lia.
  - destruct ((- Z.of_nat dim <=? i)%Z && (i <? 0)%Z) eqn:H2; [|discriminate].
    intros _. apply andb_true_iff in H2 as [H2 H3]. lia.
Qed.

Lemma setitem_shape (a a' : array2) (rr cc : list Z) (v : Z) :
  setitem a rr cc v = Ok a' -> a2_shape a' = a2_shape a.
Proof.
  unfold setitem. destruct (norm_indices _ _); [|discriminate].
  now intros [= <-].
Qed.

Lemma load_total (r : ref) (h : heap) : exists res, load r h = Some (res, h).
Proof.
  unfold load. destruct r as [a | a i]; destruct (h !! a) as [[x|x]|]; eauto.
Qed.

Section Termination.

Variable line_aa : Z -> Z -> Z -> Z -> list Z * list Z * list R.

(** Each turn moves the end point two columns down; numpy refuses an index
    below minus the width, so the number of turns is bounded by the column
    of the end point plus the width. *)
Lemma draw_loop_terminates_int (m : addr) (fill_value : Z) :
  forall (k : nat) (start : pynum * pynum) (er : pynum) (c : Z) (h : heap),
    (forall a, h !! m = Some (Obj2 a) ->
               (Z.to_nat (c + Z.of_nat (snd (a2_shape a)) + 1) <= k)%nat) ->
    forall fuel, (k < fuel)%nat ->
      terminates (draw_loop line_aa fuel m start (er, PyInt c) fill_value 2) h.
Proof.
  unfold terminates.
  induction k as [|k IH]; intros start er c h Hk fuel Hfuel;
    (destruct fuel as [|fuel]; [lia|]); simpl; run_comp; unfold load;
    destruct (h !! m) as [[a|a3]|] eqn:Hm; eauto;
    (destruct er as [r|x]; simpl; eauto);
    destruct (norm_index2 (a2_shape a) (r, c)) as [[x y]|] eqn:Hidx; eauto;
    (destruct (negb (Z.eqb (a2_at a x y) fill_value)); eauto);
    unfold norm_index2 in Hidx; simpl in Hidx;
    destruct (norm_index r (fst (a2_shape a))); try discriminate;
    destruct (norm_index c (snd (a2_shape a))) eqn:Hc; try discriminate;
    apply norm_index_range in Hc; specialize (Hk a eq_refl); try lia.
  destruct (as_int (fst start)) as [r0|e]; eauto.
  destruct (as_int (snd start)) as [c0|e]; eauto.
  simpl. destruct (line_aa r0 c0 r c) as [[rr cc] val].
  unfold update. rewrite Hm.
  destruct (setitem a rr cc fill_value) as [a'|e] eqn:Hset; eauto.
  apply IH; [|lia].
  intros a'' Ha''.
  rewrite list_lookup_insert_eq in Ha'' by (eapply lookup_lt_Some; eauto).
  injection Ha'' as <-. rewrite (setitem_shape _ _ _ _ _ Hset). lia.
Qed.

Lemma draw_loop_terminates (m : addr) (fill_value : Z)
    (start end_ : pynum * pynum) (h : heap) :
  exists N, forall fuel, (N <= fuel)%nat ->
    terminates (draw_loop line_aa fuel m start end_ fill_value 2) h.
Proof.
  destruct end_ as [er [c|x]].
  - exists (S match h !! m with
              | Some (Obj2 a) => Z.to_nat (c + Z.of_nat (snd (a2_shape a)) + 1)
              | _ => 0
              end).
    intros fuel Hfuel. eapply draw_loop_terminates_int; [|exact Hfuel].
    intros a Ha. now rewrite Ha.
  - exists 1%nat. intros [|fuel] Hfuel; [lia|]. unfold terminates.
    simpl; run_comp; unfold load.
    destruct (h !! m) as [[a|a3]|]; eauto.
    destruct er; simpl; eauto.
Qed.

Lemma draw_line_terminates (r : ref) (start : pynum * pynum) (fill_value : Z)
    (h : heap) :
  exists N, forall fuel, (N <= fuel)%nat ->
    terminates (draw_line_upwards_from_point line_aa fuel r start fill_value) h.
Proof.
  unfold draw_line_upwards_from_point, terminates. run_comp.
  destruct (load_total r h) as [[a|e] ->]; [|exists 0%nat; eauto].
  rename h into h1.
  - unfold alloc.
    destruct (draw_loop_terminates (length h1) fill_value start
                (fst start, py_sub (snd start) 1)
                (h1 ++ [Obj2 (astype UInt8 a)])) as [N HN].
    exists N. intros fuel Hfuel. destruct (HN fuel Hfuel) as (res & h2 & ->).
    destruct res as [[]|e]; eauto.
    destruct (load_total (Whole (length h1)) h2) as [[a'|e] ->]; eauto.
Qed.

End Termination.

(** C7.  When the mask can be read and some cell of the start row at a
    smaller column already holds the fill value, the line-draw loop of
    [draw_line_upwards_from_point] finishes: there is a number of turns
    after which the call has returned or raised, whatever [line_aa] draws. *)
Theorem draw_line_upwards_terminates
    (line_aa : Z -> Z -> Z -> Z -> list Z * list Z * list R)
    (mask_ref : ref) (a : array2) (h : heap) (r c fill_value : Z)
    (Hload : load mask_ref h = Some (Ok a, h))
    (Hreach : background_reachable a r c fill_value) :
  exists N, forall fuel, (N <= fuel)%nat ->
    terminates
      (draw_line_upwards_from_point line_aa fuel mask_ref (PyInt r, PyInt c) fill_value) h.
Proof. apply draw_line_terminates. Qed.

Lemma draw_line_upwards_terminates_witness :
  exists N, forall fuel, (N <= fuel)%nat ->
    terminates
      (draw_line_upwards_from_point line_aa_leftward fuel (Whole 0) (PyInt 1, PyInt 4) 0)
      [Obj2 strip].
Proof.
  apply (draw_line_upwards_terminates line_aa_leftward (Whole 0) strip [Obj2 strip] 1 4 0).
  - reflexivity.
  - exists 1%Z, 1%nat, 1%nat. repeat split; try reflexivity; lia.
Defined.

(** On [strip] the line from (1, 4) clears the columns 4 and 3 of row 1 and
    stops when the end point, two columns further, is the background cell of
    column 1; the array it was given keeps its cells. *)
Example draw_line_on_strip :
  exists h',
    draw_line_upwards_from_point line_aa_leftward 3 (Whole 0) (PyInt 1, PyInt 4) 0
      [Obj2 strip] = Some (Ok (Whole 2), h') /\
    h' !! 0%nat = Some (Obj2 strip) /\
    exists out, h' !! 2%nat = Some (Obj2 out) /\
      map (a2_at out 1) (seq 0 6) = [1; 0; 1; 0; 0; 1]%Z.
Proof.
  eexists. split; [reflexivity|]. split; [reflexivity|].
  eexists. split; reflexivity.
Qed.

(** ** The pin-hole pass *)

Section PinHoleFacts.

Variable find_contours : array2 -> result (list contour).
Variable line_aa : Z -> Z -> Z -> Z -> list Z * list Z * list R.

(** The points of a traced contour are floats, and numpy takes no float
    as an index: the first test of the loop raises. *)
Lemma draw_line_float_raises (fuel : nat) (r : ref) (x y : R) (fill_value : Z)
    (h : heap) (a : array2) :
  load r h = Some (Ok a, h) ->
  draw_line_upwards_from_point line_aa (S fuel) r (PyFloat x, PyFloat y) fill_value h
  = Some (Raise IndexError, h ++ [Obj2 (astype UInt8 a)]).
Proof.
  intros Hload. unfold draw_line_upwards_from_point. run_comp.
  rewrite Hload. unfold alloc. simpl. run_comp. unfold load.
  now rewrite (list_lookup_middle h [] _ (length h) eq_refl).
Qed.

Lemma draw_line_float_stops (fuel : nat) (r : ref) (x y : R) (fill_value : Z)
    (h : heap) :
  exists e h',
    draw_line_upwards_from_point line_aa (S fuel) r (PyFloat x, PyFloat y) fill_value h
    = Some (Raise e, h').
Proof.
  destruct (load_total r h) as [[a|e] Hload].
  - do 2 eexists. apply draw_line_float_raises. exact Hload.
  - unfold draw_line_upwards_from_point. run_comp. rewrite Hload. eauto.
Qed.

Lemma pin_hole_loop_terminates (fuel : nat) (contours : list contour) (r : ref)
    (h : heap) :
  terminates (pin_hole_loop line_aa (S fuel) contours r) h.
Proof.
  unfold terminates. destruct contours as [|[|p c] rest].
  - simpl. run_comp. eauto.
  - simpl. run_comp. eauto.
  - cbn [pin_hole_loop]. run_comp.
    destruct (draw_line_float_stops fuel r (fst p) (snd p) 0 h) as (e & h' & ->).
    eauto.
Qed.

Lemma create_pin_hole_mask_terminates (fuel : nat) (r : ref) (approx : bool)
    (h : heap) :
  terminates (create_pin_hole_mask find_contours line_aa (S fuel) r approx) h.
Proof.
  unfold terminates, create_pin_hole_mask, find_mask_contours. run_comp.
  destruct (load_total r h) as [[a|e] Hload]; rewrite Hload; eauto.
  destruct (find_contours a) as [cs|e]; eauto.
  rewrite Hload. unfold alloc. apply pin_hole_loop_terminates.
Qed.

End PinHoleFacts.

(** C3 (the code at a failing input).  Whenever the trace of the mask finds
    a contour, be it an outer or an inner boundary, [create_pin_hole_mask]
    starts a line from the first point of the first contour and raises
    IndexError at the first test of the line-draw loop; it returns no mask.
    The store then holds the copy of the mask and its uint8 conversion. *)
Theorem create_pin_hole_mask_raises
    (find_contours : array2 -> result (list contour))
    (line_aa : Z -> Z -> Z -> Z -> list Z * list Z * list R)
    (fuel : nat) (mask_ref : ref) (approx : bool) (h : heap) (a : array2)
    (p : R * R) (c : contour) (rest : list contour)
    (Hload : load mask_ref h = Some (Ok a, h))
    (Htrace : find_contours a = Ok ((p :: c) :: rest)) :
  create_pin_hole_mask find_contours line_aa (S fuel) mask_ref approx h
  = Some (Raise IndexError, h ++ [Obj2 a] ++ [Obj2 (astype UInt8 a)]).
Proof.
  unfold create_pin_hole_mask, find_mask_contours. run_comp.
  rewrite Hload, Htrace. unfold alloc. cbn [pin_hole_loop]. run_comp.
  rewrite Hload.
  rewrite (draw_line_float_raises line_aa fuel _ _ _ _ _ a).
  - now rewrite <- app_assoc.
  - unfold load. now rewrite (list_lookup_middle h [] _ (length h) eq_refl).
Qed.

Lemma create_pin_hole_mask_raises_witness :
  create_pin_hole_mask two_contours line_aa_leftward 8 (Whole 0) false [Obj2 ring_mask]
  = Some (Raise IndexError,
          [Obj2 ring_mask] ++ [Obj2 ring_mask] ++ [Obj2 (astype UInt8 ring_mask)]).
Proof.
  apply (create_pin_hole_mask_raises two_contours line_aa_leftward 7 (Whole 0) false
           [Obj2 ring_mask] ring_mask (1 / 2, 1) [(1, 1 / 2)]
           [[(3 / 2, 2); (2, 3 / 2)]]).
  - reflexivity.
  - reflexivity.
Defined.

(** C9.  The flag [approximate_contours] has no effect: contour tracing and
    the pin-hole pass give the same outcome and the same store for both
    values of the flag. *)
Theorem approximate_contours_ignored
    (find_contours : array2 -> result (list contour))
    (line_aa : Z -> Z -> Z -> Z -> list Z * list Z * list R)
    (fuel : nat) (mask_ref : ref) (h : heap) :
  find_mask_contours find_contours mask_ref true h =
    find_mask_contours find_contours mask_ref false h /\
  create_pin_hole_mask find_contours line_aa fuel mask_ref true h =
    create_pin_hole_mask find_contours line_aa fuel mask_ref false h.
Proof. split; reflexivity. Qed.

(** ** Series orchestrator, mask to contours *)

Lemma sum_all_zero {A} (f : A -> Z) (l : list A) :
  (forall x, In x l -> f x = 0%Z) -> fold_right Z.add 0%Z (map f l) = 0%Z.
Proof.
  induction l as [|x l IH]; intros H; simpl; [reflexivity|].
  rewrite (H x) by now left. rewrite IH; [reflexivity|].
  intros y Hy. apply H. now right.
Qed.

Lemma sum_nonneg {A} (f : A -> Z) (l : list A) :
  (forall x, In x l -> (0 <= f x)%Z) -> (0 <= fold_right Z.add 0%Z (map f l))%Z.
Proof.
  induction l as [|x l IH]; intros H; simpl; [lia|].
  assert (0 <= f x)%Z by (apply H; now left).
  assert (0 <= fold_right Z.add 0%Z (map f l))%Z by (apply IH; intros y Hy; apply H; now right).
  lia.
Qed.

Lemma sum_positive {A} (f : A -> Z) (l : list A) (x : A) :
  (forall y, In y l -> (0 <= f y)%Z) -> In x l -> (0 < f x)%Z ->
  (0 < fold_right Z.add 0%Z (map f l))%Z.
Proof.
  induction l as [|y l IH]; intros Hnn Hin Hpos; [destruct Hin|]. simpl.
  assert (0 <= f y)%Z by (apply Hnn; now left).
  assert (0 <= fold_right Z.add 0%Z (map f l))%Z
    by (apply sum_nonneg; intros z Hz; apply Hnn; now right).
  destruct Hin as [-> | Hin]; [lia|].
  assert (0 < fold_right Z.add 0%Z (map f l))%Z
    by (apply IH; auto; intros z Hz; apply Hnn; now right).
  lia.
Qed.

Lemma b2z_nonneg (b : bool) : (0 <= b2z b)%Z.
Proof. destruct b; simpl; lia. Qed.

Lemma np_sum_plane_blank (m : array3) (k : nat) :
  plane_blank m k -> np_sum (plane m k) = 0%Z.
Proof.
  unfold plane_blank, np_sum, plane.
  destruct (a3_shape m) as [[d0 d1] d2]. simpl. intros H.
  apply sum_all_zero. intros x Hx. apply in_seq in Hx.
  apply sum_all_zero. intros y Hy. apply in_seq in Hy.
  rewrite H by lia. reflexivity.
Qed.

Lemma np_sum_plane_has_true (m : array3) (k : nat) :
  plane_has_true m k -> np_sum (plane m k) <> 0%Z.
Proof.
  unfold plane_has_true, np_sum, plane.
  destruct (a3_shape m) as [[d0 d1] d2]. simpl. intros (x & y & Hx & Hy & Hxy).
  apply Z.neq_sym, Z.lt_neq.
  apply (sum_positive _ _ x).
  - intros x' _. apply sum_nonneg. intros y' _. apply b2z_nonneg.
  - apply in_seq. lia.
  - apply (sum_positive _ _ y).
    + intros y' _. apply b2z_nonneg.
    + apply in_seq. lia.
    + rewrite Hxy. simpl. lia.
Qed.

Section OrchestratorToContours.

Variable find_contours : array2 -> result (list contour).
Variable line_aa : Z -> Z -> Z -> Z -> list Z * list Z * list R.

Lemma find_mask_contours_total (r : ref) (approx : bool) (h : heap) (a : array2) :
  load r h = Some (Ok a, h) ->
  find_mask_contours find_contours r approx h = Some (find_contours a, h).
  Proof. intros Hload. unfold find_mask_contours. run_comp. now rewrite Hload. Qed.

Lemma slice_contours_blank (fuel : nat) (roi_data : ROIData) (M : matrix)
    (k : nat) (h : heap) (m : array3) :
  h !! mask roi_data = Some (Obj3 m) ->
  (k < snd (a3_shape m))%nat ->
  plane_blank m k ->
  slice_contours find_contours line_aa fuel roi_data M k h = Some (Ok [], h).
Proof.
  intros Hmask Hk Hblank. unfold slice_contours, view_plane. run_comp.
  rewrite Hmask. destruct (Nat.ltb_spec k (snd (a3_shape m))) as [_|]; [|lia].
  unfold load. rewrite Hmask.
  now rewrite (np_sum_plane_blank _ _ Hblank).
Qed.

Lemma slice_contours_empty_trace (fuel : nat) (roi_data : ROIData) (M : matrix)
    (k : nat) (h : heap) (m : array3) :
  h !! mask roi_data = Some (Obj3 m) ->
  (k < snd (a3_shape m))%nat ->
  plane_has_true m k ->
  find_contours (plane m k) = Ok [] ->
  exists h',
    slice_contours find_contours line_aa fuel roi_data M k h
    = Some (Raise EmptyContour, h').
Proof.
  intros Hmask Hk Htrue Htrace. unfold slice_contours, view_plane. run_comp.
  rewrite Hmask. destruct (Nat.ltb_spec k (snd (a3_shape m))) as [_|]; [|lia].
  unfold load at 1. rewrite Hmask.
  destruct (Z.eqb_spec (np_sum (plane m k)) 0) as [Hz|_];
    [now apply np_sum_plane_has_true in Htrue|].
  assert (Hview : load (PlaneView (mask roi_data) k) h = Some (Ok (plane m k), h))
    by (unfold load; now rewrite Hmask).
  destruct (use_pin_hole roi_data).
  - unfold create_pin_hole_mask. run_comp.
    rewrite (find_mask_contours_total _ _ _ _ Hview), Htrace, Hview.
    unfold alloc. simpl pin_hole_loop. run_comp.
    rewrite (find_mask_contours_total _ _ _ (plane m k)), Htrace; [simpl; eauto|].
    unfold load. now rewrite (list_lookup_middle h [] _ (length h) eq_refl).
  - rewrite (find_mask_contours_total _ _ _ _ Hview), Htrace. simpl. eauto.
Qed.

Lemma contours_loop_acc (fuel : nat) (roi_data : ROIData) (M : matrix)
    (slices : list Dataset) :
  forall i acc h out h',
    contours_loop find_contours line_aa fuel roi_data M i slices acc h
    = Some (Ok out, h') ->
    acc `prefix_of` out.
Proof.
  induction slices as [|s rest IH]; intros i acc h out h' Hrun; simpl in Hrun;
    run_comp.
  - now injection Hrun as <- <-.
  - destruct (slice_contours _ _ _ _ _ _ h) as [[[cs|e] h1]|]; try discriminate.
    apply IH in Hrun. etransitivity; [|exact Hrun]. now apply prefix_app_r.
Qed.

Lemma contours_loop_blank (fuel : nat) (roi_data : ROIData) (M : matrix)
    (h0 : heap) (m : array3) :
  h0 !! mask roi_data = Some (Obj3 m) ->
  forall slices i acc h out h',
    h0 `prefix_of` h ->
    contours_loop find_contours line_aa fuel roi_data M i slices acc h
    = Some (Ok out, h') ->
    forall k, (k < length slices)%nat -> plane_blank m (i + k) ->
    out !! (length acc + k)%nat = Some [].
Proof.
  intros Hmask.
  induction slices as [|s rest IH]; intros i acc h out h' Hpre Hrun k Hk Hblank;
    simpl in Hk; [lia|].
  simpl in Hrun. run_comp.
  destruct (slice_contours _ _ _ _ _ _ h) as [[[cs|e] h1]|] eqn:Hslice;
    try discriminate.
  destruct (frames_slice_contours find_contours line_aa h0 fuel roi_data M i
              h _ _ Hpre Hslice) as [Hpre1 _].
  destruct k as [|k].
  - rewrite Nat.add_0_r in *.
    assert (Hcs : cs = []).
    { pose proof (prefix_lookup_Some _ _ _ _ Hmask Hpre) as Hm.
      destruct (Nat.ltb_spec i (snd (a3_shape m))) as [Hlt | Hge].
      - rewrite (slice_contours_blank fuel roi_data M i h m Hm Hlt Hblank) in Hslice.
        now injection Hslice as <- <-.
      - revert Hslice. unfold slice_contours, view_plane. run_comp. rewrite Hm.
        destruct (Nat.ltb_spec i (snd (a3_shape m))); [lia | discriminate]. }
    subst cs. apply contours_loop_acc in Hrun.
    eapply prefix_lookup_Some; [|exact Hrun].
    now apply list_lookup_middle.
  - replace (length acc + S k)%nat with (length (acc ++ [cs]) + k)%nat
      by (rewrite length_app; simpl; lia).
    apply (IH (S i) (acc ++ [cs]) h1 out h' Hpre1 Hrun k); [lia|].
    now replace (S i + k)%nat with (i + S k)%nat by lia.
Qed.

Lemma contours_loop_raises (fuel : nat) (roi_data : ROIData) (M : matrix)
    (h : heap) (m : array3) :
  h !! mask roi_data = Some (Obj3 m) ->
  forall k slices i acc,
    (k < length slices)%nat ->
    (i + k < snd (a3_shape m))%nat ->
    (forall j, (j < k)%nat -> plane_blank m (i + j)) ->
    plane_has_true m (i + k) ->
    find_contours (plane m (i + k)) = Ok [] ->
    exists h',
      contours_loop find_contours line_aa fuel roi_data M i slices acc h
      = Some (Raise EmptyContour, h').
Proof.
  intros Hmask.
  induction k as [|k IH]; intros slices i acc Hk Hik Hblank Htrue Htrace;
    (destruct slices as [|s rest]; simpl in Hk; [lia|]); simpl; run_comp.
  - rewrite Nat.add_0_r in *.
    destruct (slice_contours_empty_trace fuel roi_data M i h m Hmask Hik Htrue Htrace)
      as [h' ->].
    eauto.
  - rewrite (slice_contours_blank fuel roi_data M i h m Hmask).
    + apply IH; try lia.
      * intros j Hj. replace (S i + j)%nat with (i + S j)%nat by lia.
        apply Hblank. lia.
      * now replace (S i + k)%nat with (i + S k)%nat by lia.
      * now replace (S i + k)%nat with (i + S k)%nat by lia.
    + lia.
    + rewrite <- (Nat.add_0_r i). apply Hblank. lia.
Qed.

End OrchestratorToContours.

Lemma view_plane_total (a : addr) (i : nat) (h : heap) :
  exists res, view_plane a i h = Some (res, h).
Proof.
  unfold view_plane. destruct (h !! a) as [[x|x]|]; eauto.
  destruct (Nat.ltb _ _); eauto.
Qed.

Section OrchestratorTermination.

Variable find_contours : array2 -> result (list contour).
Variable line_aa : Z -> Z -> Z -> Z -> list Z * list Z * list R.

Lemma slice_contours_terminates (fuel : nat) (roi_data : ROIData) (M : matrix)
    (i : nat) (h : heap) :
  terminates (slice_contours find_contours line_aa (S fuel) roi_data M i) h.
Proof.
  unfold terminates, slice_contours. run_comp.
  destruct (view_plane_total (mask roi_data) i h) as [[r|e] ->]; eauto.
  destruct (load_total r h) as [[a|e] ->]; eauto.
  destruct (Z.eqb (np_sum a) 0); eauto.
  assert (Htrace : forall r' h1 k,
             (forall cs h2, exists res h3, k cs h2 = Some (res, h3)) ->
             exists res h3,
               match find_mask_contours find_contours r'
                       (approximate_contours roi_data) h1 return _ with
               | Some (Ok cs, h2) => k cs h2
               | Some (Raise e, h2) => Some (Raise e, h2)
               | None => None
               end = Some (res : result (list (list R)), h3)).
  { intros r' h1 k Hk. unfold find_mask_contours. run_comp.
    destruct (load_total r' h1) as [[a'|e] ->]; eauto.
    destruct (find_contours a') as [cs|e]; eauto. }
  destruct (use_pin_hole roi_data).
  - destruct (create_pin_hole_mask_terminates find_contours line_aa fuel r
                (approximate_contours roi_data) h) as ([r'|e] & h1 & ->); eauto.
    apply Htrace. intros cs h2. destruct (validate_contours _); eauto.
  - apply Htrace. intros cs h2. destruct (validate_contours _); eauto.
Qed.

Lemma contours_loop_terminates (fuel : nat) (roi_data : ROIData) (M : matrix)
    (slices : list Dataset) :
  forall i acc h,
    terminates (contours_loop find_contours line_aa (S fuel) roi_data M i slices acc) h.
Proof.
  unfold terminates.
  induction slices as [|s rest IH]; intros i acc h; simpl; run_comp; eauto.
  destruct (slice_contours_terminates fuel roi_data M i h) as ([cs|e] & h1 & ->);
    eauto.
Qed.

Lemma get_contours_coords_terminates (fuel : nat) (roi_data : ROIData)
    (series_data : list Dataset) (h : heap) :
  terminates (get_contours_coords find_contours line_aa (S fuel) roi_data series_data) h.
Proof.
  unfold get_contours_coords. run_comp.
  destruct (get_pixel_to_patient_transformation_matrix series_data) as [M|e].
  - apply contours_loop_terminates.
  - unfold terminates. eauto.
Qed.

End OrchestratorTermination.

(** C6 (as amended).  For a slice index [k] of the series whose plane of
    the mask is false in every cell, the loop body of [get_contours_coords]
    returns the empty contour list without raising and leaves the store as
    it is, whatever the tracer would do on that plane (it is not called), and
    every normal return of [get_contours_coords] has the empty list at index
    [k].  For a slice whose plane has a true cell and whose trace finds no
    contour, the loop body raises the EmptyContour exception (through
    [validate_contours]) from every store that extends the caller's, and so
    does [get_contours_coords] when the planes before [k] are blank.  The
    tracer [find_mask_contours] itself ends as skimage's [find_contours]
    does: on a mask with fewer than 2 rows or 2 columns, empty or not, it
    raises ValueError; on every other mask it returns the trace. *)
Theorem get_contours_coords_blank_and_empty
    (find_contours : array2 -> result (list contour))
    (line_aa : Z -> Z -> Z -> Z -> list Z * list Z * list R)
    (fuel : nat) (roi_data : ROIData) (series_data : list Dataset)
    (h : heap) (m : array3) (k : nat)
    (Hmask : h !! mask roi_data = Some (Obj3 m))
    (Hslice : (k < length series_data)%nat)
    (Hplane : (k < snd (a3_shape m))%nat) :
  (plane_blank m k ->
     (forall M, slice_contours find_contours line_aa fuel roi_data M k h
                = Some (Ok [], h)) /\
     (forall out h',
        get_contours_coords find_contours line_aa fuel roi_data series_data h
        = Some (Ok out, h') ->
        out !! k = Some [])) /\
  (plane_has_true m k -> find_contours (plane m k) = Ok [] ->
     (forall M h1, h `prefix_of` h1 ->
        exists h', slice_contours find_contours line_aa fuel roi_data M k h1
                   = Some (Raise EmptyContour, h')) /\
     (forall M,
        get_pixel_to_patient_transformation_matrix series_data = Ok M ->
        (forall j, (j < k)%nat -> plane_blank m j) ->
        exists h',
          get_contours_coords find_contours line_aa fuel roi_data series_data h
          = Some (Raise EmptyContour, h'))) /\
  (forall marching_squares r a approx,
     load r h = Some (Ok a, h) ->
     (below_2x2 a = true ->
        find_mask_contours (skimage_find_contours marching_squares) r approx h
        = Some (Raise ValueError, h)) /\
     (below_2x2 a = false ->
        find_mask_contours (skimage_find_contours marching_squares) r approx h
        = Some (Ok (marching_squares a), h))).
Proof.
  split; [|split].
  - intros Hblank. split.
    + intros M. now apply (slice_contours_blank _ _ _ _ _ _ _ m).
    + intros out h'. unfold get_contours_coords. run_comp.
      destruct (get_pixel_to_patient_transformation_matrix series_data) as [M|e];
        [|discriminate].
      intros Hrun.
      apply (contours_loop_blank find_contours line_aa fuel roi_data M h m Hmask
               series_data 0%nat [] h out h' (reflexivity h) Hrun k Hslice Hblank).
  - intros Htrue Htrace. split.
    + intros M h1 Hpre.
      apply (slice_contours_empty_trace _ _ _ _ _ _ _ m); auto.
      eapply prefix_lookup_Some; eauto.
    + intros M HM Hblank. unfold get_contours_coords. run_comp. rewrite HM.
      now apply (contours_loop_raises find_contours line_aa fuel roi_data M h m
                   Hmask k series_data 0%nat []).
  - intros marching_squares r a approx Hload.
    rewrite (find_mask_contours_total _ _ _ _ _ Hload).
    unfold skimage_find_contours. split; now intros ->.
Qed.

(** C6, as stated, fails: the mask with one row and one column is empty,
    and the tracer raises ValueError on it. *)
Lemma find_mask_contours_empty_mask_counterexample :
  let empty_mask := zeros2 (1, 1)%nat in
  np_sum empty_mask = 0%Z /\
  (forall x y, a2_at empty_mask x y = 0%Z) /\
  forall marching_squares approx,
    find_mask_contours (skimage_find_contours marching_squares) (Whole 0) approx
      [Obj2 empty_mask]
    = Some (Raise ValueError, [Obj2 empty_mask]).
Proof. repeat split. Qed.

Lemma dot_mask_plane_0_blank : plane_blank dot_mask 0.
Proof. intros x y _ _. simpl. now rewrite andb_false_r. Qed.

Lemma get_contours_coords_blank_and_empty_witness :
  slice_contours one_contour line_aa_leftward 1 roi_plain identity 0 [Obj3 dot_mask]
  = Some (Ok [], [Obj3 dot_mask]).
Proof.
  refine (proj1 (proj1 (get_contours_coords_blank_and_empty
                          one_contour line_aa_leftward 1 roi_plain two_slices
                          [Obj3 dot_mask] dot_mask 0 eq_refl _ _)
                       dot_mask_plane_0_blank) identity).
  - simpl. lia.
  - simpl. lia.
Defined.

(** C10.  [get_contours_coords] never writes to the caller's mask: when the
    call finishes, with a result or with an exception, the array at the
    address of [roi_data.mask] is the one that was there before, with or
    without the pin-hole pass; and one turn of fuel is enough for the call to
    finish. *)
Theorem get_contours_coords_keeps_mask
    (find_contours : array2 -> result (list contour))
    (line_aa : Z -> Z -> Z -> Z -> list Z * list Z * list R)
    (roi_data : ROIData) (series_data : list Dataset) (h : heap) (m : array3)
    (Hmask : h !! mask roi_data = Some (Obj3 m)) :
  (forall fuel res h',
     get_contours_coords find_contours line_aa fuel roi_data series_data h
     = Some (res, h') ->
     h' !! mask roi_data = Some (Obj3 m)) /\
  (forall fuel,
     terminates
       (get_contours_coords find_contours line_aa (S fuel) roi_data series_data) h).
Proof.
  split.
  - intros fuel res h' Hrun.
    destruct (frames_get_contours_coords find_contours line_aa h fuel roi_data
                series_data h res h' (reflexivity h) Hrun) as [Hpre _].
    eapply prefix_lookup_Some; eauto.
  - intros fuel. apply get_contours_coords_terminates.
Qed.

Lemma get_contours_coords_keeps_mask_witness :
  exists res h',
    get_contours_coords one_contour line_aa_leftward 1 roi_pin_hole two_slices
      [Obj3 dot_mask] = Some (res, h') /\
    h' !! 0%nat = Some (Obj3 dot_mask).
Proof.
  destruct (get_contours_coords_keeps_mask one_contour line_aa_leftward
              roi_pin_hole two_slices [Obj3 dot_mask] dot_mask eq_refl)
    as [Hkeep Hterm].
  destruct (Hterm 0%nat) as (res & h' & Hrun).
  exists res, h'. split; [exact Hrun | exact (Hkeep _ _ _ Hrun)].
Defined.

(** * Further properties of the code *)

(** ** Loading a series *)

Lemma sort_keys_accepted (l : list Dataset) :
  Forall (fun s => ~ slice_rejected s) l ->
  sort_keys l = Ok (map (fun s => (projection s, s)) l).
Proof.
  induction 1 as [|s l Hs _ IH]; simpl; [reflexivity|].
  rewrite (get_slice_position_accepted _ Hs), IH. reflexivity.
Qed.

Lemma sort_keys_rejected (l : list Dataset) :
  Exists slice_rejected l -> sort_keys l = Raise InvalidGeometry.
Proof.
  induction l as [|s l IH]; intros H; [inversion H|]. simpl.
  unfold get_slice_position.
  destruct (get_slice_directions_spec s) as [[E _] | [E Hacc]]; rewrite E.
  - reflexivity.
  - run_result. rewrite IH; [reflexivity|].
    inversion H; subst; [contradiction | assumption].
Qed.

Lemma rejected_or_all_accepted (l : list Dataset) :
  Exists slice_rejected l \/ Forall (fun s => ~ slice_rejected s) l.
Proof.
  induction l as [|s l [IH | IH]].
  - right. constructor.
  - left. now constructor 2.
  - destruct (get_slice_directions_spec s) as [[_ H] | [_ H]].
    + left. now constructor.
    + right. now constructor.
Qed.

Lemma insert_keyed_perm (x : R * Dataset) (l : list (R * Dataset)) :
  Permutation (insert_keyed x l) (x :: l).
Proof.
  induction l as [|y ys IH]; simpl; [reflexivity|].
  destruct (Rlt_dec (fst y) (fst x)); [|reflexivity].
  rewrite IH. apply perm_swap.
Qed.

Lemma sort_keyed_perm (l : list (R * Dataset)) : Permutation (sort_keyed l) l.
Proof.
  induction l as [|x l IH]; simpl; [reflexivity|].
  rewrite insert_keyed_perm. now constructor.
Qed.

Lemma insert_keyed_sorted (x : R * Dataset) (l : list (R * Dataset)) :
  StronglySorted (fun a b => fst a <= fst b) l ->
  StronglySorted (fun a b => fst a <= fst b) (insert_keyed x l).
Proof.
  induction 1 as [|y ys Hs IH Hy]; simpl.
  - repeat constructor.
  - destruct (Rlt_dec (fst y) (fst x)) as [Hlt | Hge].
    + constructor; [exact IH|].
      apply List.Forall_forall. intros z Hz.
      apply (Permutation_in _ (insert_keyed_perm x ys)) in Hz.
      destruct Hz as [<- | Hz]; [lra|].
      rewrite List.Forall_forall in Hy. now apply Hy.
    + constructor; [now constructor|].
      constructor; [lra|].
      apply List.Forall_forall. intros z Hz. rewrite List.Forall_forall in Hy.
      specialize (Hy z Hz). lra.
Qed.

Lemma sort_keyed_sorted (l : list (R * Dataset)) :
  StronglySorted (fun a b => fst a <= fst b) (sort_keyed l).
Proof.
  induction l as [|x l IH]; simpl; [constructor|].
  now apply insert_keyed_sorted.
Qed.

Lemma load_sorted_keyed (loaded sorted : list Dataset) :
  load_sorted_image_series loaded = SortedSeries sorted ->
  loaded <> [] /\
  Forall (fun s => ~ slice_rejected s) loaded /\
  sorted = map snd (sort_keyed (map (fun s => (projection s, s)) loaded)).
Proof.
  unfold load_sorted_image_series. destruct loaded as [|s l]; [discriminate|].
  cbn [length Nat.eqb].
  destruct (rejected_or_all_accepted (s :: l)) as [Hrej | Hacc].
  - now rewrite (sort_keys_rejected _ Hrej).
  - rewrite (sort_keys_accepted _ Hacc). intros [= <-]. now repeat split.
Qed.

(** X1.  [load_sorted_image_series] raises "No DICOM Images found" exactly
    on an empty list of images; on a list with a slice whose orientation is
    rejected it raises the InvalidGeometry exception of the sort key; on any
    other list it returns a series. *)
Theorem load_sorted_image_series_outcome (loaded : list Dataset) :
  (loaded = [] /\ load_sorted_image_series loaded = NoImagesFound) \/
  (loaded <> [] /\ Exists slice_rejected loaded /\
   load_sorted_image_series loaded = KeyRaise InvalidGeometry) \/
  (loaded <> [] /\ Forall (fun s => ~ slice_rejected s) loaded /\
   exists sorted, load_sorted_image_series loaded = SortedSeries sorted).
Proof.
  destruct loaded as [|s l]; [left; now split|]. right.
  unfold load_sorted_image_series. cbn [length Nat.eqb].
  destruct (rejected_or_all_accepted (s :: l)) as [Hrej | Hacc].
  - left. rewrite (sort_keys_rejected _ Hrej). now repeat split.
  - right. rewrite (sort_keys_accepted _ Hacc). repeat split; eauto.
Qed.

Lemma sort_keyed_keys (l : list Dataset) :
  Forall (fun p => fst p = projection (snd p))
         (sort_keyed (map (fun s => (projection s, s)) l)).
Proof.
  apply List.Forall_forall. intros p Hp.
  apply (Permutation_in _ (sort_keyed_perm _)) in Hp.
  apply in_map_iff in Hp as (s & <- & _). reflexivity.
Qed.

Lemma sorted_by_key_snd (l : list (R * Dataset)) :
  Forall (fun p => fst p = projection (snd p)) l ->
  StronglySorted (fun a b => fst a <= fst b) l ->
  StronglySorted (fun a b => projection a <= projection b) (map snd l).
Proof.
  intros Hkeys Hs. induction Hs as [|y ys Hs IH Hy]; simpl; [constructor|].
  pose proof (Forall_inv Hkeys) as Hk. apply Forall_inv_tail in Hkeys.
  constructor; [now apply IH|].
  apply List.Forall_forall. intros z Hz. apply in_map_iff in Hz as (p & <- & Hp).
  rewrite List.Forall_forall in Hy, Hkeys.
  rewrite <- Hk, <- (Hkeys p Hp). now apply Hy.
Qed.

Lemma load_sorted_image_series_sorted_aux (loaded sorted : list Dataset) :
  load_sorted_image_series loaded = SortedSeries sorted ->
  Permutation sorted loaded /\
  StronglySorted (fun a b => projection a <= projection b) sorted /\
  Forall (fun s => ~ slice_rejected s) sorted.
Proof.
  intros Hload. apply load_sorted_keyed in Hload as (_ & Hacc & ->).
  assert (Hperm : Permutation
            (map snd (sort_keyed (map (fun s => (projection s, s)) loaded))) loaded).
  { rewrite sort_keyed_perm, map_map. simpl. now rewrite map_id. }
  repeat split.
  - exact Hperm.
  - apply sorted_by_key_snd; [apply sort_keyed_keys | apply sort_keyed_sorted].
  - apply List.Forall_forall. intros s Hs. rewrite List.Forall_forall in Hacc.
    apply Hacc. now apply (Permutation_in _ Hperm).
Qed.

(** X2.  A series that [load_sorted_image_series] returns holds the loaded
    slices, each as often as it was loaded, in ascending order of the
    projection of their position onto their slice normal. *)
Theorem load_sorted_image_series_sorted (loaded sorted : list Dataset)
    (Hload : load_sorted_image_series loaded = SortedSeries sorted) :
  Permutation sorted loaded /\
  StronglySorted (fun a b => projection a <= projection b) sorted.
Proof.
  apply load_sorted_keyed in Hload as (_ & _ & ->). split.
  - rewrite sort_keyed_perm, map_map. simpl. now rewrite map_id.
  - apply sorted_by_key_snd; [apply sort_keyed_keys | apply sort_keyed_sorted].
Qed.

Lemma shuffled_slices_accepted :
  Forall (fun s => ~ slice_rejected s) shuffled_slices.
Proof.
  repeat constructor; apply orthonormal_not_rejected, axial_slice_orthonormal.
Qed.

Lemma shuffled_slices_load :
  exists sorted, load_sorted_image_series shuffled_slices = SortedSeries sorted.
Proof.
  unfold load_sorted_image_series. cbn [length shuffled_slices Nat.eqb].
  rewrite (sort_keys_accepted _ shuffled_slices_accepted). eauto.
Qed.

Lemma load_sorted_image_series_sorted_witness :
  exists sorted,
    Permutation sorted shuffled_slices /\
    StronglySorted (fun a b => projection a <= projection b) sorted.
Proof.
  destruct shuffled_slices_load as [sorted Hload].
  exists sorted. exact (load_sorted_image_series_sorted _ _ Hload).
Defined.

Lemma insert_keyed_stable (k : R) (x : R * Dataset) (l : list (R * Dataset)) :
  fst x = projection (snd x) ->
  Forall (fun p => fst p = projection (snd p)) l ->
  with_projection k (map snd (insert_keyed x l)) =
  with_projection k (map snd (x :: l)).
Proof.
  intros Hx Hl. induction Hl as [|y ys Hy Hys IH]; [reflexivity|].
  simpl. destruct (Rlt_dec (fst y) (fst x)) as [Hlt | _]; [|reflexivity].
  simpl. unfold with_projection in *. simpl in *. rewrite IH.
  rewrite Hx, Hy in Hlt.
  destruct (Req_dec_T (projection (snd y)) k), (Req_dec_T (projection (snd x)) k);
    try reflexivity.
  lra.
Qed.

Lemma sort_keyed_stable (k : R) (l : list (R * Dataset)) :
  Forall (fun p => fst p = projection (snd p)) l ->
  with_projection k (map snd (sort_keyed l)) = with_projection k (map snd l).
Proof.
  induction 1 as [|x l Hx Hl IH]; [reflexivity|]. simpl.
  rewrite insert_keyed_stable.
  - simpl. unfold with_projection in *. simpl. now rewrite IH.
  - exact Hx.
  - apply List.Forall_forall. intros p Hp.
    apply (Permutation_in _ (sort_keyed_perm _)) in Hp.
    rewrite List.Forall_forall in Hl. now apply Hl.
Qed.

(** X3.  The sort of [load_sorted_image_series] is stable: slices with the
    same projection come out in the order in which they were loaded. *)
Theorem load_sorted_image_series_stable (loaded sorted : list Dataset) (k : R)
    (Hload : load_sorted_image_series loaded = SortedSeries sorted) :
  with_projection k sorted = with_projection k loaded.
Proof.
  apply load_sorted_keyed in Hload as (_ & _ & ->).
  rewrite sort_keyed_stable.
  - rewrite map_map. simpl. now rewrite map_id.
  - apply List.Forall_forall. intros p Hp.
    apply in_map_iff in Hp as (s & <- & _). reflexivity.
Qed.

Lemma load_sorted_image_series_stable_witness :
  exists sorted,
    with_projection 3 sorted = with_projection 3 shuffled_slices.
Proof.
  destruct shuffled_slices_load as [sorted Hload].
  exists sorted. exact (load_sorted_image_series_stable _ _ 3 Hload).
Defined.

Lemma last_of_in {A} (l : list A) (y : A) : last_of l = Ok y -> In y l.
Proof.
  unfold last_of. destruct (rev l) as [|w ws] eqn:E; [discriminate|].
  intros [= <-]. apply in_rev. rewrite E. now left.
Qed.

(** X4.  On a series that [load_sorted_image_series] returned,
    [get_spacing_between_slices] does not raise and its value is not
    negative: the slices are stacked in ascending order. *)
Theorem loaded_series_spacing_nonnegative (loaded sorted : list Dataset)
    (Hload : load_sorted_image_series loaded = SortedSeries sorted) :
  exists spacing, get_spacing_between_slices sorted = Ok spacing /\ 0 <= spacing.
Proof.
  destruct (load_sorted_image_series_sorted_aux loaded sorted Hload)
    as (Hperm & Hsorted & Hacc).
  destruct sorted as [|s0 rest].
  - exists 1. split; [reflexivity | lra].
  - destruct rest as [|s1 rest']; [exists 1; split; [reflexivity | lra]|].
    destruct (last_of (s0 :: s1 :: rest')) as [sl|e] eqn:Hlast.
    2:{ exfalso. revert Hlast. unfold last_of. simpl.
        destruct ((rev rest' ++ [s1]) ++ [s0]) eqn:E; [|discriminate].
        now apply app_eq_nil in E as [_ E]. }
    pose proof (last_of_in _ _ Hlast) as Hin.
    rewrite List.Forall_forall in Hacc.
    assert (H0 : ~ slice_rejected s0) by (apply Hacc; now left).
    assert (Hl : ~ slice_rejected sl) by now apply Hacc.
    assert (Hlen : (2 <= length (s0 :: s1 :: rest'))%nat) by (simpl; lia).
    rewrite (get_spacing_multi (s0 :: s1 :: rest') s0 sl (eq_refl (Ok s0)) Hlast
               H0 Hl Hlen).
    eexists. split; [reflexivity|].
    assert (Hle : projection s0 <= projection sl).
    { destruct Hin as [<- | Hin]; [lra|].
      apply StronglySorted_inv in Hsorted as [_ Hall].
      rewrite List.Forall_forall in Hall. now apply Hall. }
    apply Rmult_le_pos; [lra|].
    apply Rlt_le, Rinv_0_lt_compat, lt_0_INR. simpl. lia.
Qed.

Lemma loaded_series_spacing_nonnegative_witness :
  exists sorted spacing,
    load_sorted_image_series shuffled_slices = SortedSeries sorted /\
    get_spacing_between_slices sorted = Ok spacing /\ 0 <= spacing.
Proof.
  destruct shuffled_slices_load as [sorted Hload].
  destruct (loaded_series_spacing_nonnegative _ _ Hload) as (spacing & Hs & Hpos).
  exists sorted, spacing. now repeat split.
Defined.

(** ** Geometry resolver and transform builder *)

Lemma first_of_rev {A} (l : list A) : first_of (rev l) = last_of l.
Proof. reflexivity. Qed.

Lemma last_of_rev {A} (l : list A) : last_of (rev l) = first_of l.
Proof. unfold last_of. now rewrite rev_involutive. Qed.

(** X5.  The spacing between slices is directional: on a series of at least
    two slices whose first and last slice pass the orientation test, reading
    the series in reverse order negates the spacing. *)
Theorem get_spacing_between_slices_reversed
    (series_data : list Dataset) (s0 sl : Dataset)
    (Hfirst : first_of series_data = Ok s0)
    (Hlast : last_of series_data = Ok sl)
    (Hacc0 : ~ slice_rejected s0)
    (Haccl : ~ slice_rejected sl)
    (Hlen : (2 <= length series_data)%nat) :
  exists spacing,
    get_spacing_between_slices series_data = Ok spacing /\
    get_spacing_between_slices (rev series_data) = Ok (- spacing).
Proof.
  eexists. split.
  - apply (get_spacing_multi series_data s0 sl Hfirst Hlast Hacc0 Haccl Hlen).
  - rewrite (get_spacing_multi (rev series_data) sl s0).
    + rewrite length_rev. f_equal. unfold Rdiv. ring.
    + rewrite first_of_rev. exact Hlast.
    + rewrite last_of_rev. exact Hfirst.
    + exact Haccl.
    + exact Hacc0.
    + rewrite length_rev. exact Hlen.
Qed.

Lemma two_slices_accepted (uid : string) (z : R) : ~ slice_rejected (axial_slice uid z).
Proof. apply orthonormal_not_rejected, axial_slice_orthonormal. Qed.

Lemma get_spacing_between_slices_reversed_witness :
  exists spacing,
    get_spacing_between_slices two_slices = Ok spacing /\
    get_spacing_between_slices (rev two_slices) = Ok (- spacing).
Proof.
  apply (get_spacing_between_slices_reversed two_slices
           (axial_slice "a" 0) (axial_slice "b" 3) eq_refl eq_refl
           (two_slices_accepted "a" 0) (two_slices_accepted "b" 3)).
  simpl. lia.
Defined.

Lemma orthonormal_normal_unit (s : Dataset) :
  orthonormal s -> dot (slice_normal s) (slice_normal s) = 1.
Proof.
  intros (Hr & Hc & Hrc). unfold slice_normal.
  rewrite cross_dot_cross, Hr, Hc, Hrc. ring.
Qed.

(** X6.  On a stack of [n >= 2] slices with one orthonormal orientation whose
    last position is the first position moved by [(n - 1) * d] along the
    slice normal, [get_spacing_between_slices] returns [d]. *)
Theorem get_spacing_between_slices_uniform
    (series_data : list Dataset) (s0 sl : Dataset) (d : R)
    (Hfirst : first_of series_data = Ok s0)
    (Hlast : last_of series_data = Ok sl)
    (Hlen : (2 <= length series_data)%nat)
    (Horth : orthonormal s0)
    (Hsame : ImageOrientationPatient sl = ImageOrientationPatient s0)
    (Hpos : ImagePositionPatient sl =
            vadd_scaled (ImagePositionPatient s0)
                        (INR (length series_data - 1) * d) (slice_normal s0)) :
  get_spacing_between_slices series_data = Ok d.
Proof.
  assert (Horthl : orthonormal sl) by (unfold orthonormal; now rewrite Hsame).
  rewrite (get_spacing_multi series_data s0 sl Hfirst Hlast
             (orthonormal_not_rejected _ Horth)
             (orthonormal_not_rejected _ Horthl) Hlen).
  f_equal.
  assert (Hn : INR (length series_data - 1) <> 0).
  { apply not_0_INR. lia. }
  pose proof (orthonormal_normal_unit _ Horth) as Hunit.
  assert (Hproj : projection sl - projection s0
                  = INR (length series_data - 1) * d
                    * dot (slice_normal s0) (slice_normal s0)).
  { unfold projection. replace (slice_normal sl) with (slice_normal s0)
      by (unfold slice_normal; now rewrite Hsame).
    rewrite Hpos. unfold vadd_scaled, dot. simpl. ring. }
  rewrite Hproj, Hunit. now field.
Qed.

Lemma get_spacing_between_slices_uniform_witness :
  get_spacing_between_slices two_slices = Ok 3.
Proof.
  apply (get_spacing_between_slices_uniform two_slices
           (axial_slice "a" 0) (axial_slice "b" 3) 3 eq_refl eq_refl).
  - simpl. lia.
  - apply axial_slice_orthonormal.
  - reflexivity.
  - unfold vadd_scaled, slice_normal, cross. simpl. f_equal; ring.
Defined.

Lemma last_of_cons {A} (x : A) (l : list A) : exists y, last_of (x :: l) = Ok y.
Proof.
  unfold last_of. simpl. destruct (rev l ++ [x]) as [|y ys] eqn:E; [|eauto].
  now apply app_eq_nil in E as [_ E].
Qed.

Lemma get_slice_position_rejected (s : Dataset) :
  slice_rejected s -> get_slice_position s = Raise InvalidGeometry.
Proof.
  intros H. unfold get_slice_position.
  destruct (get_slice_directions_spec s) as [[E _] | [_ Hacc]];
    [now rewrite E | contradiction].
Qed.

Lemma get_slice_directions_rejected (s : Dataset) :
  slice_rejected s -> get_slice_directions s = Raise InvalidGeometry.
Proof.
  intros H.
  destruct (get_slice_directions_spec s) as [[E _] | [_ Hacc]];
    [exact E | contradiction].
Qed.

Lemma slice_rejected_dec (s : Dataset) : slice_rejected s \/ ~ slice_rejected s.
Proof.
  destruct (get_slice_directions_spec s) as [[_ H] | [_ H]]; [now left | now right].
Qed.

(** X7.  The two matrix builders fail and succeed together.  Both raise
    IndexError on an empty series; both raise InvalidGeometry when the first
    slice is rejected by the orientation test, or the last one in a series of
    at least two slices; in every other case both return a matrix. *)
Theorem transformation_matrices_outcome (series_data : list Dataset) :
  let fwd := get_pixel_to_patient_transformation_matrix series_data in
  let inv := get_patient_to_pixel_transformation_matrix series_data in
  (series_data = [] /\ fwd = Raise IndexError /\ inv = Raise IndexError) \/
  (exists s0 sl,
     first_of series_data = Ok s0 /\ last_of series_data = Ok sl /\
     (((slice_rejected s0 \/ (2 <= length series_data)%nat /\ slice_rejected sl) /\
       fwd = Raise InvalidGeometry /\ inv = Raise InvalidGeometry) \/
      (~ slice_rejected s0 /\
       ((2 <= length series_data)%nat -> ~ slice_rejected sl) /\
       exists F I, fwd = Ok F /\ inv = Ok I))).
Proof.
  intros fwd inv. subst fwd inv.
  destruct series_data as [|s0 rest]; [left; now repeat split|]. right.
  destruct (last_of_cons s0 rest) as [sl Hlast]. exists s0, sl.
  split; [reflexivity|]. split; [exact Hlast|].
  unfold get_pixel_to_patient_transformation_matrix,
    get_patient_to_pixel_transformation_matrix.
  cbn [first_of]. run_result.
  destruct (PixelSpacing s0) as [rs cs].
  destruct (slice_rejected_dec s0) as [H0 | H0].
  - left. split; [now left|].
    unfold get_spacing_between_slices. rewrite Hlast. cbn [first_of].
    destruct (Nat.ltb 1 (length (s0 :: rest))); run_result.
    + rewrite (get_slice_position_rejected _ H0). now split.
    + rewrite (get_slice_directions_rejected _ H0). now split.
  - destruct (Nat.ltb_spec 1 (length (s0 :: rest))) as [Hlen | Hlen].
    + destruct (slice_rejected_dec sl) as [Hl | Hl].
      * left. split; [right; split; [simpl in Hlen |- *; lia | exact Hl]|].
        unfold get_spacing_between_slices. rewrite Hlast. cbn [first_of].
        destruct (Nat.ltb_spec 1 (length (s0 :: rest))); [|lia]. run_result.
        rewrite (get_slice_position_accepted _ H0),
          (get_slice_position_rejected _ Hl). now split.
      * right. split; [exact H0|]. split; [intros _; exact Hl|].
        rewrite (get_spacing_multi (s0 :: rest) s0 sl eq_refl Hlast H0 Hl) by lia.
        rewrite (get_slice_directions_accepted _ H0). eauto.
    + right. split; [exact H0|]. split; [intros; simpl in *; lia|].
      unfold get_spacing_between_slices.
      destruct (Nat.ltb_spec 1 (length (s0 :: rest))); [simpl in *; lia|].
      rewrite (get_slice_directions_accepted _ H0). eauto.
Qed.

Lemma pixel_to_patient_explicit (series_data : list Dataset) (s0 : Dataset) (F : matrix) :
  first_of series_data = Ok s0 ->
  get_pixel_to_patient_transformation_matrix series_data = Ok F ->
  exists ss,
    get_spacing_between_slices series_data = Ok ss /\
    F = set_col3
          (set_col3
             (set_col3
                (set_col3 identity 0
                   (scale (fst (ImageOrientationPatient s0)) (fst (PixelSpacing s0))))
                1 (scale (snd (ImageOrientationPatient s0)) (snd (PixelSpacing s0))))
             2 (scale (slice_normal s0) ss))
          3 (ImagePositionPatient s0).
Proof.
  intros Hfirst. unfold get_pixel_to_patient_transformation_matrix.
  rewrite Hfirst. run_result. destruct (PixelSpacing s0) as [rs cs].
  destruct (get_spacing_between_slices series_data) as [ss|e]; [|discriminate].
  destruct (slice_rejected_dec s0) as [H0 | H0].
  - now rewrite (get_slice_directions_rejected _ H0).
  - rewrite (get_slice_directions_accepted _ H0). intros [= <-]. eauto.
Qed.

Lemma patient_to_pixel_explicit (series_data : list Dataset) (s0 : Dataset) (I : matrix) :
  first_of series_data = Ok s0 ->
  get_patient_to_pixel_transformation_matrix series_data = Ok I ->
  exists ss,
    get_spacing_between_slices series_data = Ok ss /\
    let linear :=
      set_row3
        (set_row3
           (set_row3 identity 0
              (vdiv (fst (ImageOrientationPatient s0)) (fst (PixelSpacing s0))))
           1 (vdiv (snd (ImageOrientationPatient s0)) (snd (PixelSpacing s0))))
        2 (vdiv (slice_normal s0) ss) in
    I = set_col3 (set_block3 identity linear) 3
          (dot_neg_transpose (ImagePositionPatient s0) linear).
Proof.
  intros Hfirst. unfold get_patient_to_pixel_transformation_matrix.
  rewrite Hfirst. run_result. destruct (PixelSpacing s0) as [rs cs].
  destruct (get_spacing_between_slices series_data) as [ss|e]; [|discriminate].
  destruct (slice_rejected_dec s0) as [H0 | H0].
  - now rewrite (get_slice_directions_rejected _ H0).
  - rewrite (get_slice_directions_accepted _ H0). intros [= <-]. eauto.
Qed.

(** X8.  The pixel-to-patient matrix sends the pixel index (i, j, k) to the
    position of the first slice moved by [i] row spacings along the row
    direction, [j] column spacings along the column direction and [k] slice
    spacings along the slice normal; the index (0, 0, 0) is sent to
    ImagePositionPatient itself. *)
Theorem pixel_to_patient_formula
    (series_data : list Dataset) (s0 : Dataset) (F : matrix)
    (Hfirst : first_of series_data = Ok s0)
    (Hbuild : get_pixel_to_patient_transformation_matrix series_data = Ok F) :
  exists slice_spacing,
    get_spacing_between_slices series_data = Ok slice_spacing /\
    (forall i j k,
       apply_transformation_to_3d_points [V3 i j k] F =
       [vadd_scaled
          (vadd_scaled
             (vadd_scaled (ImagePositionPatient s0)
                (i * fst (PixelSpacing s0)) (fst (ImageOrientationPatient s0)))
             (j * snd (PixelSpacing s0)) (snd (ImageOrientationPatient s0)))
          (k * slice_spacing) (slice_normal s0)]) /\
    apply_transformation_to_3d_points [V3 0 0 0] F = [ImagePositionPatient s0].
Proof.
  destruct (pixel_to_patient_explicit _ _ _ Hfirst Hbuild) as (ss & Hss & ->).
  exists ss. split; [exact Hss|].
  destruct (ImagePositionPatient s0) as [o1 o2 o3].
  destruct (ImageOrientationPatient s0) as [[r1 r2 r3] [c1 c2 c3]] eqn:Hiop.
  unfold slice_normal. rewrite Hiop.
  split; [intros i j k|];
    unfold apply_transformation_to_3d_points, transform_point, vadd_scaled,
      set_col3, identity, scale, cross, coord; simpl; do 2 f_equal; ring.
Qed.

Lemma two_slices_pixel_to_patient :
  exists F, get_pixel_to_patient_transformation_matrix two_slices = Ok F.
Proof.
  unfold get_pixel_to_patient_transformation_matrix.
  rewrite two_slices_spacing. simpl first_of. run_result.
  rewrite (get_slice_directions_accepted _ (two_slices_accepted "a" 0)).
  eexists. reflexivity.
Qed.

Lemma pixel_to_patient_formula_witness :
  exists F,
    get_pixel_to_patient_transformation_matrix two_slices = Ok F /\
    apply_transformation_to_3d_points [V3 0 0 0] F = [V3 0 0 0].
Proof.
  destruct two_slices_pixel_to_patient as [F HF]. exists F. split; [exact HF|].
  destruct (pixel_to_patient_formula two_slices (axial_slice "a" 0) F eq_refl HF)
    as (ss & _ & _ & Horigin).
  exact Horigin.
Defined.

(** X9.  With nonzero spacings, the patient-to-pixel matrix sends the
    position of the first slice to the pixel index (0, 0, 0), whether or not
    the directions are exactly orthonormal. *)
Theorem patient_to_pixel_origin
    (series_data : list Dataset) (s0 : Dataset) (I : matrix) (slice_spacing : R)
    (Hfirst : first_of series_data = Ok s0)
    (Hbuild : get_patient_to_pixel_transformation_matrix series_data = Ok I)
    (Hrow : fst (PixelSpacing s0) <> 0)
    (Hcol : snd (PixelSpacing s0) <> 0)
    (Hspacing : get_spacing_between_slices series_data = Ok slice_spacing)
    (Hnonzero : slice_spacing <> 0) :
  apply_transformation_to_3d_points [ImagePositionPatient s0] I = [V3 0 0 0].
Proof.
  destruct (patient_to_pixel_explicit _ _ _ Hfirst Hbuild) as (ss & Hss & ->).
  destruct (ImagePositionPatient s0) as [o1 o2 o3].
  destruct (ImageOrientationPatient s0) as [[r1 r2 r3] [c1 c2 c3]] eqn:Hiop.
  unfold slice_normal. rewrite Hiop.
  unfold apply_transformation_to_3d_points, transform_point, set_col3, set_row3,
    set_block3, identity, dot_neg_transpose, vdiv, cross, coord; simpl.
  do 2 f_equal; ring.
Qed.

Lemma patient_to_pixel_origin_witness :
  exists I,
    get_patient_to_pixel_transformation_matrix two_slices = Ok I /\
    apply_transformation_to_3d_points [V3 0 0 0] I = [V3 0 0 0].
Proof.
  destruct two_slices_patient_to_pixel as [I HI]. exists I. split; [exact HI|].
  apply (patient_to_pixel_origin two_slices (axial_slice "a" 0) I
           ((projection (axial_slice "b" 3) - projection (axial_slice "a" 0)) / INR 1)
           eq_refl HI).
  - simpl. lra.
  - simpl. lra.
  - exact two_slices_spacing.
  - unfold projection, slice_normal, dot, cross. simpl. lra.
Defined.

(** An orthonormal pair and its cross product span the space: every vector
    is the sum of its components along the three directions. *)
Lemma orthonormal_frame_complete (r c w : vec3) :
  dot r r = 1 -> dot c c = 1 -> dot r c = 0 ->
  let n := cross r c in
  vx r * dot r w + vx c * dot c w + vx n * dot n w = vx w /\
  vy r * dot r w + vy c * dot c w + vy n * dot n w = vy w /\
  vz r * dot r w + vz c * dot c w + vz n * dot n w = vz w.
Proof.
  intros Hr Hc Hrc n.
  pose proof (cross_dot_cross r c) as Hn. rewrite Hr, Hc, Hrc in Hn.
  fold n in Hn.
  assert (Hx : vx r * dot r w + vx c * dot c w + vx n * dot n w
               = dot n n * vx w
                 - (dot c c - 1) * (dot r w * vx r)
                 - (dot r r - 1) * (dot c w * vx c)
                 + dot r c * (dot c w * vx r + dot r w * vx c)).
  { subst n. destruct r, c, w. unfold dot, cross. simpl. ring. }
  assert (Hy : vy r * dot r w + vy c * dot c w + vy n * dot n w
               = dot n n * vy w
                 - (dot c c - 1) * (dot r w * vy r)
                 - (dot r r - 1) * (dot c w * vy c)
                 + dot r c * (dot c w * vy r + dot r w * vy c)).
  { subst n. destruct r, c, w. unfold dot, cross. simpl. ring. }
  assert (Hz : vz r * dot r w + vz c * dot c w + vz n * dot n w
               = dot n n * vz w
                 - (dot c c - 1) * (dot r w * vz r)
                 - (dot r r - 1) * (dot c w * vz c)
                 + dot r c * (dot c w * vz r + dot r w * vz c)).
  { subst n. destruct r, c, w. unfold dot, cross. simpl. ring. }
  rewrite Hx, Hy, Hz, Hn, Hr, Hc, Hrc. repeat split; ring.
Qed.

Lemma reverse_round_trip_exact (r c o q : vec3) (rs cs ss : R) :
  dot r r = 1 -> dot c c = 1 -> dot r c = 0 ->
  rs <> 0 -> cs <> 0 -> ss <> 0 ->
  let F := set_col3 (set_col3 (set_col3 (set_col3 identity 0 (scale r rs))
                                        1 (scale c cs))
                              2 (scale (cross r c) ss))
                    3 o in
  let linear := set_row3 (set_row3 (set_row3 identity 0 (vdiv r rs))
                                   1 (vdiv c cs))
                         2 (vdiv (cross r c) ss) in
  let I := set_col3 (set_block3 identity linear) 3 (dot_neg_transpose o linear) in
  transform_point F (transform_point I q) = q.
Proof.
  intros Hr Hc Hrc Hrs Hcs Hss F linear I.
  set (w := V3 (vx q - vx o) (vy q - vy o) (vz q - vz o)).
  destruct (orthonormal_frame_complete r c w Hr Hc Hrc) as (Hx & Hy & Hz).
  assert (Hq : q = V3 (vx o + vx w) (vy o + vy w) (vz o + vz w)).
  { destruct q, o. subst w. simpl. f_equal; ring. }
  rewrite Hq at 2. rewrite <- Hx, <- Hy, <- Hz. clear Hx Hy Hz Hq.
  destruct r as [r1 r2 r3], c as [c1 c2 c3], o as [o1 o2 o3], q as [q1 q2 q3].
  subst w F I linear.
  unfold transform_point, set_col3, set_row3, set_block3, identity,
    dot_neg_transpose, scale, vdiv, cross, dot, coord. simpl.
  f_equal; field; repeat split; assumption.
Qed.

(** X10.  The round trip also holds in the other direction: for a series
    whose reference slice has orthonormal directions and nonzero spacings,
    mapping a patient point with the patient-to-pixel matrix and then with the
    pixel-to-patient matrix gives the point back (in exact arithmetic). *)
Theorem patient_pixel_patient_round_trip
    (series_data : list Dataset) (s0 : Dataset) (slice_spacing : R) (q : vec3)
    (Hfirst : first_of series_data = Ok s0)
    (Horth : orthonormal s0)
    (Hrow : fst (PixelSpacing s0) <> 0)
    (Hcol : snd (PixelSpacing s0) <> 0)
    (Hspacing : get_spacing_between_slices series_data = Ok slice_spacing)
    (Hnonzero : slice_spacing <> 0) :
  exists F I,
    get_pixel_to_patient_transformation_matrix series_data = Ok F /\
    get_patient_to_pixel_transformation_matrix series_data = Ok I /\
    apply_transformation_to_3d_points (apply_transformation_to_3d_points [q] I) F = [q].
Proof.
  pose proof (get_slice_directions_accepted _ (orthonormal_not_rejected _ Horth)) as Hdir.
  unfold get_pixel_to_patient_transformation_matrix,
    get_patient_to_pixel_transformation_matrix.
  rewrite Hfirst, Hspacing. run_result. rewrite Hdir.
  destruct (PixelSpacing s0) as [rs cs]. simpl in Hrow, Hcol.
  do 2 eexists. split; [reflexivity|]. split; [reflexivity|].
  destruct Horth as (Hr & Hc & Hrc).
  unfold slice_normal. now rewrite reverse_round_trip_exact.
Qed.

Lemma patient_pixel_patient_round_trip_witness :
  exists F I,
    get_pixel_to_patient_transformation_matrix two_slices = Ok F /\
    get_patient_to_pixel_transformation_matrix two_slices = Ok I /\
    apply_transformation_to_3d_points
      (apply_transformation_to_3d_points [V3 5 7 2] I) F = [V3 5 7 2].
Proof.
  apply (patient_pixel_patient_round_trip two_slices (axial_slice "a" 0)
           ((projection (axial_slice "b" 3) - projection (axial_slice "a" 0)) / INR 1)).
  - reflexivity.
  - apply axial_slice_orthonormal.
  - simpl. lra.
  - simpl. lra.
  - exact two_slices_spacing.
  - unfold projection, slice_normal, dot, cross. simpl. lra.
Defined.

(** ** Mask rasteriser *)

Lemma contour_items_fold (s : Dataset) (c : Contour) (uids : list string)
    (acc : list (list R)) :
  fold_left
    (fun slice_contour_data uid =>
       if String.eqb uid (SOPInstanceUID s)
       then slice_contour_data ++ [ContourData c]
       else slice_contour_data) uids acc
  = acc ++ flat_map
             (fun uid => if String.eqb uid (SOPInstanceUID s)
                         then [ContourData c] else []) uids.
Proof.
  revert acc. induction uids as [|u us IH]; intros acc; simpl.
  - now rewrite app_nil_r.
  - rewrite IH. destruct (String.eqb u (SOPInstanceUID s)); simpl.
    + now rewrite <- app_assoc.
    + reflexivity.
Qed.

Lemma contour_sequence_fold (s : Dataset) (contour_sequence : list Contour)
    (acc : list (list R)) :
  fold_left
    (fun slice_contour_data contour =>
       fold_left
         (fun slice_contour_data uid =>
            if String.eqb uid (SOPInstanceUID s)
            then slice_contour_data ++ [ContourData contour]
            else slice_contour_data)
         (ContourImageSequence contour) slice_contour_data)
    contour_sequence acc
  = acc ++ matching_contour_data s contour_sequence.
Proof.
  revert acc. induction contour_sequence as [|c cs IH]; intros acc;
    cbn [fold_left].
  - unfold matching_contour_data. simpl. now rewrite app_nil_r.
  - rewrite contour_items_fold, IH. unfold matching_contour_data. simpl.
    now rewrite <- app_assoc.
Qed.

(** X11.  [get_slice_contour_data] returns, in the order of the sequence,
    the data of each contour once for every item of its ContourImageSequence
    that refers to the slice; a coordinate list is in the result exactly when
    it is the data of a contour that refers to the slice. *)
Theorem get_slice_contour_data_matching
    (series_slice : Dataset) (contour_sequence : list Contour) :
  get_slice_contour_data series_slice contour_sequence =
    matching_contour_data series_slice contour_sequence /\
  forall d,
    In d (get_slice_contour_data series_slice contour_sequence) <->
    exists contour,
      In contour contour_sequence /\
      In (SOPInstanceUID series_slice) (ContourImageSequence contour) /\
      d = ContourData contour.
Proof.
  assert (E : get_slice_contour_data series_slice contour_sequence =
              matching_contour_data series_slice contour_sequence).
  { unfold get_slice_contour_data. now rewrite contour_sequence_fold. }
  split; [exact E|]. intros d. rewrite E. unfold matching_contour_data.
  rewrite in_flat_map. split.
  - intros (c & Hc & Hd). apply in_flat_map in Hd as (uid & Huid & Hd).
    destruct (String.eqb_spec uid (SOPInstanceUID series_slice)) as [-> | _];
      [|destruct Hd].
    destruct Hd as [<- | []]. eauto.
  - intros (c & Hc & Huid & ->). exists c. split; [exact Hc|].
    apply in_flat_map. exists (SOPInstanceUID series_slice). split; [exact Huid|].
    rewrite String.eqb_refl. now left.
Qed.

(** A contour that refers to the slice twice is returned twice. *)
Example get_slice_contour_data_twice :
  get_slice_contour_data (axial_slice "b" 3) contours_a_bb = [square_near; square_near].
Proof. reflexivity. Qed.

Section RasteriserOutcomes.

Variable polygon2mask : nat * nat -> polygon -> result array2.

Lemma collect_polygons_bad_length (data : list (list R)) (M : matrix) :
  Exists (fun d => (length d mod 3)%nat <> 0%nat) data ->
  forall polygons polygon_var,
    collect_polygons data M polygons polygon_var = Raise ValueError.
Proof.
  induction data as [|d data IH]; intros H polygons polygon_var; [inversion H|].
  simpl. unfold reshape_3.
  destruct (Nat.eqb_spec (length d mod 3) 0) as [Hd | Hd]; [|reflexivity].
  simpl. apply IH. inversion H; subst; [contradiction | assumption].
Qed.

Lemma lengths_decided (data : list (list R)) :
  Exists (fun d => (length d mod 3)%nat <> 0%nat) data \/
  Forall (fun d => (length d mod 3)%nat = 0%nat) data.
Proof.
  induction data as [|d data [IH | IH]].
  - right. constructor.
  - left. now constructor 2.
  - destruct (Nat.eq_dec (length d mod 3) 0%nat) as [Hd | Hd].
    + right. now constructor.
    + left. now constructor.
Qed.

Lemma get_slice_mask_cases (s : Dataset) (data : list (list R)) (M : matrix)
    (image_shape : nat * nat) :
  let out := get_slice_mask_from_slice_contour_data polygon2mask s data M image_shape in
  (data = [] /\ out = Raise UnboundLocalError) \/
  (Exists (fun d => (length d mod 3)%nat <> 0%nat) data /\ out = Raise ValueError) \/
  (exists ds d,
     data = ds ++ [d] /\
     Forall (fun d => (length d mod 3)%nat = 0%nat) data /\
     out = polygon2mask image_shape
             (to_polygon (apply_transformation_to_3d_points (rows_of_3 d) M))).
Proof.
  intros out. subst out.
  destruct data as [|d0 data]; [left; now split|]. right.
  destruct (lengths_decided (d0 :: data)) as [Hbad | Hgood].
  - left. split; [exact Hbad|].
    unfold get_slice_mask_from_slice_contour_data.
    now rewrite (collect_polygons_bad_length _ M Hbad).
  - right. destruct (exists_last (l := d0 :: data)) as (ds & d & E); [discriminate|].
    exists ds, d. split; [exact E|]. split; [exact Hgood|].
    rewrite E in *. now apply get_slice_mask_is_last_fill.
Qed.

End RasteriserOutcomes.

(** X12.  [get_slice_mask_from_slice_contour_data] raises UnboundLocalError
    on an empty list of contours, raises ValueError when the length of any
    contour, used or not, is not a multiple of 3, and in every other case
    ends as the rasteriser does on the polygon of the last contour: with its
    fill, or with the exception it raises. *)
Theorem get_slice_mask_outcome
    (polygon2mask : nat * nat -> polygon -> result array2)
    (series_slice : Dataset) (slice_contour_data : list (list R))
    (transformation_matrix : matrix) (image_shape : nat * nat) :
  let out := get_slice_mask_from_slice_contour_data polygon2mask series_slice
               slice_contour_data transformation_matrix image_shape in
  (slice_contour_data = [] /\ out = Raise UnboundLocalError) \/
  (Exists (fun d => (length d mod 3)%nat <> 0%nat) slice_contour_data /\
   out = Raise ValueError) \/
  (exists ds d,
     slice_contour_data = ds ++ [d] /\
     Forall (fun d => (length d mod 3)%nat = 0%nat) slice_contour_data /\
     out = polygon2mask image_shape
             (to_polygon (apply_transformation_to_3d_points
                            (rows_of_3 d) transformation_matrix))).
Proof. apply get_slice_mask_cases. Qed.

(** ** Series orchestrator, contours to mask *)

Lemma get_slice_position_raises (s : Dataset) (e : exn) :
  get_slice_position s = Raise e -> e = InvalidGeometry.
Proof.
  unfold get_slice_position.
  destruct (get_slice_directions_spec s) as [[E _] | [E _]]; rewrite E; run_result.
  - now intros [= <-].
  - discriminate.
Qed.

Lemma get_spacing_raises (series_data : list Dataset) (e : exn) :
  get_spacing_between_slices series_data = Raise e -> e = InvalidGeometry.
Proof.
  unfold get_spacing_between_slices.
  destruct series_data as [|s0 rest]; [discriminate|].
  destruct (Nat.ltb 1 (length (s0 :: rest))); [|discriminate].
  destruct (last_of_cons s0 rest) as [sl ->]. cbn [first_of]. run_result.
  destruct (get_slice_position s0) as [p0|e0] eqn:H0.
  - destruct (get_slice_position sl) as [pl|el] eqn:Hl; [discriminate|].
    intros [= <-]. now apply get_slice_position_raises in Hl.
  - intros [= <-]. now apply get_slice_position_raises in H0.
Qed.

Lemma patient_to_pixel_raises (series_data : list Dataset) (e : exn) :
  get_patient_to_pixel_transformation_matrix series_data = Raise e ->
  (series_data = [] /\ e = IndexError) \/ (series_data <> [] /\ e = InvalidGeometry).
Proof.
  unfold get_patient_to_pixel_transformation_matrix.
  destruct series_data as [|s0 rest]; [intros [= <-]; now left|].
  cbn [first_of]. run_result. destruct (PixelSpacing s0) as [rs cs].
  intros H. right. split; [discriminate|]. revert H.
  destruct (get_spacing_between_slices (s0 :: rest)) as [ss|e0] eqn:Hss.
  - destruct (get_slice_directions_spec s0) as [[E _] | [E _]]; rewrite E.
    + now intros [= <-].
    + discriminate.
  - intros [= <-]. now apply get_spacing_raises in Hss.
Qed.

Section SeriesMaskFacts.

Variable polygon2mask : nat * nat -> polygon -> result array2.

Lemma fill_slices_no_data (contour_sequence : list Contour) (M : matrix)
    (image_shape : nat * nat) (slices : list Dataset) :
  Forall (fun s => no_matching_contour s contour_sequence) slices ->
  forall i mask,
    fill_slices polygon2mask i slices contour_sequence M image_shape mask = Ok mask.
Proof.
  induction 1 as [|s rest Hs _ IH]; intros i mask; simpl; [reflexivity|].
  rewrite (get_slice_contour_data_no_match _ _ Hs). simpl. apply IH.
Qed.

Lemma set_plane_raises (m : array3) (i : nat) (p : array2) (e : exn) :
  set_plane m i p = Raise e ->
  (e = IndexError /\ (snd (a3_shape m) <= i)%nat) \/ e = ValueError.
Proof.
  unfold set_plane. destruct (a3_shape m) as [[d0 d1] d2]. simpl.
  destruct (Nat.ltb_spec i d2); simpl.
  - destruct (negb _); [|discriminate]. intros [= <-]. now right.
  - intros [= <-]. left. now split.
Qed.

(** Inside the planes of the mask the loop raises ValueError, or the
    exception that the rasteriser raised on the polygon of the last contour
    of one of the slices. *)
Lemma fill_slices_raises (contour_sequence : list Contour) (M : matrix)
    (image_shape : nat * nat) (slices : list Dataset) :
  forall i mask e,
    (i + length slices <= snd (a3_shape mask))%nat ->
    fill_slices polygon2mask i slices contour_sequence M image_shape mask = Raise e ->
    e = ValueError \/
    rasteriser_raises polygon2mask slices contour_sequence M image_shape e.
Proof.
  assert (Hmore : forall s rest e,
            rasteriser_raises polygon2mask rest contour_sequence M image_shape e ->
            rasteriser_raises polygon2mask (s :: rest) contour_sequence M image_shape e).
  { intros s rest e (s' & ds & d & Hin & Hd & Hr). exists s', ds, d.
    split; [now right | now split]. }
  induction slices as [|s rest IH]; intros i mask e Hlen; simpl; [discriminate|].
  simpl in Hlen.
  destruct (get_slice_contour_data s contour_sequence) as [|d ds] eqn:Hdata; simpl.
  - intros Hrun. destruct (IH (S i) mask e) as [-> | Hr]; [lia | exact Hrun | now left |].
    right. now apply Hmore.
  - destruct (get_slice_mask_cases polygon2mask s (d :: ds) M image_shape)
      as [[Hnil _] | [[_ ->] | (ds' & d' & E & _ & ->)]].
    + discriminate.
    + intros [= <-]. now left.
    + destruct (polygon2mask image_shape _) as [pl|e0] eqn:Hfill; run_result.
      * destruct (set_plane mask i pl) as [m1|e1] eqn:Hset.
        -- intros Hrun. apply set_plane_frame in Hset as [Hshape _].
           destruct (IH (S i) m1 e) as [-> | Hr];
             [rewrite Hshape; lia | exact Hrun | now left |].
           right. now apply Hmore.
        -- intros [= <-]. left.
           apply set_plane_raises in Hset as [[_ Hi] | ->]; [lia | reflexivity].
      * intros [= <-]. right. exists s, ds', d'.
        split; [now left|]. split; [congruence | exact Hfill].
Qed.

(** The plane of a slice with contour data is the mask that
    [get_slice_mask_from_slice_contour_data] returned for it; later turns of
    the loop leave it alone. *)
Lemma fill_slices_written (contour_sequence : list Contour) (M : matrix)
    (image_shape : nat * nat) (slices : list Dataset) :
  forall i mask mask',
    fill_slices polygon2mask i slices contour_sequence M image_shape mask = Ok mask' ->
    forall j s,
      nth_error slices j = Some s ->
      get_slice_contour_data s contour_sequence <> [] ->
      exists slice_mask,
        get_slice_mask_from_slice_contour_data polygon2mask s
          (get_slice_contour_data s contour_sequence) M image_shape = Ok slice_mask /\
        forall x y, a3_at mask' x y (i + j) = z2b (a2_at slice_mask x y).
Proof.
  induction slices as [|s0 rest IH]; intros i mask mask' Hrun j s Hnth Hdata;
    [destruct j; discriminate|].
  simpl in Hrun. destruct j as [|j].
  - injection Hnth as ->.
    destruct (get_slice_contour_data s contour_sequence) as [|d ds] eqn:Hd;
      [contradiction|].
    simpl in Hrun. revert Hrun. run_result.
    destruct (get_slice_mask_from_slice_contour_data _ _ _ _ _) as [pl|e];
      [|discriminate].
    destruct (set_plane mask i pl) as [m1|e] eqn:Hset; [|discriminate].
    intros Hrun. exists pl. split; [reflexivity|]. intros x y.
    apply fill_slices_frame in Hrun as [_ Hcells].
    rewrite Nat.add_0_r, Hcells by (left; lia).
    revert Hset. unfold set_plane. destruct (a3_shape mask) as [[d0 d1] d2].
    destruct (negb (Nat.ltb i d2)); [discriminate|].
    destruct (negb _); [discriminate|].
    intros [= <-]. simpl. now rewrite Nat.eqb_refl.
  - replace (i + S j)%nat with (S i + j)%nat by lia.
    destruct (negb (Nat.eqb (length (get_slice_contour_data s0 contour_sequence)) 0)).
    + revert Hrun. run_result.
      destruct (get_slice_mask_from_slice_contour_data _ _ _ _ _) as [pl|e];
        [|discriminate].
      destruct (set_plane mask i pl) as [m1|e]; [|discriminate].
      intros Hrun. exact (IH _ _ _ Hrun j s Hnth Hdata).
    + exact (IH _ _ _ Hrun j s Hnth Hdata).
Qed.

End SeriesMaskFacts.

Lemma create_series_mask_unfold
    (polygon2mask : nat * nat -> polygon -> result array2)
    (series_data : list Dataset) (contour_sequence : list Contour) (s0 : Dataset) :
  first_of series_data = Ok s0 ->
  create_series_mask_from_contour_sequence polygon2mask series_data contour_sequence =
  match get_patient_to_pixel_transformation_matrix series_data with
  | Ok M =>
      fill_slices polygon2mask 0 series_data contour_sequence M
        (Columns s0, Rows s0)
        (zeros3 (Columns s0, Rows s0, length series_data))
  | Raise e => Raise e
  end.
Proof.
  intros Hfirst.
  unfold create_series_mask_from_contour_sequence, create_empty_series_mask.
  rewrite Hfirst. reflexivity.
Qed.

(** X13.  [create_series_mask_from_contour_sequence] raises IndexError on an
    empty series.  On a series with a first slice, an exception it raises
    is InvalidGeometry, and then the matrix builder raised it, or ValueError
    (a contour whose length is not a multiple of 3, or a fill of the wrong
    shape), or the exception that the rasteriser raised on the polygon of the
    last contour of one of the slices.  The unbound variable of
    [get_slice_mask_from_slice_contour_data] is never the cause: the function
    is called for slices with contour data only. *)
Theorem create_series_mask_errors
    (polygon2mask : nat * nat -> polygon -> result array2)
    (series_data : list Dataset) (contour_sequence : list Contour) :
  (series_data = [] ->
     create_series_mask_from_contour_sequence polygon2mask series_data contour_sequence
     = Raise IndexError) /\
  (forall ref_dicom_image e,
     first_of series_data = Ok ref_dicom_image ->
     create_series_mask_from_contour_sequence polygon2mask series_data contour_sequence
     = Raise e ->
     (e = InvalidGeometry /\
      get_patient_to_pixel_transformation_matrix series_data = Raise InvalidGeometry) \/
     e = ValueError \/
     (exists M,
        get_patient_to_pixel_transformation_matrix series_data = Ok M /\
        rasteriser_raises polygon2mask series_data contour_sequence M
          (Columns ref_dicom_image, Rows ref_dicom_image) e)).
Proof.
  split; [now intros ->|].
  intros s0 e Hfirst Hraise.
  rewrite (create_series_mask_unfold _ _ _ s0 Hfirst) in Hraise.
  revert Hraise.
  destruct (get_patient_to_pixel_transformation_matrix series_data) as [M|e0] eqn:HM.
  - intros Hrun. right.
    apply fill_slices_raises in Hrun as [-> | Hr];
      [now left | right; now exists M | simpl; lia].
  - intros [= <-]. left.
    apply patient_to_pixel_raises in HM as [[-> _] | [_ ->]];
      [discriminate Hfirst | now split].
Qed.

Example truncated_contour_raises :
  create_series_mask_from_contour_sequence bounding_box_mask two_slices
    truncated_contour = Raise ValueError.
Proof.
  unfold create_series_mask_from_contour_sequence.
  destruct two_slices_patient_to_pixel as [M ->].
  reflexivity.
Qed.

(** A contour without coordinates passes the reshape and is refused by the
    rasteriser. *)
Example pointless_contour_raises :
  (forall s M image_shape,
     get_slice_mask_from_slice_contour_data bounding_box_mask s [[]] M image_shape
     = Raise ValueError) /\
  create_series_mask_from_contour_sequence bounding_box_mask two_slices
    pointless_contour = Raise ValueError.
Proof.
  split; [reflexivity|].
  unfold create_series_mask_from_contour_sequence.
  destruct two_slices_patient_to_pixel as [M ->].
  reflexivity.
Qed.

Lemma create_series_mask_errors_witness :
  create_series_mask_from_contour_sequence bounding_box_mask [] pointless_contour
  = Raise IndexError /\
  ((ValueError = InvalidGeometry /\
    get_patient_to_pixel_transformation_matrix two_slices = Raise InvalidGeometry) \/
   ValueError = ValueError \/
   (exists M,
      get_patient_to_pixel_transformation_matrix two_slices = Ok M /\
      rasteriser_raises bounding_box_mask two_slices pointless_contour M
        (Columns (axial_slice "a" 0), Rows (axial_slice "a" 0)) ValueError)).
Proof.
  split.
  - exact (proj1 (create_series_mask_errors bounding_box_mask [] pointless_contour)
             eq_refl).
  - exact (proj2 (create_series_mask_errors bounding_box_mask two_slices
                    pointless_contour)
             (axial_slice "a" 0) ValueError eq_refl (proj2 pointless_contour_raises)).
Defined.

(** X14.  When no contour refers to any slice of the series and the
    patient-to-pixel matrix can be built, the call returns the zero-filled
    mask of shape (Columns, Rows, slice count). *)
Theorem create_series_mask_without_contours
    (polygon2mask : nat * nat -> polygon -> result array2)
    (series_data : list Dataset) (contour_sequence : list Contour)
    (ref_dicom_image : Dataset) (M : matrix)
    (Hfirst : first_of series_data = Ok ref_dicom_image)
    (Hmatrix : get_patient_to_pixel_transformation_matrix series_data = Ok M)
    (Hnone : Forall (fun s => no_matching_contour s contour_sequence) series_data) :
  create_series_mask_from_contour_sequence polygon2mask series_data contour_sequence
  = Ok (zeros3 (Columns ref_dicom_image, Rows ref_dicom_image, length series_data)).
Proof.
  rewrite (create_series_mask_unfold _ _ _ _ Hfirst), Hmatrix.
  now apply fill_slices_no_data.
Qed.

Lemma create_series_mask_without_contours_witness :
  create_series_mask_from_contour_sequence bounding_box_mask two_slices []
  = Ok (zeros3 (4, 4, 2)%nat).
Proof.
  destruct two_slices_patient_to_pixel as [M HM].
  apply (create_series_mask_without_contours bounding_box_mask two_slices []
           (axial_slice "a" 0) M eq_refl HM).
  repeat constructor; intros c [].
Defined.

(** X15.  In the mask that the call returns, the plane of a slice with
    contour data is the fill that the rasteriser returned for the polygon of
    the last contour that refers to the slice, in pixel coordinates rounded
    to integers; the contours before it leave no trace. *)
Theorem create_series_mask_written_plane
    (polygon2mask : nat * nat -> polygon -> result array2)
    (series_data : list Dataset) (contour_sequence : list Contour)
    (mask : array3) (ref_dicom_image : Dataset) (M : matrix)
    (i : nat) (series_slice : Dataset) (ds : list (list R)) (d : list R)
    (Hrun : create_series_mask_from_contour_sequence polygon2mask
              series_data contour_sequence = Ok mask)
    (Hfirst : first_of series_data = Ok ref_dicom_image)
    (Hmatrix : get_patient_to_pixel_transformation_matrix series_data = Ok M)
    (Hslice : nth_error series_data i = Some series_slice)
    (Hdata : get_slice_contour_data series_slice contour_sequence = ds ++ [d]) :
  exists fill,
    polygon2mask (Columns ref_dicom_image, Rows ref_dicom_image)
      (to_polygon (apply_transformation_to_3d_points (rows_of_3 d) M)) = Ok fill /\
    forall x y, a3_at mask x y i = z2b (a2_at fill x y).
Proof.
  rewrite (create_series_mask_unfold _ _ _ _ Hfirst), Hmatrix in Hrun.
  destruct (fill_slices_written polygon2mask _ _ _ _ _ _ _ Hrun i series_slice Hslice)
    as (slice_mask & Hmask & Hcells).
  { rewrite Hdata. now destruct ds. }
  rewrite Hdata in Hmask.
  destruct (get_slice_mask_cases polygon2mask series_slice (ds ++ [d]) M
              (Columns ref_dicom_image, Rows ref_dicom_image))
    as [[Hnil _] | [[_ Hbad] | (ds' & d' & E & _ & Hfill)]].
  - now destruct ds.
  - rewrite Hbad in Hmask. discriminate.
  - apply app_inj_tail in E as [_ <-]. rewrite Hfill in Hmask.
    exists slice_mask. split; [exact Hmask | exact Hcells].
Qed.

Lemma create_series_mask_written_plane_witness :
  exists mask M fill,
    create_series_mask_from_contour_sequence bounding_box_mask two_slices
      contour_on_b = Ok mask /\
    bounding_box_mask (4, 4)%nat
      (to_polygon (apply_transformation_to_3d_points
                     (rows_of_3 square_near) M)) = Ok fill /\
    forall x y, a3_at mask x y 1 = z2b (a2_at fill x y).
Proof.
  destruct two_slices_patient_to_pixel as [M HM].
  assert (Hrun : exists mask,
             create_series_mask_from_contour_sequence bounding_box_mask
               two_slices contour_on_b = Ok mask).
  { unfold create_series_mask_from_contour_sequence. rewrite HM.
    unfold create_empty_series_mask. simpl first_of. run_result.
    eexists. reflexivity. }
  destruct Hrun as [mask Hrun].
  destruct (create_series_mask_written_plane bounding_box_mask two_slices contour_on_b
              mask (axial_slice "a" 0) M 1 (axial_slice "b" 3) [] square_near
              Hrun eq_refl HM eq_refl eq_refl) as (fill & Hfill & Hcells).
  exists mask, M, fill. split; [exact Hrun|]. split; [exact Hfill | exact Hcells].
Defined.

(** ** Coordinate lists *)

Lemma ravel_length (points : list vec3) :
  length (ravel points) = (3 * length points)%nat.
Proof. induction points as [|p ps IH]; simpl; [reflexivity|]. rewrite IH. lia. Qed.

Lemma rows_of_3_ravel (points : list vec3) : rows_of_3 (ravel points) = points.
Proof.
  induction points as [|[x y z] ps IH]; simpl; [reflexivity|]. now rewrite IH.
Qed.

Lemma ravel_rows_of_3 (n : nat) :
  forall l : list R, length l = (3 * n)%nat -> ravel (rows_of_3 l) = l.
Proof.
  induction n as [|n IH]; intros l Hlen.
  - destruct l; [reflexivity | discriminate].
  - destruct l as [|x [|y [|z l]]]; simpl in Hlen; try lia.
    simpl. rewrite IH by lia. reflexivity.
Qed.

Lemma reshape_3_ravel (points : list vec3) : reshape_3 (ravel points) = Ok points.
Proof.
  unfold reshape_3. rewrite ravel_length.
  replace ((3 * length points) mod 3)%nat with 0%nat
    by (symmetry; rewrite Nat.mul_comm; apply Nat.Div0.mod_mul).
  simpl. now rewrite rows_of_3_ravel.
Qed.

(** X16.  Flattening points with [np.ravel] and reshaping a flat list to
    rows of 3 are inverse to each other: the coordinate lists that
    [get_contours_coords] writes are accepted by the reshape of
    [get_slice_mask_from_slice_contour_data], which gives the points back, and
    every list that this reshape accepts is the flattening of its rows. *)
Theorem ravel_reshape_inverse :
  (forall points, reshape_3 (ravel points) = Ok points) /\
  (forall l points, reshape_3 l = Ok points -> ravel points = l).
Proof.
  split.
  - apply reshape_3_ravel.
  - intros l points. unfold reshape_3.
    destruct (Nat.eqb_spec (length l mod 3) 0) as [Hmod | _]; [|discriminate].
    intros [= <-]. apply (ravel_rows_of_3 (length l / 3)).
    rewrite (Nat.div_mod_eq (length l) 3) at 1. lia.
Qed.

(** ** Series orchestrator, mask to contours *)

Lemma format_contours_nonempty (i : nat) (M : matrix) (cs : list (list (R * R))) :
  Forall (fun c => c <> []) cs ->
  forall acc,
    format_contours i M cs acc =
    Ok (acc ++ map (fun c =>
                      ravel (apply_transformation_to_3d_points
                               (map (fun x => V3 (fst x) (snd x) (INR i)) c) M)) cs).
Proof.
  induction 1 as [|c cs Hc _ IH]; intros acc; simpl.
  - now rewrite app_nil_r.
  - destruct c as [|p c]; [contradiction|].
    cbn [format_contour]. run_result. rewrite IH. simpl.
    now rewrite <- app_assoc.
Qed.

Lemma dicom_contour_swapped (M : matrix) (i : nat) (c : contour) :
  ravel (apply_transformation_to_3d_points
           (map (fun x => V3 (fst x) (snd x) (INR i))
                (map (fun x => (snd x, fst x)) c)) M)
  = dicom_contour M i c.
Proof.
  unfold dicom_contour, apply_transformation_to_3d_points.
  now rewrite !map_map.
Qed.

Section PlainSlice.

Variable find_contours : array2 -> result (list contour).
Variable line_aa : Z -> Z -> Z -> Z -> list Z * list Z * list R.

Lemma slice_contours_plain_value (fuel : nat) (roi_data : ROIData) (M : matrix)
    (k : nat) (h : heap) (m : array3) (cs : list contour) :
  h !! mask roi_data = Some (Obj3 m) ->
  (k < snd (a3_shape m))%nat ->
  use_pin_hole roi_data = false ->
  plane_has_true m k ->
  find_contours (plane m k) = Ok cs ->
  cs <> [] ->
  Forall (fun c => c <> []) cs ->
  slice_contours find_contours line_aa fuel roi_data M k h
  = Some (Ok (map (dicom_contour M k) cs), h).
Proof.
  intros Hmask Hk Hpin Htrue Htrace Hne Hall.
  unfold slice_contours, view_plane. run_comp.
  rewrite Hmask. destruct (Nat.ltb_spec k (snd (a3_shape m))) as [_|]; [|lia].
  unfold load at 1. rewrite Hmask.
  destruct (Z.eqb_spec (np_sum (plane m k)) 0) as [Hz|_];
    [now apply np_sum_plane_has_true in Htrue|].
  rewrite Hpin.
  assert (Hview : load (PlaneView (mask roi_data) k) h = Some (Ok (plane m k), h))
    by (unfold load; now rewrite Hmask).
  rewrite (find_mask_contours_total _ _ _ _ _ Hview), Htrace.
  unfold validate_contours. rewrite length_map.
  destruct cs as [|c0 cs']; [contradiction|]. cbn [length Nat.eqb].
  rewrite format_contours_nonempty.
  - cbn [app]. rewrite map_map. do 3 f_equal.
    apply map_ext. intros c. apply dicom_contour_swapped.
  - clear -Hall. induction Hall as [|c cs Hc _ IH]; [constructor|].
    simpl. constructor; [|exact IH]. now destruct c.
Qed.

End PlainSlice.

(** X17.  Without the pin-hole pass, for a plane with a true cell whose
    trace finds at least one contour, each with at least one point, the
    loop body of [get_contours_coords] returns one flat coordinate list per
    traced contour, in the order of the trace: each traced point (row,
    column) of slice [k] becomes the image under the matrix of the pixel
    index (column, row, k).  The store is left as it is. *)
Theorem slice_contours_plain
    (find_contours : array2 -> result (list contour))
    (line_aa : Z -> Z -> Z -> Z -> list Z * list Z * list R)
    (fuel : nat) (roi_data : ROIData) (M : matrix) (k : nat) (h : heap)
    (m : array3) (cs : list contour)
    (Hmask : h !! mask roi_data = Some (Obj3 m))
    (Hplane : (k < snd (a3_shape m))%nat)
    (Hplain : use_pin_hole roi_data = false)
    (Htrue : plane_has_true m k)
    (Htrace : find_contours (plane m k) = Ok cs)
    (Hfound : cs <> [])
    (Hpoints : Forall (fun c => c <> []) cs) :
  slice_contours find_contours line_aa fuel roi_data M k h
  = Some (Ok (map (dicom_contour M k) cs), h).
Proof. now apply (slice_contours_plain_value _ _ _ _ _ _ _ m). Qed.

Lemma dot_mask_plane_1_true : plane_has_true dot_mask 1.
Proof. exists 1%nat, 1%nat. simpl. repeat split; lia. Qed.

Lemma slice_contours_plain_witness :
  slice_contours square_contour line_aa_leftward 0 roi_plain identity 1 [Obj3 dot_mask]
  = Some (Ok (map (dicom_contour identity 1)
                  [[(1 / 2, 1); (1, 3 / 2); (3 / 2, 1); (1, 1 / 2)]]),
          [Obj3 dot_mask]).
Proof.
  apply (slice_contours_plain square_contour line_aa_leftward 0 roi_plain identity 1
           [Obj3 dot_mask] dot_mask).
  - reflexivity.
  - simpl. lia.
  - reflexivity.
  - exact dot_mask_plane_1_true.
  - reflexivity.
  - discriminate.
  - repeat constructor; discriminate.
Defined.

(** Every traced point of a contour, written with the stored
    pixel-to-patient matrix and read back with the stored patient-to-pixel
    matrix. *)
Lemma float32_contour_read_back (s0 : Dataset) (slice_spacing : R) (i : nat)
    (F I : matrix) (c : contour) :
  (forall p,
     let q := transform_point I (transform_point F p) in
     let bound := float32_round_trip_error * physical_extent s0 slice_spacing p in
     Rabs (vx q - vx p) <= bound / fst (PixelSpacing s0) /\
     Rabs (vy q - vy p) <= bound / snd (PixelSpacing s0) /\
     Rabs (vz q - vz p) <= bound / Rabs slice_spacing) ->
  Forall2 (fun x q =>
             let pixel := V3 (snd x) (fst x) (INR i) in
             let bound :=
               float32_round_trip_error * physical_extent s0 slice_spacing pixel in
             Rabs (vx q - snd x) <= bound / fst (PixelSpacing s0) /\
             Rabs (vy q - fst x) <= bound / snd (PixelSpacing s0) /\
             Rabs (vz q - INR i) <= bound / Rabs slice_spacing)
          c (apply_transformation_to_3d_points
               (map (fun x => transform_point F (V3 (snd x) (fst x) (INR i))) c) I).
Proof.
  intros Hpoint. induction c as [|x c IH]; simpl; constructor; [|exact IH].
  exact (Hpoint (V3 (snd x) (fst x) (INR i))).
Qed.

(** A coordinate read back within less than half a pixel of an integer is
    rounded to that integer. *)
Lemma astype_int32_np_around (y : R) (n : Z) :
  Rabs (y - IZR n) < 1 / 2 -> (Z.abs n <= int32_max)%Z ->
  astype_int32 (np_around y) = n.
Proof.
  intros Hy Hn. rewrite (np_around_unique y n Hy).
  apply astype_int32_fits. unfold int32_min, int32_max in *. lia.
Qed.

Lemma polygon_recovers_integers (s0 : Dataset) (slice_spacing : R) (i : nat)
    (c : contour) (qs : list vec3) :
  Forall2 (fun x q =>
             let pixel := V3 (snd x) (fst x) (INR i) in
             let bound :=
               float32_round_trip_error * physical_extent s0 slice_spacing pixel in
             Rabs (vx q - snd x) <= bound / fst (PixelSpacing s0) /\
             Rabs (vy q - fst x) <= bound / snd (PixelSpacing s0) /\
             Rabs (vz q - INR i) <= bound / Rabs slice_spacing)
          c qs ->
  Forall2 (fun x v =>
             let pixel := V3 (snd x) (fst x) (INR i) in
             let bound :=
               float32_round_trip_error * physical_extent s0 slice_spacing pixel in
             (forall n : Z,
                snd x = IZR n -> (Z.abs n <= int32_max)%Z ->
                bound / fst (PixelSpacing s0) < 1 / 2 -> fst v = n) /\
             (forall n : Z,
                fst x = IZR n -> (Z.abs n <= int32_max)%Z ->
                bound / snd (PixelSpacing s0) < 1 / 2 -> snd v = n))
          c (to_polygon qs).
Proof.
  intros Hback. unfold to_polygon.
  induction Hback as [|x q c' qs' [Hx [Hy _]] _ IH]; simpl; constructor; [|exact IH].
  simpl. split; intros n Hn Hrange Htol.
  - apply astype_int32_np_around; [|exact Hrange]. rewrite <- Hn. lra.
  - apply astype_int32_np_around; [|exact Hrange]. rewrite <- Hn. lra.
Qed.

(** X18.  With the two matrices as they are stored in float32 (orthonormal
    directions, positive pixel spacings, a nonzero spacing between slices,
    entries in the normal range), what [get_contours_coords] writes for a
    traced contour of slice [i] is read back by the contours-to-mask path as
    follows: the reshape accepts the list; the patient-to-pixel matrix gives,
    for each traced point (row, column), pixel coordinates within
    [1.2e-7 * extent / spacing] of (column, row, i), row and column
    exchanged; and where that tolerance is below half a pixel, a column (a
    row) that is an integer within the range of int32 is the first (the
    second) coordinate of the polygon vertex.  A coordinate halfway between
    two integers is on the rounding boundary and not determined by this. *)
Theorem contour_round_trip
    (series_data : list Dataset) (s0 : Dataset) (slice_spacing : R)
    (i : nat) (c : contour)
    (Hfirst : first_of series_data = Ok s0)
    (Horth : orthonormal s0)
    (Hrow : 0 < fst (PixelSpacing s0))
    (Hcol : 0 < snd (PixelSpacing s0))
    (Hspacing : get_spacing_between_slices series_data = Ok slice_spacing)
    (Hnonzero : slice_spacing <> 0)
    (Hstored : float32_storable s0 slice_spacing) :
  exists F I points,
    get_pixel_to_patient_transformation_matrix_float32 series_data = Ok F /\
    get_patient_to_pixel_transformation_matrix_float32 series_data = Ok I /\
    reshape_3 (dicom_contour F i c) = Ok points /\
    Forall2 (fun x q =>
               let pixel := V3 (snd x) (fst x) (INR i) in
               let bound :=
                 float32_round_trip_error * physical_extent s0 slice_spacing pixel in
               Rabs (vx q - snd x) <= bound / fst (PixelSpacing s0) /\
               Rabs (vy q - fst x) <= bound / snd (PixelSpacing s0) /\
               Rabs (vz q - INR i) <= bound / Rabs slice_spacing)
            c (apply_transformation_to_3d_points points I) /\
    Forall2 (fun x v =>
               let pixel := V3 (snd x) (fst x) (INR i) in
               let bound :=
                 float32_round_trip_error * physical_extent s0 slice_spacing pixel in
               (forall n : Z,
                  snd x = IZR n -> (Z.abs n <= int32_max)%Z ->
                  bound / fst (PixelSpacing s0) < 1 / 2 -> fst v = n) /\
               (forall n : Z,
                  fst x = IZR n -> (Z.abs n <= int32_max)%Z ->
                  bound / snd (PixelSpacing s0) < 1 / 2 -> snd v = n))
            c (to_polygon (apply_transformation_to_3d_points points I)).
Proof.
  destruct (float32_builders series_data s0 slice_spacing Hfirst
              (orthonormal_not_rejected _ Horth) Hspacing) as [HF HI].
  do 3 eexists. split; [exact HF|]. split; [exact HI|].
  split; [apply reshape_3_ravel|].
  match goal with
  | |- Forall2 _ _ (apply_transformation_to_3d_points _ ?I) /\ _ =>
      pose proof (float32_contour_read_back s0 slice_spacing i _ I c
                    (fun p => float32_round_trip_point s0 slice_spacing p
                                Horth Hrow Hcol Hnonzero Hstored)) as Hback
  end.
  split; [exact Hback | now apply polygon_recovers_integers].
Qed.

Lemma contour_round_trip_witness :
  exists F I points a b,
    get_pixel_to_patient_transformation_matrix_float32 two_slices = Ok F /\
    get_patient_to_pixel_transformation_matrix_float32 two_slices = Ok I /\
    reshape_3 (dicom_contour F 1 [(1 / 2, 1); (1, 3 / 2)]) = Ok points /\
    to_polygon (apply_transformation_to_3d_points points I) = [(1, a); (b, 1)]%Z.
Proof.
  destruct (contour_round_trip two_slices (axial_slice "a" 0)
              ((projection (axial_slice "b" 3) - projection (axial_slice "a" 0)) / INR 1)
              1 [(1 / 2, 1); (1, 3 / 2)] eq_refl (axial_slice_orthonormal "a" 0))
    as (F & I & points & HF & HI & Hpoints & _ & Hpoly).
  - simpl. lra.
  - simpl. lra.
  - exact two_slices_spacing.
  - unfold projection, slice_normal, dot, cross. simpl. lra.
  - exact two_slices_storable.
  - assert (Hsmall : forall x y,
              float32_round_trip_error
              * physical_extent (axial_slice "a" 0)
                  ((projection (axial_slice "b" 3) - projection (axial_slice "a" 0))
                   / INR 1)
                  (V3 x y (INR 1)) / 1 < 1 / 2 <->
              12 / 100000000 * (Rabs x + Rabs y + 3) < 1 / 2).
    { intros x y. unfold float32_round_trip_error, physical_extent, projection,
        slice_normal, dot, cross. simpl.
      rewrite ?Rabs_R0, ?Rabs_R1, ?(Rabs_right (_ / 1)) by lra. split; lra. }
    apply Forall2_cons_inv_l in Hpoly as (v1 & vs1 & [Hcolumn _] & Hrest & Evs).
    apply Forall2_cons_inv_l in Hrest as (v2 & vs2 & [_ Hrow] & Hnil & Evs1).
    apply Forall2_nil_inv_l in Hnil. subst vs2 vs1.
    assert (E1 : fst v1 = 1%Z).
    { apply Hcolumn; [reflexivity | unfold int32_max; simpl; lia |].
      apply Hsmall. simpl. rewrite Rabs_R1, (Rabs_right (1 / 2)) by lra. lra. }
    assert (E2 : snd v2 = 1%Z).
    { apply Hrow; [reflexivity | unfold int32_max; simpl; lia |].
      apply Hsmall. simpl. rewrite Rabs_R1, (Rabs_right (3 / 2)) by lra. lra. }
    exists F, I, points, (snd v1), (fst v2).
    split; [exact HF|]. split; [exact HI|]. split; [exact Hpoints|].
    rewrite Evs. destruct v1, v2. simpl in E1, E2. now subst.
Defined.

(** Half a pixel is not recovered.  With the pixel spacing 0.7 the stored
    0.7 times the stored 1/0.7 is above 1: the column 1/2 is read back above
    1/2 and rounded to 1, where the column 1/2 itself rounds to 0. *)
Example half_pixel_not_recovered :
  let back := 1 / 2 * float32 (7 / 10) * float32 (1 / (7 / 10)) in
  float32 (7 / 10) = 11744051 / 16777216 /\
  float32 (1 / (7 / 10)) = 11983726 / 8388608 /\
  1 / 2 < back /\
  np_around back = 1%Z /\
  np_around (1 / 2) = 0%Z.
Proof.
  assert (E1 : float32 (7 / 10) = 11744051 / 16777216).
  { rewrite (float32_eval (7 / 10) (-1) 11744051); [| lia | |].
    - eval_powerRZ. lra.
    - rewrite Rabs_right by lra. eval_powerRZ. lra.
    - eval_powerRZ. apply Rabs_def1; lra. }
  assert (E2 : float32 (1 / (7 / 10)) = 11983726 / 8388608).
  { rewrite (float32_eval (1 / (7 / 10)) 0 11983726); [| lia | |].
    - eval_powerRZ. lra.
    - rewrite Rabs_right by lra. eval_powerRZ. lra.
    - eval_powerRZ. apply Rabs_def1; lra. }
  cbv zeta. rewrite E1, E2.
  split; [reflexivity|]. split; [reflexivity|]. split; [lra|]. split.
  - apply np_around_unique. apply Rabs_def1; lra.
  - destruct (Int_part_frac_part_spec (1 / 2) 0 (1 / 2)) as [Hi Hf]; [lra | lra |].
    unfold np_around. rewrite <- Hi, <- Hf.
    destruct (Rlt_dec (1 / 2) (1 / 2)); [lra | reflexivity].
Qed.

Section OutputShape.

Variable find_contours : array2 -> result (list contour).
Variable line_aa : Z -> Z -> Z -> Z -> list Z * list Z * list R.

Lemma slice_contours_ok_index (fuel : nat) (roi_data : ROIData) (M : matrix)
    (i : nat) (h h1 : heap) (m : array3) (cs : list (list R)) :
  h !! mask roi_data = Some (Obj3 m) ->
  slice_contours find_contours line_aa fuel roi_data M i h = Some (Ok cs, h1) ->
  (i < snd (a3_shape m))%nat.
Proof.
  intros Hmask. unfold slice_contours, view_plane. run_comp. rewrite Hmask.
  destruct (Nat.ltb_spec i (snd (a3_shape m))) as [Hlt | _]; [intros _; exact Hlt|].
  discriminate.
Qed.

Lemma contours_loop_length (fuel : nat) (roi_data : ROIData) (M : matrix)
    (h0 : heap) (m : array3) :
  h0 !! mask roi_data = Some (Obj3 m) ->
  forall slices i acc h out h',
    h0 `prefix_of` h ->
    contours_loop find_contours line_aa fuel roi_data M i slices acc h
    = Some (Ok out, h') ->
    length out = (length acc + length slices)%nat /\
    (slices <> [] -> (i + length slices <= snd (a3_shape m))%nat).
Proof.
  intros Hmask.
  induction slices as [|s rest IH]; intros i acc h out h' Hpre Hrun;
    simpl in Hrun; run_comp.
  - injection Hrun as <- <-. simpl. split; [lia | congruence].
  - destruct (slice_contours _ _ _ _ _ _ h) as [[[cs|e] h1]|] eqn:Hslice;
      try discriminate.
    pose proof (prefix_lookup_Some _ _ _ _ Hmask Hpre) as Hm.
    pose proof (slice_contours_ok_index _ _ _ _ _ _ _ _ Hm Hslice) as Hi.
    destruct (frames_slice_contours find_contours line_aa h0 fuel roi_data M i
                h _ _ Hpre Hslice) as [Hpre1 _].
    destruct (IH _ _ _ _ _ Hpre1 Hrun) as [Hlen Hbound].
    rewrite length_app in Hlen. simpl in *. split; [lia|]. intros _.
    destruct rest as [|s' rest']; [simpl; lia|].
    assert (s' :: rest' <> []) as Hne by discriminate.
    specialize (Hbound Hne). simpl in *. lia.
Qed.

End OutputShape.

(** X19.  When [get_contours_coords] returns, its result has one entry per
    slice of the series, and the mask has at least as many planes as the
    series has slices: on a mask with fewer planes the call does not
    return. *)
Theorem get_contours_coords_output_length
    (find_contours : array2 -> result (list contour))
    (line_aa : Z -> Z -> Z -> Z -> list Z * list Z * list R)
    (fuel : nat) (roi_data : ROIData) (series_data : list Dataset)
    (h h' : heap) (m : array3) (out : list (list (list R)))
    (Hmask : h !! mask roi_data = Some (Obj3 m))
    (Hrun : get_contours_coords find_contours line_aa fuel roi_data series_data h
            = Some (Ok out, h')) :
  length out = length series_data /\
  (length series_data <= snd (a3_shape m))%nat.
Proof.
  revert Hrun. unfold get_contours_coords. run_comp.
  destruct (get_pixel_to_patient_transformation_matrix series_data) as [M|e] eqn:HM;
    [|discriminate].
  intros Hrun.
  destruct (contours_loop_length find_contours line_aa fuel roi_data M h m Hmask
              series_data 0%nat [] h out h' (reflexivity h) Hrun) as [Hlen Hbound].
  split; [exact Hlen|].
  destruct series_data as [|s rest]; [simpl; lia|].
  apply Hbound. discriminate.
Qed.

Lemma dot_mask_contours_run :
  exists F,
    get_pixel_to_patient_transformation_matrix two_slices = Ok F /\
    get_contours_coords square_contour line_aa_leftward 0 roi_plain two_slices
      [Obj3 dot_mask]
    = Some (Ok [[]; map (dicom_contour F 1)
                      [[(1 / 2, 1); (1, 3 / 2); (3 / 2, 1); (1, 1 / 2)]]],
            [Obj3 dot_mask]).
Proof.
  destruct two_slices_pixel_to_patient as [F HF]. exists F. split; [exact HF|].
  unfold get_contours_coords. run_comp. rewrite HF.
  unfold two_slices. cbn [contours_loop]. run_comp.
  rewrite (slice_contours_blank square_contour line_aa_leftward 0 roi_plain F 0
             [Obj3 dot_mask] dot_mask eq_refl);
    [| simpl; lia | exact dot_mask_plane_0_blank].
  rewrite (slice_contours_plain_value square_contour line_aa_leftward 0 roi_plain F 1
             [Obj3 dot_mask] dot_mask
             [[(1 / 2, 1); (1, 3 / 2); (3 / 2, 1); (1, 1 / 2)]] eq_refl);
    [reflexivity | simpl; lia | reflexivity | exact dot_mask_plane_1_true
    | reflexivity | discriminate | repeat constructor; discriminate].
Qed.

Lemma get_contours_coords_output_length_witness :
  exists out : list (list (list R)),
    length out = length two_slices /\
    (length two_slices <= snd (a3_shape dot_mask))%nat.
Proof.
  destruct dot_mask_contours_run as (F & _ & Hrun).
  eexists.
  exact (get_contours_coords_output_length square_contour line_aa_leftward 0
           roi_plain two_slices [Obj3 dot_mask] [Obj3 dot_mask] dot_mask _
           eq_refl Hrun).
Defined.

(** ** What the line-draw loop writes *)

Lemma cleared_or_kept_refl (fill_value : Z) (a : array2) : cleared_or_kept fill_value a a.
Proof. repeat split. intros x y. now right. Qed.

Lemma cleared_or_kept_trans (fill_value : Z) (a b c : array2) :
  cleared_or_kept fill_value a b -> cleared_or_kept fill_value b c ->
  cleared_or_kept fill_value a c.
Proof.
  intros (Hs1 & Hd1 & Hc1) (Hs2 & Hd2 & Hc2). repeat split; try congruence.
  intros x y. destruct (Hc2 x y) as [H | H]; [now left|].
  rewrite H. apply Hc1.
Qed.

Lemma setitem_cleared_or_kept (a a' : array2) (rr cc : list Z) (fill_value : Z) :
  setitem a rr cc fill_value = Ok a' -> cleared_or_kept fill_value a a'.
Proof.
  unfold setitem. destruct (norm_indices _ _) as [xys|]; [|discriminate].
  intros [= <-]. repeat split. intros x y. simpl.
  destruct (existsb _ xys); [now left | now right].
Qed.

Section LineDrawEffect.

Variable line_aa : Z -> Z -> Z -> Z -> list Z * list Z * list R.

Lemma draw_loop_effect (fill_value line_width : Z) :
  forall fuel (h : heap) (u : array2) start end_ res h2,
    draw_loop line_aa fuel (length h) start end_ fill_value line_width
      (h ++ [Obj2 u]) = Some (res, h2) ->
    exists u', h2 = h ++ [Obj2 u'] /\ cleared_or_kept fill_value u u'.
Proof.
  induction fuel as [|fuel IH]; intros h u start end_ res h2; simpl;
    [discriminate|].
  run_comp. unfold load.
  rewrite (list_lookup_middle h [] _ (length h) eq_refl).
  assert (Hstop : forall (r : result unit),
             Some (r, h ++ [Obj2 u]) = Some (res, h2) ->
             exists u', h2 = h ++ [Obj2 u'] /\ cleared_or_kept fill_value u u').
  { intros r [= _ <-]. exists u. split; [reflexivity | apply cleared_or_kept_refl]. }
  destruct (getitem u end_) as [v|e]; [|apply Hstop].
  destruct (negb (Z.eqb v fill_value)); [|apply Hstop].
  destruct (as_int (fst start)) as [r0|e]; [|apply Hstop].
  destruct (as_int (snd start)) as [c0|e]; [|apply Hstop].
  destruct (as_int (fst end_)) as [r1|e]; [|apply Hstop].
  destruct (as_int (snd end_)) as [c1|e]; [|apply Hstop].
  destruct (line_aa r0 c0 r1 c1) as [[rr cc] val].
  unfold update. rewrite (list_lookup_middle h [] _ (length h) eq_refl).
  destruct (setitem u rr cc fill_value) as [u1|e] eqn:Hset; [|apply Hstop].
  rewrite insert_app_r_alt by lia. rewrite Nat.sub_diag. cbn [insert list_insert].
  intros Hrun. apply IH in Hrun as (u' & -> & Hu').
  exists u'. split; [reflexivity|].
  eapply cleared_or_kept_trans; [|exact Hu'].
  exact (setitem_cleared_or_kept _ _ _ _ _ Hset).
Qed.

Lemma draw_line_effect (fuel : nat) (r r' : ref) (start : pynum * pynum)
    (fill_value : Z) (h h' : heap) (a : array2) :
  load r h = Some (Ok a, h) ->
  draw_line_upwards_from_point line_aa fuel r start fill_value h = Some (Ok r', h') ->
  exists u out,
    h' = h ++ [Obj2 u; Obj2 out] /\
    r' = Whole (S (length h)) /\
    a2_dtype out = Bool /\
    a2_shape out = a2_shape a /\
    forall x y,
      a2_at out x y = b2z (z2b (fill_value mod 256)) \/
      a2_at out x y = b2z (z2b (a2_at a x y mod 256)).
Proof.
  intros Hload. unfold draw_line_upwards_from_point. run_comp.
  rewrite Hload. unfold alloc.
  destruct (draw_loop line_aa fuel (length h) start _ fill_value 2
              (h ++ [Obj2 (astype UInt8 a)])) as [[[[]|e] h2]|] eqn:Hloop;
    try discriminate.
  apply draw_loop_effect in Hloop as (u & -> & Hs & _ & Hcells).
  unfold load. rewrite (list_lookup_middle h [] _ (length h) eq_refl).
  intros [= <- <-]. exists u, (astype Bool u).
  rewrite length_app, <- app_assoc. simpl.
  split; [reflexivity|]. split; [f_equal; lia|]. split; [reflexivity|].
  split; [exact Hs|]. intros x y.
  destruct (Hcells x y) as [-> | ->]; [now left | now right].
Qed.

End LineDrawEffect.

(** X20.  A call of [draw_line_upwards_from_point] that returns leaves every
    array of the store as it was and adds two: its uint8 working copy and the
    boolean array it returns.  The returned array has the shape of the mask
    it was given, and each of its cells is either the truth value of the fill
    value or the truth value of the cell of the given mask: with fill value 0
    the call clears cells and sets none. *)
Theorem draw_line_only_writes_fill
    (line_aa : Z -> Z -> Z -> Z -> list Z * list Z * list R)
    (fuel : nat) (mask_ref result_ref : ref) (start : pynum * pynum)
    (fill_value : Z) (h h' : heap) (a : array2)
    (Hload : load mask_ref h = Some (Ok a, h))
    (Hrun : draw_line_upwards_from_point line_aa fuel mask_ref start fill_value h
            = Some (Ok result_ref, h')) :
  exists u out,
    h' = h ++ [Obj2 u; Obj2 out] /\
    result_ref = Whole (S (length h)) /\
    a2_dtype out = Bool /\
    a2_shape out = a2_shape a /\
    forall x y,
      a2_at out x y = b2z (z2b (fill_value mod 256)) \/
      a2_at out x y = b2z (z2b (a2_at a x y mod 256)).
Proof. exact (draw_line_effect line_aa fuel _ _ _ _ _ _ _ Hload Hrun). Qed.

Lemma draw_line_only_writes_fill_witness :
  exists out : array2,
    a2_dtype out = Bool /\
    a2_shape out = a2_shape strip /\
    forall x y,
      a2_at out x y = b2z (z2b (0 mod 256)) \/
      a2_at out x y = b2z (z2b (a2_at strip x y mod 256)).
Proof.
  destruct draw_line_on_strip as (h' & Hrun & _).
  destruct (draw_line_only_writes_fill line_aa_leftward 3 (Whole 0) (Whole 2)
              (PyInt 1, PyInt 4) 0 [Obj2 strip] h' strip eq_refl Hrun)
    as (u & out & _ & _ & Hd & Hs & Hc).
  exists out. now repeat split.
Defined.

(** ** The pin-hole pass inside the orchestrator *)

Section PinHoleOrchestrator.

Variable find_contours : array2 -> result (list contour).
Variable line_aa : Z -> Z -> Z -> Z -> list Z * list Z * list R.

Lemma pin_hole_pass_raises (fuel : nat) (r : ref) (approx : bool) (h : heap)
    (a : array2) (p : R * R) (c : contour) (rest : list contour) :
  load r h = Some (Ok a, h) ->
  find_contours a = Ok ((p :: c) :: rest) ->
  create_pin_hole_mask find_contours line_aa (S fuel) r approx h
  = Some (Raise IndexError, h ++ [Obj2 a] ++ [Obj2 (astype UInt8 a)]).
Proof.
  intros Hload Htrace. unfold create_pin_hole_mask, find_mask_contours. run_comp.
  rewrite Hload, Htrace. unfold alloc. cbn [pin_hole_loop]. run_comp.
  rewrite Hload.
  rewrite (draw_line_float_raises line_aa fuel _ _ _ _ _ a).
  - now rewrite <- app_assoc.
  - unfold load. now rewrite (list_lookup_middle h [] _ (length h) eq_refl).
Qed.

Lemma slice_contours_pin_hole_raises (fuel : nat) (roi_data : ROIData) (M : matrix)
    (k : nat) (h : heap) (m : array3) (p : R * R) (c : contour) (rest : list contour) :
  h !! mask roi_data = Some (Obj3 m) ->
  (k < snd (a3_shape m))%nat ->
  use_pin_hole roi_data = true ->
  plane_has_true m k ->
  find_contours (plane m k) = Ok ((p :: c) :: rest) ->
  slice_contours find_contours line_aa (S fuel) roi_data M k h
  = Some (Raise IndexError,
          h ++ [Obj2 (plane m k)] ++ [Obj2 (astype UInt8 (plane m k))]).
Proof.
  intros Hmask Hk Hpin Htrue Htrace. unfold slice_contours, view_plane. run_comp.
  rewrite Hmask. destruct (Nat.ltb_spec k (snd (a3_shape m))) as [_|]; [|lia].
  unfold load at 1. rewrite Hmask.
  destruct (Z.eqb_spec (np_sum (plane m k)) 0) as [Hz|_];
    [now apply np_sum_plane_has_true in Htrue|].
  rewrite Hpin.
  rewrite (pin_hole_pass_raises fuel _ _ h (plane m k) p c rest); [reflexivity| |exact Htrace].
  unfold load. now rewrite Hmask.
Qed.

Lemma contours_loop_first_raise (fuel : nat) (roi_data : ROIData) (M : matrix)
    (h : heap) (m : array3) (e : exn) (h' : heap) :
  h !! mask roi_data = Some (Obj3 m) ->
  forall k slices i acc,
    (k < length slices)%nat ->
    (i + k < snd (a3_shape m))%nat ->
    (forall j, (j < k)%nat -> plane_blank m (i + j)) ->
    slice_contours find_contours line_aa fuel roi_data M (i + k) h
    = Some (Raise e, h') ->
    contours_loop find_contours line_aa fuel roi_data M i slices acc h
    = Some (Raise e, h').
Proof.
  intros Hmask.
  induction k as [|k IH]; intros slices i acc Hk Hik Hblank Hraise;
    (destruct slices as [|s rest]; simpl in Hk; [lia|]); simpl; run_comp.
  - rewrite Nat.add_0_r in Hraise. now rewrite Hraise.
  - rewrite (slice_contours_blank find_contours line_aa fuel roi_data M i h m Hmask).
    + apply IH; try lia.
      * intros j Hj. replace (S i + j)%nat with (i + S j)%nat by lia.
        apply Hblank. lia.
      * now replace (S i + k)%nat with (i + S k)%nat by lia.
    + lia.
    + rewrite <- (Nat.add_0_r i). apply Hblank. lia.
Qed.

End PinHoleOrchestrator.

(** X21.  With [use_pin_hole] set, [get_contours_coords] raises IndexError at
    the first plane that has a true cell, when the trace of that plane finds
    a contour with a point: the pin-hole pass indexes the mask with the float
    coordinates of the traced point.  The caller's mask is untouched; the
    store has gained the copy of the plane and its uint8 conversion. *)
Theorem get_contours_coords_pin_hole_raises
    (find_contours : array2 -> result (list contour))
    (line_aa : Z -> Z -> Z -> Z -> list Z * list Z * list R)
    (fuel : nat) (roi_data : ROIData) (series_data : list Dataset)
    (h : heap) (m : array3) (M : matrix) (k : nat)
    (p : R * R) (c : contour) (rest : list contour)
    (Hmask : h !! mask roi_data = Some (Obj3 m))
    (Hmatrix : get_pixel_to_patient_transformation_matrix series_data = Ok M)
    (Hslice : (k < length series_data)%nat)
    (Hplane : (k < snd (a3_shape m))%nat)
    (Hpin : use_pin_hole roi_data = true)
    (Hblank : forall j, (j < k)%nat -> plane_blank m j)
    (Htrue : plane_has_true m k)
    (Htrace : find_contours (plane m k) = Ok ((p :: c) :: rest)) :
  get_contours_coords find_contours line_aa (S fuel) roi_data series_data h
  = Some (Raise IndexError,
          h ++ [Obj2 (plane m k)] ++ [Obj2 (astype UInt8 (plane m k))]).
Proof.
  unfold get_contours_coords. run_comp. rewrite Hmatrix.
  apply (contours_loop_first_raise find_contours line_aa (S fuel) roi_data M h m
           IndexError _ Hmask k series_data 0%nat []); try assumption.
  now apply (slice_contours_pin_hole_raises find_contours line_aa fuel roi_data M k h m
               p c rest).
Qed.

Lemma get_contours_coords_pin_hole_raises_witness :
  exists F,
    get_pixel_to_patient_transformation_matrix two_slices = Ok F /\
    get_contours_coords square_contour line_aa_leftward 1 roi_pin_hole two_slices
      [Obj3 dot_mask]
    = Some (Raise IndexError,
            [Obj3 dot_mask] ++ [Obj2 (plane dot_mask 1)]
              ++ [Obj2 (astype UInt8 (plane dot_mask 1))]).
Proof.
  destruct two_slices_pixel_to_patient as [F HF]. exists F. split; [exact HF|].
  apply (get_contours_coords_pin_hole_raises square_contour line_aa_leftward 0
           roi_pin_hole two_slices [Obj3 dot_mask] dot_mask F 1
           (1 / 2, 1) [(1, 3 / 2); (3 / 2, 1); (1, 1 / 2)] []).
  - reflexivity.
  - exact HF.
  - simpl. lia.
  - simpl. lia.
  - reflexivity.
  - intros j Hj. assert (j = 0%nat) as -> by lia. exact dot_mask_plane_0_blank.
  - exact dot_mask_plane_1_true.
  - reflexivity.
Defined.

(** ** Rounding to pixels *)

(** X22.  For contour points whose transformed coordinates lie within the
    range of int32, [to_polygon] keeps the first two coordinates of each
    point and rounds them to a nearest integer: each vertex is within half a
    pixel of its point in both coordinates.  (Beyond that range the cast to
    int32 does not keep the rounded value.) *)
Theorem to_polygon_nearest_pixel (points : list vec3)
    (Hrange : Forall (fun p => Rabs (vx p) <= IZR int32_max /\
                               Rabs (vy p) <= IZR int32_max) points) :
  Forall2 (fun p v =>
             Rabs (IZR (fst v) - vx p) <= 1 / 2 /\
             Rabs (IZR (snd v) - vy p) <= 1 / 2)
          points (to_polygon points).
Proof.
  induction Hrange as [|p ps [Hx Hy] _ IH]; simpl; constructor; [|exact IH].
  simpl. rewrite !astype_int32_fits by (now apply np_around_fits).
  split; apply np_around_near.
Qed.

Lemma to_polygon_nearest_pixel_witness :
  Forall2 (fun p v =>
             Rabs (IZR (fst v) - vx p) <= 1 / 2 /\
             Rabs (IZR (snd v) - vy p) <= 1 / 2)
          [V3 (1 / 2) (3 / 2) 0; V3 (-7 / 4) 100 0]
          (to_polygon [V3 (1 / 2) (3 / 2) 0; V3 (-7 / 4) 100 0]).
Proof.
  apply (to_polygon_nearest_pixel [V3 (1 / 2) (3 / 2) 0; V3 (-7 / 4) 100 0]).
  repeat (apply List.Forall_cons;
            [split; simpl; unfold int32_max; apply Rabs_le; lra|]).
  apply List.Forall_nil.
Defined.

(** ** A bound on the line-draw loop *)

(** X23.  The line-draw loop needs no reachable background to stop: from an
    integer start (r, c) on a mask with [w] columns,
    [draw_line_upwards_from_point] finishes, by returning or by raising,
    within [c + w + 1] evaluations of its loop test, whatever the mask holds
    and whatever [line_aa] draws. *)
Theorem draw_line_bounded_turns
    (line_aa : Z -> Z -> Z -> Z -> list Z * list Z * list R)
    (mask_ref : ref) (a : array2) (h : heap) (r : pynum) (c fill_value : Z)
    (fuel : nat)
    (Hload : load mask_ref h = Some (Ok a, h))
    (Hfuel : (Z.to_nat (c + Z.of_nat (snd (a2_shape a))) < fuel)%nat) :
  terminates
    (draw_line_upwards_from_point line_aa fuel mask_ref (r, PyInt c) fill_value) h.
Proof.
  unfold terminates, draw_line_upwards_from_point. run_comp.
  rewrite Hload. unfold alloc. cbn [fst snd py_sub].
  destruct (draw_loop_terminates_int line_aa (length h) fill_value
              (Z.to_nat (c + Z.of_nat (snd (a2_shape a))))
              (r, PyInt c) r (c - 1)%Z (h ++ [Obj2 (astype UInt8 a)]))
    with (fuel := fuel) as (res & h2 & Hloop).
  - intros a' Ha'.
    rewrite (list_lookup_middle h [] _ (length h) eq_refl) in Ha'.
    injection Ha' as <-. simpl. lia.
  - exact Hfuel.
  - rewrite Hloop. destruct res as [[]|e]; eauto.
    destruct (load_total (Whole (length h)) h2) as [[a'|e] ->]; eauto.
Qed.

Lemma draw_line_bounded_turns_witness :
  terminates
    (draw_line_upwards_from_point line_aa_leftward 11 (Whole 0) (PyInt 1, PyInt 4) 0)
    [Obj2 strip].
Proof.
  apply (draw_line_bounded_turns line_aa_leftward (Whole 0) strip [Obj2 strip]
           (PyInt 1) 4 0 11 eq_refl).
  simpl. lia.
Defined.

(** ** The whole conversion from mask to contours *)

Section WholeConversion.

Variable find_contours : array2 -> result (list contour).
Variable line_aa : Z -> Z -> Z -> Z -> list Z * list Z * list R.

Lemma slice_contours_traceable (fuel : nat) (roi_data : ROIData) (M : matrix)
    (k : nat) (h : heap) (m : array3) :
  h !! mask roi_data = Some (Obj3 m) ->
  (k < snd (a3_shape m))%nat ->
  use_pin_hole roi_data = false ->
  traceable find_contours m k ->
  slice_contours find_contours line_aa fuel roi_data M k h
  = Some (Ok (slice_output find_contours M m k), h).
Proof.
  intros Hmask Hk Hpin [Hblank | (Htrue & cs & Htrace & Hne & Hall)].
  - rewrite (slice_contours_blank _ _ _ _ _ _ _ m Hmask Hk Hblank).
    unfold slice_output. now rewrite (np_sum_plane_blank _ _ Hblank).
  - rewrite (slice_contours_plain_value _ _ _ _ _ _ _ m cs Hmask Hk Hpin Htrue
               Htrace Hne Hall).
    unfold slice_output. rewrite Htrace.
    destruct (Z.eqb_spec (np_sum (plane m k)) 0) as [Hz|_]; [|reflexivity].
    now apply np_sum_plane_has_true in Htrue.
Qed.

Lemma contours_loop_traceable (fuel : nat) (roi_data : ROIData) (M : matrix)
    (h : heap) (m : array3) :
  h !! mask roi_data = Some (Obj3 m) ->
  use_pin_hole roi_data = false ->
  forall slices i acc,
    (i + length slices <= snd (a3_shape m))%nat ->
    (forall k, (i <= k < i + length slices)%nat -> traceable find_contours m k) ->
    contours_loop find_contours line_aa fuel roi_data M i slices acc h
    = Some (Ok (acc ++ map (slice_output find_contours M m)
                         (seq i (length slices))), h).
Proof.
  intros Hmask Hpin.
  induction slices as [|s rest IH]; intros i acc Hlen Hall; simpl; run_comp.
  - now rewrite app_nil_r.
  - simpl in Hlen.
    rewrite (slice_contours_traceable fuel roi_data M i h m Hmask) by
      (try exact Hpin; try lia; apply Hall; simpl; lia).
    rewrite IH.
    + now rewrite <- app_assoc.
    + lia.
    + intros k Hk. apply Hall. simpl. lia.
Qed.

End WholeConversion.

(** X24.  Without the pin-hole pass, on a mask with at least as many planes
    as the series has slices, each plane blank or properly traced, and a
    series whose matrix can be built, [get_contours_coords] returns for slice
    [k] the empty list when plane [k] is blank and otherwise one flat
    coordinate list per traced contour; the store is left as it is. *)
Theorem get_contours_coords_plain
    (find_contours : array2 -> result (list contour))
    (line_aa : Z -> Z -> Z -> Z -> list Z * list Z * list R)
    (fuel : nat) (roi_data : ROIData) (series_data : list Dataset)
    (h : heap) (m : array3) (M : matrix)
    (Hmask : h !! mask roi_data = Some (Obj3 m))
    (Hplain : use_pin_hole roi_data = false)
    (Hmatrix : get_pixel_to_patient_transformation_matrix series_data = Ok M)
    (Hplanes : (length series_data <= snd (a3_shape m))%nat)
    (Htraceable : forall k, (k < length series_data)%nat ->
                            traceable find_contours m k) :
  get_contours_coords find_contours line_aa fuel roi_data series_data h
  = Some (Ok (map (slice_output find_contours M m) (seq 0 (length series_data))), h).
Proof.
  unfold get_contours_coords. run_comp. rewrite Hmatrix.
  rewrite (contours_loop_traceable find_contours line_aa fuel roi_data M h m
             Hmask Hplain series_data 0%nat []).
  - reflexivity.
  - simpl. lia.
  - intros k Hk. apply Htraceable. lia.
Qed.

Lemma dot_mask_traceable (k : nat) :
  (k < length two_slices)%nat -> traceable square_contour dot_mask k.
Proof.
  intros Hk. simpl in Hk.
  destruct k as [|[|k]]; [| |lia].
  - left. exact dot_mask_plane_0_blank.
  - right. split; [exact dot_mask_plane_1_true|].
    eexists. split; [reflexivity|]. split; [discriminate|].
    repeat constructor; discriminate.
Qed.

Lemma get_contours_coords_plain_witness :
  exists F,
    get_contours_coords square_contour line_aa_leftward 0 roi_plain two_slices
      [Obj3 dot_mask]
    = Some (Ok (map (slice_output square_contour F dot_mask)
                    (seq 0 (length two_slices))),
            [Obj3 dot_mask]).
Proof.
  destruct two_slices_pixel_to_patient as [F HF]. exists F.
  apply (get_contours_coords_plain square_contour line_aa_leftward 0 roi_plain
           two_slices [Obj3 dot_mask] dot_mask F eq_refl eq_refl HF).
  - simpl. lia.
  - exact dot_mask_traceable.
Defined.

(** ** What the orientation test leaves open *)

Lemma cross_scaled (r c : vec3) (t : R) :
  t <> 0 -> cross (scale r t) (scale c (/ t)) = cross r c.
Proof.
  intros Ht. destruct r, c. unfold cross, scale. simpl. f_equal; now field.
Qed.

(** X25.  The orientation test constrains the dot product of the two
    directions and the length of their cross product only, not the length of
    each direction: when the row direction of an orthonormal slice is
    stretched by a factor [t] and the column direction shrunk by it,
    [get_slice_directions] still accepts the slice, and returns the stretched
    directions with the unchanged normal. *)
Theorem get_slice_directions_accepts_stretched (s : Dataset) (t : R)
    (Horth : orthonormal s)
    (Ht : t <> 0) :
  get_slice_directions (stretch_directions t s) =
    Ok (scale (fst (ImageOrientationPatient s)) t,
        scale (snd (ImageOrientationPatient s)) (/ t),
        slice_normal s).
Proof.
  destruct Horth as (Hr & Hc & Hrc).
  assert (Hacc : ~ slice_rejected (stretch_directions t s)).
  { unfold slice_rejected, orientation_rejected. simpl.
    rewrite (cross_scaled _ _ _ Ht).
    replace (dot (scale (fst (ImageOrientationPatient s)) t)
                 (scale (snd (ImageOrientationPatient s)) (/ t)))
      with (dot (fst (ImageOrientationPatient s)) (snd (ImageOrientationPatient s)))
      by (destruct (fst (ImageOrientationPatient s)),
                   (snd (ImageOrientationPatient s));
          unfold dot, scale; simpl; now field).
    intros [H | H].
    - rewrite Hrc, Rabs_R0 in H. lra.
    - unfold norm in H. rewrite cross_dot_cross, Hr, Hc, Hrc in H.
      replace (1 * 1 - 0 * 0) with 1 in H by ring.
      rewrite sqrt_1, Rminus_diag, Rabs_R0 in H. lra. }
  rewrite (get_slice_directions_accepted _ Hacc). simpl.
  unfold slice_normal. simpl. now rewrite (cross_scaled _ _ _ Ht).
Qed.

Lemma get_slice_directions_accepts_stretched_witness :
  get_slice_directions (stretch_directions 2 (axial_slice "a" 0)) =
    Ok (scale (V3 1 0 0) 2, scale (V3 0 1 0) (/ 2), slice_normal (axial_slice "a" 0)).
Proof.
  apply (get_slice_directions_accepts_stretched (axial_slice "a" 0) 2).
  - apply axial_slice_orthonormal.
  - lra.
Defined.

(** X26.  A pixel-to-patient matrix that was built is invertible exactly
    when the three spacings are nonzero: its determinant is the product of
    the row, column and slice spacing and the squared length of the slice
    normal, which the orientation test keeps away from zero. *)
Theorem pixel_to_patient_invertible
    (series_data : list Dataset) (s0 : Dataset) (F : matrix) (slice_spacing : R)
    (Hfirst : first_of series_data = Ok s0)
    (Hbuild : get_pixel_to_patient_transformation_matrix series_data = Ok F)
    (Hspacing : get_spacing_between_slices series_data = Ok slice_spacing) :
  det4 F = fst (PixelSpacing s0) * snd (PixelSpacing s0) * slice_spacing
           * dot (slice_normal s0) (slice_normal s0) /\
  (det4 F <> 0 <->
   fst (PixelSpacing s0) <> 0 /\ snd (PixelSpacing s0) <> 0 /\ slice_spacing <> 0).
Proof.
  destruct (pixel_to_patient_explicit _ _ _ Hfirst Hbuild) as (ss & Hss & ->).
  rewrite Hspacing in Hss. injection Hss as <-.
  assert (Hacc : ~ slice_rejected s0).
  { intros Hrej. revert Hbuild. unfold get_pixel_to_patient_transformation_matrix.
    rewrite Hfirst, Hspacing. run_result. destruct (PixelSpacing s0).
    now rewrite (get_slice_directions_rejected _ Hrej). }
  pose proof (accepted_normal_nonzero _ Hacc) as Hn.
  unfold slice_normal in *. rewrite forward_matrix_det.
  split; [reflexivity|].
  set (rs := fst (PixelSpacing s0)). set (cs := snd (PixelSpacing s0)).
  set (nn := dot _ _) in *.
  split.
  - intros Hdet. repeat split; intros E; apply Hdet; rewrite E; ring.
  - intros (Hrs & Hcs & Hss).
    repeat apply Rmult_integral_contrapositive_currified; try assumption.
    lra.
Qed.

Lemma pixel_to_patient_invertible_witness :
  exists F, get_pixel_to_patient_transformation_matrix two_slices = Ok F /\
            det4 F <> 0.
Proof.
  destruct two_slices_pixel_to_patient as [F HF]. exists F. split; [exact HF|].
  destruct (pixel_to_patient_invertible two_slices (axial_slice "a" 0) F _
              eq_refl HF two_slices_spacing) as [_ Hiff].
  apply Hiff. simpl. repeat split; try lra.
  unfold projection, slice_normal, dot, cross. simpl. lra.
Defined.
